(** * esda: the A-DBSCAN ensemble (esda/adbscan.py) and the FDR cut-off (esda/util.py)

    A shallow embedding of the two Python modules.

    - Floating-point numbers (coordinates, centroid means, p-values, vote
      shares) are read as exact rationals [Q] in the first part.  Where a
      result depends on the rounding, the code is given a second time on
      binary64 numbers: [Binary64.fdr], and the alignment [Machine.remap_lbls]
      with [Binary64.mean] and [Binary64.nearest].
    - A pandas table is a record of its number of rows and its list of
      columns; a Series indexed by labels is an association list in index
      order.
    - A raised Python exception is the left injection of a sum; the
      warnings a call emits, and the calls [fit] makes to its three stages,
      are collected in an event log; [fit] threads the state of numpy's global
      random generator.
    - The density primitive (DBSCAN) and the random shuffle are parameters
      of [fit]; the two nearest-neighbour searches (cKDTree.query and the
      1-nearest-neighbour classifier) are the function [nearest]. *)

From Stdlib Require Import String Ascii DecimalString.
From Stdlib Require Import List ZArith QArith Qround Lqa Lia Bool Arith.
From Stdlib Require Import Permutation Sorted.
Import ListNotations.

Set Implicit Arguments.

(** ** Python exceptions, warnings and the small monads that thread them *)

Inductive exn : Type :=
| IndexError
| ValueError
| ZeroDivisionError.

(** [inl e]: the call raised [e]; [inr v]: it returned [v]. *)
Definition result (A : Type) : Type := (exn + A)%type.

Inductive event : Type :=
| UserWarning (msg : string)   (* warnings.warn(msg, UserWarning) *)
| Enter (fn : string).         (* fit calls the stage function [fn] *)

Definition is_enter (ev : event) : bool :=
  match ev with Enter _ => true | UserWarning _ => false end.

Definition rbind {A B} (m : result A) (k : A -> result B) : result B :=
  match m with inl e => inl e | inr a => k a end.

Fixpoint rmap_list {A B} (f : A -> result B) (l : list A) : result (list B) :=
  match l with
  | [] => inr []
  | a :: l' => rbind (f a) (fun b => rbind (rmap_list f l') (fun bs => inr (b :: bs)))
  end.

Fixpoint rfold {A S} (body : A -> S -> result S) (l : list A) (s : S) : result S :=
  match l with
  | [] => inr s
  | a :: l' => rbind (body a s) (rfold body l')
  end.

(** ** Lists as numpy / pandas use them *)

Fixpoint first_index {A} (f : A -> bool) (l : list A) : option nat :=
  match l with
  | [] => None
  | a :: l' => if f a then Some 0%nat else option_map S (first_index f l')
  end.

Definition list_max_nat (l : list nat) : nat := fold_right Nat.max 0%nat l.

Fixpoint update {A} (i : nat) (v : A) (l : list A) : list A :=
  match l, i with
  | [], _ => []
  | _ :: l', O => v :: l'
  | a :: l', S i' => a :: update i' v l'
  end.

Definition opt_list {A} (o : option A) : list A :=
  match o with Some a => [a] | None => [] end.

(** [l[:k]] for a Python int [k] (a negative [k] counts from the end). *)
Definition py_slice_to {A} (k : Z) (l : list A) : list A :=
  if (k <? 0)%Z then firstn (Z.to_nat (Z.of_nat (length l) + k)) l
  else firstn (Z.to_nat k) l.

(** [int(q)]: truncation toward zero. *)
Definition py_int (q : Q) : Z :=
  if Qle_bool 0 q then Qfloor q else Qceiling q.

Definition Qltb (a b : Q) : bool :=
  match Qcompare a b with Lt => true | _ => false end.

Definition Q_of_nat (n : nat) : Q := inject_Z (Z.of_nat n).

Definition sumQ (l : list Q) : Q := fold_right Qplus 0 l.

(** A table: [nrows] index entries and the columns, each of [nrows] cells.
    Columns are addressed by position (their names are distinct). *)
Record DataFrame (A : Type) : Type := mkDF {
  nrows : nat;
  cols : list (list A)
}.

Definition shape1 {A} (df : DataFrame A) : nat := length (cols df).

Definition wf_frame {A} (df : DataFrame A) : Prop :=
  Forall (fun c => length c = nrows df) (cols df).

Definition set_col {A} (df : DataFrame A) (s : nat) (c : list A) : DataFrame A :=
  mkDF (nrows df) (update s c (cols df)).

Definition row_at {A} (cs : list (list A)) (i : nat) : list A :=
  flat_map (fun c => opt_list (nth_error c i)) cs.

(** [df.values]: the rows, in index order. *)
Definition values {A} (df : DataFrame A) : list (list A) :=
  map (row_at (cols df)) (seq 0 (nrows df)).

(** [X.iloc[rids]]: positional selection; out of range raises. *)
Definition iloc {A} (l : list A) (rids : list nat) : result (list A) :=
  rmap_list (fun i => match nth_error l i with
                      | Some a => inr a
                      | None => inl IndexError
                      end) rids.

(** ** Planar geometry of the external collaborators *)

Definition point : Type := (Q * Q)%type.

Definition dist2 (p q : point) : Q :=
  (fst p - fst q) * (fst p - fst q) + (snd p - snd q) * (snd p - snd q).

(** [DataFrame.mean()] over the rows of one group, the sums and the
    quotients taken exactly ([Binary64.mean] rounds them). *)
Definition mean (pts : list point) : point :=
  (sumQ (map fst pts) / Q_of_nat (length pts),
   sumQ (map snd pts) / Q_of_nat (length pts)).

(** Index of the reference point nearest to [q], by exact distances; among
    equidistant references the lowest index.  It stands for [cKDTree.query]
    and for the 1-nearest-neighbour search of [KNeighborsClassifier];
    [Machine.remap_lbls] leaves the query of the tree open. *)
Fixpoint nearest (cs : list point) (q : point) : nat :=
  match cs with
  | [] => 0%nat
  | c :: cs' =>
      match cs' with
      | [] => 0%nat
      | _ :: _ =>
          let j := nearest cs' q in
          if Qle_bool (dist2 q c) (dist2 q (nth j cs' c)) then 0%nat else S j
      end
  end.

(** ** The label representation

    A table of labels holds values of one Python type [lbl_type]: [int] in the
    docstring examples, [str] inside [fit].  [lbl_noise] is [lbl_type(-1)],
    [lbl_zero] is the cell [np.zeros(..., dtype=lbl_type)] creates, [lbl_leb]
    is the order in which [groupby] lists its keys. *)
Class LabelRep (label : Type) : Type := {
  lbl_eq_dec : forall a b : label, {a = b} + {a <> b};
  lbl_leb : label -> label -> bool;
  lbl_zero : label;
  lbl_noise : label
}.

Definition str (z : Z) : string := NilZero.string_of_int (Z.to_int z).

#[export] Instance int_labels : LabelRep Z := {
  lbl_eq_dec := Z.eq_dec;
  lbl_leb := Z.leb;
  lbl_zero := 0%Z;
  lbl_noise := (-1)%Z
}.

#[export] Instance str_labels : LabelRep string := {
  lbl_eq_dec := string_dec;
  lbl_leb := String.leb;
  lbl_zero := EmptyString;
  lbl_noise := str (-1)
}.

(** ** esda/adbscan.py: label alignment and majority voting *)

Section Labels.
Context {label : Type} {L : LabelRep label}.

Definition lbl_eqb (a b : label) : bool :=
  if lbl_eq_dec a b then true else false.

(** [Series.unique()]: the distinct values in order of first appearance. *)
Fixpoint unique (l : list label) : list label :=
  match l with
  | [] => []
  | x :: t => x :: remove lbl_eq_dec x (unique t)
  end.

Definition n_unique (x : list label) : nat := length (unique x).

Fixpoint insert_sorted (x : label) (l : list label) : list label :=
  match l with
  | [] => [x]
  | y :: l' => if lbl_leb x y then x :: l else y :: insert_sorted x l'
  end.

Definition sort_labels (l : list label) : list label :=
  fold_right insert_sorted [] l.

(** The rows of [xys] whose label in [lbls] is [l]. *)
Definition select (lbls : list label) (xys : list point) (l : label) : list point :=
  map snd (filter (fun lp => lbl_eqb (fst lp) l) (combine lbls xys)).

(** [xys.groupby(lbls)[xy].apply(lambda xys: xys.mean())]: one centroid
    per distinct label, keys in sorted order. *)
Definition groupby_mean (lbls : list label) (xys : list point) : list (label * point) :=
  map (fun l => (l, mean (select lbls xys l))) (sort_labels (unique lbls)).

(** [.drop(l, errors="ignore")] *)
Definition drop_label {V} (l : label) (t : list (label * V)) : list (label * V) :=
  filter (fun kv => negb (lbl_eqb (fst kv) l)) t.

Fixpoint lookup {V} (l : label) (t : list (label * V)) : option V :=
  match t with
  | [] => None
  | (k, v) :: t' => if lbl_eqb k l then Some v else lookup l t'
  end.

(** [Series.map(remap_ids)]: a value that is no key of [remap_ids], or whose
    image is missing, becomes NaN ([None]). *)
Definition series_map (remap_ids : list (label * option label)) (l : label) : option label :=
  match lookup l remap_ids with
  | Some v => v
  | None => None
  end.

(** [.fillna(lbl_type(-1)).astype(lbl_type)]; the cast leaves the cells of a
    table of one label type as they are. *)
Definition fillna (noise : label) (c : option label) : label :=
  match c with Some l => l | None => noise end.

Definition _remap_lbls_single
    (new_lbls : list label) (ref_centroids : list (label * point))
    (ref_kdt : list point) (xys : list point)
  : result (list (label * option label)) :=
  match ref_centroids with
  | [] => inl IndexError                       (* ref_centroids.index[0] *)
  | _ :: _ =>
      let ref_centroids_ids := map fst ref_centroids in
      let solu_centroids := drop_label lbl_noise (groupby_mean new_lbls xys) in
      let nrst_ref_cl := map (nearest ref_kdt) (map snd solu_centroids) in
      inr (combine (map fst solu_centroids)
                   (map (nth_error ref_centroids_ids) nrst_ref_cl))
  end.

Definition _remap_n_expand
    (pars : list label * list (label * point) * list point * list point)
  : result (list (option label)) :=
  let '(solus_s, ref_centroids, ref_kdt, xys) := pars in
  rbind (_remap_lbls_single solus_s ref_centroids ref_kdt xys)
        (fun remap_ids => inr (map (series_map remap_ids) solus_s)).

(** [pool.map(f, items)]: the results in the order of [items]; a task that
    raises makes the call raise. *)
Definition pool_map {A B} (f : A -> result B) (items : list A) : result (list B) :=
  rmap_list f items.

(** [(n_jobs == -1) or (n_jobs > 1)] *)
Definition multi_core (n_jobs : Z) : bool :=
  ((n_jobs =? -1) || (1 <? n_jobs))%Z.

Definition ns_clusters (solus : DataFrame label) : list nat :=
  map n_unique (cols solus).

(** [ns_clusters[ns_clusters == ns_clusters.max()].iloc[[0]].index[0]] *)
Definition reference_run (solus : DataFrame label) : option nat :=
  first_index (Nat.eqb (list_max_nat (ns_clusters solus))) (ns_clusters solus).

(** [s_ids]: the columns other than [ref], in table order. *)
Definition other_columns (solus : DataFrame label) (ref : nat) : list nat :=
  filter (fun s => negb (Nat.eqb s ref)) (seq 0 (shape1 solus)).

Definition column (solus : DataFrame label) (s : nat) : list label :=
  nth s (cols solus) [].

Definition zeros (solus : DataFrame label) : DataFrame (option label) :=
  mkDF (nrows solus) (map (map (fun _ => Some lbl_zero)) (cols solus)).

Definition remap_sequential
    (solus : DataFrame label) (ref : nat) (ref_centroids : list (label * point))
    (ref_kdt : list point) (xys : list point)
    (remapped_solus : DataFrame (option label))
  : result (DataFrame (option label)) :=
  rfold (fun s acc =>
           rbind (_remap_lbls_single (column solus s) ref_centroids ref_kdt xys)
                 (fun remap_ids =>
                    inr (set_col acc s (map (series_map remap_ids) (column solus s)))))
        (other_columns solus ref) remapped_solus.

Definition remap_parallel
    (solus : DataFrame label) (ref : nat) (ref_centroids : list (label * point))
    (ref_kdt : list point) (xys : list point)
    (remapped_solus : DataFrame (option label))
  : result (DataFrame (option label)) :=
  let s_ids := other_columns solus ref in
  let to_loop_over :=
    map (fun s => (column solus s, ref_centroids, ref_kdt, xys)) s_ids in
  rbind (pool_map _remap_n_expand to_loop_over)
        (fun remapped =>
           match remapped with
           | [] => inl ValueError              (* pandas.concat([], axis=1) *)
           | _ :: _ =>
               inr (fold_left (fun acc sc => set_col acc (fst sc) (snd sc))
                              (combine s_ids remapped) remapped_solus)
           end).

Definition remap_lbls (solus : DataFrame label) (xys : list point) (n_jobs : Z)
  : list event * result (DataFrame label) :=
  match reference_run solus with
  | None => ([], inl IndexError)               (* .iloc[[0]] of an empty selection *)
  | Some ref =>
      match column solus ref with
      | [] => ([], inl IndexError)             (* solus[ref].iloc[0] *)
      | _ :: _ =>
          let ref_centroids :=
            drop_label lbl_noise (groupby_mean (column solus ref) xys) in
          if (0 <? length ref_centroids)%nat then
            let ref_kdt := map snd ref_centroids in
            let remapped_solus := zeros solus in
            ([], rbind
                   (if multi_core n_jobs
                    then remap_parallel solus ref ref_centroids ref_kdt xys remapped_solus
                    else remap_sequential solus ref ref_centroids ref_kdt xys remapped_solus)
                   (fun remapped_solus =>
                      let remapped_solus :=
                        set_col remapped_solus ref (map Some (column solus ref)) in
                      inr (mkDF (nrows remapped_solus)
                                (map (map (fillna lbl_noise)) (cols remapped_solus)))))
          else
            ([UserWarning "No clusters identified."], inr solus)
      end
  end.

(** [collections.Counter(a)]: the tally, keys in order of first insertion. *)
Fixpoint counter_add (l : label) (c : list (label * nat)) : list (label * nat) :=
  match c with
  | [] => [(l, 1%nat)]
  | (k, n) :: c' => if lbl_eqb k l then (k, S n) :: c' else (k, n) :: counter_add l c'
  end.

Definition Counter (a : list label) : list (label * nat) :=
  fold_left (fun c l => counter_add l c) a [].

(** [max(items, key=itemgetter(1))]: the first item of greatest count. *)
Fixpoint max_by_count (best : label * nat) (c : list (label * nat)) : label * nat :=
  match c with
  | [] => best
  | x :: c' => max_by_count (if (snd best <? snd x)%nat then x else best) c'
  end.

(** [Counter.most_common(1)] *)
Definition most_common_1 (c : list (label * nat)) : list (label * nat) :=
  match c with
  | [] => []
  | x :: c' => [max_by_count x c']
  end.

Record Votes : Type := mkVotes {
  lbls : list label;
  pct : list Q
}.

Definition ensemble (solus_relabelled : DataFrame label) : result Votes :=
  rbind (rmap_list (fun a => match most_common_1 (Counter a) with
                             | [] => inl IndexError          (* [][0] *)
                             | x :: _ => inr x
                             end)
                   (values solus_relabelled))
        (fun counts =>
           match counts with
           | [] => inl IndexError        (* counts[:, 0] on an array of shape (0,) *)
           | _ :: _ =>
               let winner := map fst counts in
               let votes :=
                 map (fun c => Q_of_nat (snd c) / Q_of_nat (shape1 solus_relabelled))
                     counts in
               inr (mkVotes winner votes)
           end).

End Labels.

(** ** esda/adbscan.py: one draw and the estimator's [fit] *)

Record ADBSCAN : Type := mkADBSCAN {
  eps : Q;
  min_samples : Z;
  algorithm : string;
  n_jobs : Z;
  pct_exact : Q;
  reps : Z;
  keep_solus : bool;
  pct_thr : Q
}.

(** What [fit] leaves on the estimator.  [votes_] is the table [self.votes];
    its [lbls] column shares its array with [labels_], so the thresholding
    shows in both. *)
Record Fitted : Type := mkFitted {
  votes_ : @Votes string;
  labels_ : list string;
  solus_ : option (DataFrame string);
  solus_relabelled_ : option (DataFrame string)
}.

(** [pandas.Series(values, index=...)]: the lengths have to agree. *)
Definition Series {A B} (vals : list A) (index : list B) : result (list A) :=
  if (length vals =? length index)%nat then inr vals else inl ValueError.

(** [KNeighborsClassifier(n_neighbors=1).fit(X_thin, lbls_thin).predict(X)]:
    every query point takes the label of its nearest training point; an empty
    training set is refused. *)
Definition KNeighborsClassifier_1 (X_thin : list point) (lbls_thin : list string)
    (X : list point) : result (list string) :=
  match X_thin with
  | [] => inl ValueError
  | _ :: _ => inr (map (fun x => nth (nearest X_thin x) lbls_thin EmptyString) X)
  end.

Section Fit.
(** The state of numpy's global random generator. *)
Variable rng : Type.
(** [rids = np.arange(n); np.random.shuffle(rids)] *)
Variable shuffle : rng -> nat -> list nat * rng.
(** [DBSCAN(eps, min_samples, algorithm, n_jobs).fit(X, sample_weight).labels_];
    the density primitive is external and may refuse its input. *)
Variable DBSCAN :
  Q -> Z -> string -> Z -> list point -> option (list Q) -> result (list Z).

(** Computations of [fit]: they read and advance the random state, log
    events, and return or raise. *)
Definition M (A : Type) : Type := rng -> rng * list event * result A.

Definition ret {A} (a : A) : M A := fun g => (g, [], inr a).

Definition bind {A B} (m : M A) (k : A -> M B) : M B :=
  fun g =>
    match m g with
    | (g1, log1, inl e) => (g1, log1, inl e)
    | (g1, log1, inr a) =>
        match k a g1 with
        | (g2, log2, r) => (g2, log1 ++ log2, r)
        end
    end.

Definition emit (ev : event) : M unit := fun g => (g, [ev], inr tt).

Definition raise {A} (e : exn) : M A := fun g => (g, [], inl e).

Definition lift {A} (r : result A) : M A := fun g => (g, [], r).

Definition lift_log {A} (r : list event * result A) : M A :=
  fun g => (g, fst r, snd r).

Fixpoint for_each {S} (l : list nat) (body : nat -> S -> M S) (s : S) : M S :=
  match l with
  | [] => ret s
  | i :: l' => bind (body i s) (for_each l' body)
  end.

Definition _one_draw (n : nat) (X : list point) (sample_weight : option (list Q))
    (pct_exact eps : Q) (min_samples : Z) (algorithm : string) (n_jobs : Z)
  : M (list string) :=
  fun g =>
    let (rids, g') := shuffle g n in
    let rids := py_slice_to (py_int (Q_of_nat n * pct_exact)) rids in
    (g', [],
     rbind (iloc X rids) (fun X_thin =>
     rbind (match sample_weight with
            | None => inr None
            | Some w => rbind (iloc w rids) (fun tw => inr (Some tw))
            end) (fun thin_sample_weight =>
     let min_samples := inject_Z min_samples * pct_exact in
     let min_samples := if Qltb min_samples 1 then 1%Z else Qfloor min_samples in
     rbind (DBSCAN eps min_samples algorithm n_jobs X_thin thin_sample_weight)
           (fun dbs_labels_ =>
     rbind (Series (map str dbs_labels_) X_thin) (fun lbls_thin =>
     KNeighborsClassifier_1 X_thin lbls_thin X))))).

(** [for i in range(self.reps): ... solus.iloc[:, i] = lbls_pred] *)
Definition draws (self : ADBSCAN) (n : nat) (X : list point)
    (sample_weight : option (list Q)) (solus : DataFrame string)
  : M (DataFrame string) :=
  for_each (seq 0 (Z.to_nat (reps self)))
    (fun i solus =>
       bind (emit (Enter "_one_draw")) (fun _ =>
       bind (_one_draw n X sample_weight (pct_exact self) (eps self)
               (min_samples self) (algorithm self) (n_jobs self))
            (fun lbls_pred => ret (set_col solus i lbls_pred))))
    solus.

(** [fit] up to and including [self.votes = ensemble(solus_relabelled)]. *)
Definition fit_consensus (self : ADBSCAN) (X : list point)
    (sample_weight : option (list Q))
  : M (DataFrame string * DataFrame string * @Votes string) :=
  let n := length X in
  if (reps self <? 0)%Z then raise ValueError  (* np.zeros((n, reps)) *)
  else
    let solus :=
      mkDF n (repeat (repeat EmptyString n) (Z.to_nat (reps self))) in
    bind (if multi_core (n_jobs self)
          then
            bind (emit (UserWarning
                    "Multi-core implementation only works on relabelling solutions. Execution of draws is still sequential."))
                 (fun _ => draws self n X sample_weight solus)
          else draws self n X sample_weight solus)
      (fun solus =>
       bind (emit (Enter "remap_lbls")) (fun _ =>
       bind (lift_log (remap_lbls solus X (n_jobs self))) (fun solus_relabelled =>
       bind (emit (Enter "ensemble")) (fun _ =>
       bind (lift (ensemble solus_relabelled)) (fun votes =>
       ret (solus, solus_relabelled, votes)))))).

(** [lbls[self.votes["pct"] < self.pct_thr] = lbl_type(-1)] *)
Definition threshold (noise : string) (thr : Q) (lbls : list string) (pct : list Q)
  : list string :=
  map (fun lp => if Qltb (snd lp) thr then noise else fst lp) (combine lbls pct).

Definition fit (self : ADBSCAN) (X : list point) (sample_weight : option (list Q))
  : M Fitted :=
  bind (fit_consensus self X sample_weight) (fun '(solus, solus_relabelled, votes) =>
    match cols solus with
    | (_ :: _) :: _ =>                             (* type(solus.iloc[0, 0]) is str *)
        let lbls := threshold (str (-1)) (pct_thr self) (lbls votes) (pct votes) in
        ret (mkFitted (mkVotes lbls (pct votes)) lbls
               (if keep_solus self then Some solus else None)
               (if keep_solus self then Some solus_relabelled else None))
    | _ => raise IndexError
    end).

End Fit.

(** ** esda/util.py

    [fdr] with the arithmetic taken exactly; [Binary64.fdr] is the same code
    on binary64 numbers. *)

Fixpoint insert_Q (x : Q) (l : list Q) : list Q :=
  match l with
  | [] => [x]
  | y :: l' => if Qle_bool x y then x :: l else y :: insert_Q x l'
  end.

(** [np.sort]: ascending. *)
Definition np_sort (l : list Q) : list Q := fold_right insert_Q [] l.

(** [np.where(search)[0]]: the positions that hold [True]. *)
Definition np_where (search : list bool) : list nat :=
  map fst (filter snd (combine (seq 0 (length search)) search)).

Definition fdr (pvalues : list Q) (alpha : Q) : result Q :=
  let n := length pvalues in
  let p_sort := rev (np_sort pvalues) in
  let index := rev (seq 1 n) in                          (* np.arange(n, 0, -1) *)
  let p_fdr := map (fun i => Q_of_nat i * alpha / Q_of_nat n) index in
  let search := map (fun pq => Qltb (fst pq) (snd pq)) (combine p_sort p_fdr) in
  let sig_all := np_where search in
  match sig_all with
  | [] => if (n =? 0)%nat then inl ZeroDivisionError else inr (alpha / Q_of_nat n)
  | i :: _ => inr (nth i p_fdr 0)
  end.


(** ** Notions used to state the properties *)

Section Stated.
Context {label : Type} {L : LabelRep label}.

(** The number of clusters of a run: its distinct labels other than noise. *)
Definition n_clusters (x : list label) : nat :=
  length (unique (filter (fun l => negb (lbl_eqb l lbl_noise)) x)).

(** The Reference Run as the specification words it: the first column whose
    count of distinct non-noise labels is the greatest. *)
Definition spec_reference_run (solus : DataFrame label) : option nat :=
  first_index (Nat.eqb (list_max_nat (map n_clusters (cols solus))))
              (map n_clusters (cols solus)).

(** A tally over the keys [ks]: each key with its number of occurrences. *)
Definition tally (a : list label) (ks : list label) : list (label * nat) :=
  map (fun k => (k, count_occ lbl_eq_dec a k)) ks.

(** The remap table built for column [c] against the reference centroids. *)
Definition remap_table (ref_centroids : list (label * point)) (xys : list point)
    (c : list label) : list (label * option label) :=
  let solu_centroids := drop_label lbl_noise (groupby_mean c xys) in
  combine (map fst solu_centroids)
          (map (nth_error (map fst ref_centroids))
               (map (nearest (map snd ref_centroids)) (map snd solu_centroids))).

(** Column [c] with its labels rewritten into the reference label space. *)
Definition aligned_column (ref_centroids : list (label * point)) (xys : list point)
    (c : list label) : list label :=
  map (fun l => fillna lbl_noise (series_map (remap_table ref_centroids xys c) l)) c.

(** The aligned table: the reference column as it is, every other column
    rewritten. *)
Definition aligned_cols (ref : nat) (ref_centroids : list (label * point))
    (xys : list point) (cs : list (list label)) : list (list label) :=
  map (fun sc => if (fst sc =? ref)%nat then snd sc
                 else aligned_column ref_centroids xys (snd sc))
      (combine (seq 0 (length cs)) cs).

(** The columns the loop over [s_ids] leaves in the result holder. *)
Definition remapped_column (solus : DataFrame label) (rc : list (label * point))
    (xys : list point) (s : nat) : list (option label) :=
  map (series_map (remap_table rc xys (column solus s))) (column solus s).

(** The keys of a centroid table without noise. *)
Definition cluster_keys (c : list label) : list label :=
  filter (fun l => negb (lbl_eqb l lbl_noise)) (sort_labels (unique c)).

(** The label a cell of column [c] is rewritten to. *)
Definition relabel (rc : list (label * point)) (xys : list point) (c : list label)
    (l : label) : label :=
  fillna lbl_noise (series_map (remap_table rc xys c) l).

(** The sum of [h] over the rows whose label satisfies [f]. *)
Definition sum_where (f : label -> bool) (h : point -> Q)
    (pairs : list (label * point)) : Q :=
  sumQ (map (fun lp => h (snd lp)) (filter (fun lp => f (fst lp)) pairs)).

End Stated.

(** The sample of a full draw: the points in shuffled order. *)
Definition shuffled (X : list point) (rids : list nat) : list point :=
  map (fun i => nth i X (0, 0)) rids.

Definition shuffled_weights (sw : option (list Q)) (rids : list nat)
  : option (list Q) :=
  option_map (fun w => map (fun i => nth i w 0) rids) sw.

(** The string form of an integer label. *)
Definition is_cast (s : string) : Prop := exists z : Z, s = str z.

(** [fit] failed without entering a draw, the alignment or the vote. *)
Definition failed_before_work {S A} (out : S * list event * result A) : Prop :=
  (exists e, snd out = inl e) /\ forallb (fun ev => negb (is_enter ev)) (snd (fst out)) = true.

(** ** Collaborators for the worked examples *)

(** A scripted random state: the permutations the coming shuffles produce. *)
Definition script : Type := list (list nat).

Definition scripted_shuffle (g : script) (n : nat) : list nat * script :=
  match g with
  | p :: g' => (p, g')
  | [] => (seq 0 n, [])
  end.

(** DBSCAN as scikit-learn computes it for the Euclidean metric: the
    eps-neighbourhoods, the core samples, and the depth-first labelling of
    sklearn.cluster._dbscan_inner. *)
Definition neighborhoods (eps : Q) (X : list point) : list (list nat) :=
  map (fun p =>
         map fst (filter (fun jq => Qle_bool (dist2 p (snd jq)) (eps * eps))
                         (combine (seq 0 (length X)) X)))
      X.

Definition core_samples (min_samples : Z) (w : list Q) (nbs : list (list nat))
  : list bool :=
  map (fun nb => Qle_bool (inject_Z min_samples) (sumQ (map (fun j => nth j w 1) nb)))
      nbs.

Fixpoint dbscan_search (fuel : nat) (nbs : list (list nat)) (core : list bool)
    (label_num : Z) (i : nat) (stack : list nat) (labels : list Z) : list Z :=
  match fuel with
  | O => labels
  | S fuel' =>
      let '(labels, stack) :=
        if (nth i labels 0 =? -1)%Z then
          let labels := update i label_num labels in
          if nth i core false then
            (labels,
             fold_left (fun st v => if (nth v labels 0 =? -1)%Z then v :: st else st)
                       (nth i nbs []) stack)
          else (labels, stack)
        else (labels, stack) in
      match stack with
      | [] => labels
      | j :: stack' => dbscan_search fuel' nbs core label_num j stack' labels
      end
  end.

Fixpoint dbscan_inner (fuel : nat) (nbs : list (list nat)) (core : list bool)
    (todo : list nat) (label_num : Z) (labels : list Z) : list Z :=
  match todo with
  | [] => labels
  | i :: todo' =>
      if negb (nth i labels 0 =? -1)%Z || negb (nth i core false)
      then dbscan_inner fuel nbs core todo' label_num labels
      else dbscan_inner fuel nbs core todo' (label_num + 1)%Z
             (dbscan_search fuel nbs core label_num i [] labels)
  end.

(** The stack of one search holds at most one entry per neighbour of a
    labelled core sample, so [n * n + n + 1] steps exhaust it. *)
Definition sklearn_DBSCAN (eps : Q) (min_samples : Z) (algorithm : string)
    (n_jobs : Z) (X : list point) (sample_weight : option (list Q))
  : result (list Z) :=
  match X with
  | [] => inl ValueError                  (* at least one sample is required *)
  | _ :: _ =>
      let n := length X in
      let w := match sample_weight with Some w => w | None => repeat 1 n end in
      let nbs := neighborhoods eps X in
      let core := core_samples min_samples w nbs in
      inr (dbscan_inner (n * n + n + 1) nbs core (seq 0 n) 0%Z (repeat (-1)%Z n))
  end.

(** Four points: two within [eps = 1] of each other, two isolated. *)
Definition four_points : list point := [(0, 0); (1 # 10, 0); (10, 10); (20, 20)].

(** Half-samples of [four_points]: the first draw takes points 0 and 2 (no
    cluster), the next two take points 0 and 1 (one cluster). *)
Definition three_draws : script :=
  [[0; 2; 1; 3]; [0; 1; 2; 3]; [0; 1; 2; 3]]%nat.

Definition two_far_points : list point := [(0, 0); (10, 10)].

From Stdlib Require DecimalFacts DecimalPos DecimalN Nnat.

(** ** esda/adbscan.py: the names of the columns of [solus] *)

(** [s.zfill(width)]: zeros on the left up to [width]; a leading sign stays
    in front. *)
Definition zfill (width : nat) (s : string) : string :=
  let zeros := string_of_list_ascii (repeat "0"%char (width - String.length s)) in
  match s with
  | String c s' =>
      if (Ascii.eqb c "+" || Ascii.eqb c "-")%bool
      then String c (zeros ++ s')%string
      else (zeros ++ s)%string
  | EmptyString => zeros
  end.

(** [[f"rep-{str(i).zfill(zfiller)}" for i in range(self.reps)]], with
    [zfiller = len(str(self.reps))]. *)
Definition rep_names (reps : Z) : list string :=
  let zfiller := String.length (str reps) in
  map (fun i => ("rep-" ++ zfill zfiller (str (Z.of_nat i)))%string)
      (seq 0 (Z.to_nat reps)).

(** [int(s)] for a string of decimal digits. *)
Definition int_of_digits (s : string) : option nat :=
  option_map (fun d => N.to_nat (N.of_uint d)) (NilZero.uint_of_string s).

(** ** esda/adbscan.py: the pool of workers and the cluster boundaries *)

(** [mp.Pool(processes)]: fewer than one process is refused.  A pool is
    known by its number of workers. *)
Definition Pool (processes : Z) : result Z :=
  if (processes <? 1)%Z then inl ValueError else inr processes.

(** [mp.cpu_count()] is at least one. *)
Definition _setup_pool (cpu_count : positive) (n_jobs : Z) : result Z :=
  if (n_jobs =? -1)%Z then Pool (Z.pos cpu_count) else Pool n_jobs.

(** What [get_cluster_boundary] can raise: the exceptions above, and the
    KeyError of a label-based lookup [xys.loc[ids]] that misses a row. *)
Inductive boundary_exn : Type :=
| KeyError
| Raised (e : exn).

Definition ebind {E A B} (m : E + A) (k : A -> E + B) : E + B :=
  match m with inl e => inl e | inr a => k a end.

Fixpoint emap_list {E A B} (f : A -> E + B) (l : list A) : E + list B :=
  match l with
  | [] => inr []
  | a :: l' => ebind (f a) (fun b => ebind (emap_list f l') (fun bs => inr (b :: bs)))
  end.

(** [xys.loc[ids, xy]]: the rows with the index entries [ids], in the order
    of [ids]; the index is the default one, [0 .. len(xys) - 1]. *)
Definition loc {A} (xys : list A) (ids : list nat) : boundary_exn + list A :=
  emap_list (fun i => match nth_error xys i with
                      | Some p => inr p
                      | None => inl KeyError
                      end) ids.

(** What the call returns: a GeoSeries indexed on the cluster labels, or,
    without geopandas, the plain list of the polygons. *)
Inductive Boundaries (label polygon : Type) : Type :=
| GeoSeries (data : list polygon) (index : list label)
| polygon_list (data : list polygon).

Arguments GeoSeries {label polygon} data index.
Arguments polygon_list {label polygon} data.

Definition geometries {label polygon} (b : Boundaries label polygon) : list polygon :=
  match b with GeoSeries data _ => data | polygon_list data => data end.

Section Boundary.
Context {label : Type} {L : LabelRep label}.
Variable polygon : Type.
(** [libpysal.cg.alpha_shapes.alpha_shape_auto(points, step=step)] *)
Variable alpha_shape_auto : list point -> Z -> boundary_exn + polygon.
Variable cpu_count : positive.
(** Whether [from geopandas import GeoSeries] succeeds. *)
Variable geopandas : bool.

Definition _asa (pts_s : list point * Z) : boundary_exn + polygon :=
  alpha_shape_auto (fst pts_s) (snd pts_s).

(** [labels[labels != noise].index] *)
Definition ids_in_cluster (labels : list label) : list nat :=
  map fst (filter (fun il => negb (lbl_eqb (snd il) lbl_noise))
                  (combine (seq 0 (length labels)) labels)).

(** [g.groups]: for every key, in sorted order, the index entries of its
    rows. *)
Definition groups (labels : list label) (ids : list nat) : list (label * list nat) :=
  map (fun sub => (sub, filter (fun i => lbl_eqb (nth i labels lbl_noise) sub) ids))
      (sort_labels (unique (map (fun i => nth i labels lbl_noise) ids))).

Definition get_cluster_boundary (labels : list label) (xys : list point)
    (n_jobs : Z) (step : Z) : boundary_exn + Boundaries label polygon :=
  match labels with
  | [] => inl (Raised IndexError)                     (* labels.iloc[0] *)
  | _ :: _ =>
      let ids := ids_in_cluster labels in
      ebind (loc xys ids) (fun _ =>
      let g := groups labels ids in
      ebind (emap_list (fun sub => ebind (loc xys (snd sub))
                                         (fun pts => inr (pts, step))) g)
            (fun chunked_pts_step =>
      let cluster_lbls := map fst g in
      ebind (if (n_jobs =? 1)%Z
             then emap_list _asa chunked_pts_step
             else
               match _setup_pool cpu_count n_jobs with
               | inl e => inl (Raised e)
               | inr _ => emap_list _asa chunked_pts_step   (* pool.map *)
               end)
            (fun polys =>
               inr (if geopandas then GeoSeries polys cluster_lbls
                    else polygon_list polys))))
  end.

End Boundary.

(** ** Further notions used to state the properties *)

(** How many entries of [l] lie strictly below [c]. *)
Definition count_below (c : Q) (l : list Q) : nat :=
  length (filter (fun p => Qltb p c) l).

(** The estimator with another [n_jobs]. *)
Definition with_n_jobs (self : ADBSCAN) (nj : Z) : ADBSCAN :=
  mkADBSCAN (eps self) (min_samples self) (algorithm self) nj (pct_exact self)
            (reps self) (keep_solus self) (pct_thr self).

(** The labels of a Series other than noise, with their points. *)
Definition clustered {label} {L : LabelRep label}
    (labels : list label) (xys : list point) : list point :=
  map snd (filter (fun lp => negb (lbl_eqb (fst lp) lbl_noise)) (combine labels xys)).

(** The warning [fit] gives when more than one job is asked for. *)
Definition multi_core_warning : string :=
  "Multi-core implementation only works on relabelling solutions. Execution of draws is still sequential.".

(** The random state after [k] shuffles of [n] indices. *)
Definition after_shuffles {rng} (shuffle : rng -> nat -> list nat * rng)
    (n k : nat) (g : rng) : rng :=
  Nat.iter k (fun g => snd (shuffle g n)) g.

(** The positions, counted from [a], of the entries of [l] that satisfy [f]. *)
Definition positions_from {A} (a : nat) (f : A -> bool) (l : list A) : list nat :=
  map fst (filter (fun il => f (snd il)) (combine (seq a (length l)) l)).

(** The cluster labels of a Series: its distinct labels other than noise, in
    sorted order. *)
Definition boundary_keys {label} {L : LabelRep label} (labels : list label)
  : list label :=
  sort_labels (unique (filter (fun l => negb (lbl_eqb l lbl_noise)) labels)).

(** A stand-in for the alpha shape in the worked examples: the polygon of a
    cluster is known by the points it was computed from. *)
Definition shape_of_points (pts : list point) (step : Z)
  : boundary_exn + list point :=
  inr pts.

(** Labels for [four_points]: two points of cluster 0, one of cluster 1, one
    noise point. *)
Definition four_labels : list Z := [0; -1; 1; 0]%Z.

From Stdlib Require Floats DecimalZ.

(** ** The alignment with the arithmetic left open

    [remap_lbls] again, line by line, for rows [pt] of any number type, with
    the two computations whose result depends on the arithmetic as
    parameters: the mean of a group of rows and the query of the spatial
    index.  With rational rows, [mean] and [nearest] it is the alignment of
    the first part; with binary64 rows, [Binary64.mean] and
    [Binary64.nearest] it is the alignment as the machine computes it. *)
Module Machine.
Section Alignment.
Context {label : Type} {L : LabelRep label}.
(** A row of [xys[xy]]. *)
Variable pt : Type.
(** [xys.mean()] over the rows of one group *)
Variable group_mean : list pt -> pt.
(** [ref_kdt.query(p)[1]] for the tree built over the reference centroids *)
Variable query : list pt -> pt -> nat.

Definition select (lbls : list label) (xys : list pt) (l : label) : list pt :=
  map snd (filter (fun lp => lbl_eqb (fst lp) l) (combine lbls xys)).

Definition groupby_mean (lbls : list label) (xys : list pt) : list (label * pt) :=
  map (fun l => (l, group_mean (select lbls xys l))) (sort_labels (unique lbls)).

Definition _remap_lbls_single
    (new_lbls : list label) (ref_centroids : list (label * pt))
    (ref_kdt : list pt) (xys : list pt)
  : result (list (label * option label)) :=
  match ref_centroids with
  | [] => inl IndexError                       (* ref_centroids.index[0] *)
  | _ :: _ =>
      let ref_centroids_ids := map fst ref_centroids in
      let solu_centroids := drop_label lbl_noise (groupby_mean new_lbls xys) in
      let nrst_ref_cl := map (query ref_kdt) (map snd solu_centroids) in
      inr (combine (map fst solu_centroids)
                   (map (nth_error ref_centroids_ids) nrst_ref_cl))
  end.

Definition _remap_n_expand
    (pars : list label * list (label * pt) * list pt * list pt)
  : result (list (option label)) :=
  let '(solus_s, ref_centroids, ref_kdt, xys) := pars in
  rbind (_remap_lbls_single solus_s ref_centroids ref_kdt xys)
        (fun remap_ids => inr (map (series_map remap_ids) solus_s)).

Definition remap_sequential
    (solus : DataFrame label) (ref : nat) (ref_centroids : list (label * pt))
    (ref_kdt : list pt) (xys : list pt)
    (remapped_solus : DataFrame (option label))
  : result (DataFrame (option label)) :=
  rfold (fun s acc =>
           rbind (_remap_lbls_single (column solus s) ref_centroids ref_kdt xys)
                 (fun remap_ids =>
                    inr (set_col acc s (map (series_map remap_ids) (column solus s)))))
        (other_columns solus ref) remapped_solus.

Definition remap_parallel
    (solus : DataFrame label) (ref : nat) (ref_centroids : list (label * pt))
    (ref_kdt : list pt) (xys : list pt)
    (remapped_solus : DataFrame (option label))
  : result (DataFrame (option label)) :=
  let s_ids := other_columns solus ref in
  let to_loop_over :=
    map (fun s => (column solus s, ref_centroids, ref_kdt, xys)) s_ids in
  rbind (pool_map _remap_n_expand to_loop_over)
        (fun remapped =>
           match remapped with
           | [] => inl ValueError              (* pandas.concat([], axis=1) *)
           | _ :: _ =>
               inr (fold_left (fun acc sc => set_col acc (fst sc) (snd sc))
                              (combine s_ids remapped) remapped_solus)
           end).

Definition remap_lbls (solus : DataFrame label) (xys : list pt) (n_jobs : Z)
  : list event * result (DataFrame label) :=
  match reference_run solus with
  | None => ([], inl IndexError)               (* .iloc[[0]] of an empty selection *)
  | Some ref =>
      match column solus ref with
      | [] => ([], inl IndexError)             (* solus[ref].iloc[0] *)
      | _ :: _ =>
          let ref_centroids :=
            drop_label lbl_noise (groupby_mean (column solus ref) xys) in
          if (0 <? length ref_centroids)%nat then
            let ref_kdt := map snd ref_centroids in
            let remapped_solus := zeros solus in
            ([], rbind
                   (if multi_core n_jobs
                    then remap_parallel solus ref ref_centroids ref_kdt xys remapped_solus
                    else remap_sequential solus ref ref_centroids ref_kdt xys remapped_solus)
                   (fun remapped_solus =>
                      let remapped_solus :=
                        set_col remapped_solus ref (map Some (column solus ref)) in
                      inr (mkDF (nrows remapped_solus)
                                (map (map (fillna lbl_noise)) (cols remapped_solus)))))
          else
            ([UserWarning "No clusters identified."], inr solus)
      end
  end.

End Alignment.
End Machine.

(** ** Binary64 numbers

    Python's [float] and numpy's [float64] are the kernel's binary64 numbers:
    every operation rounds to the nearest, ties to even, and the comparisons
    are false on NaN. *)
Module Binary64.
Import Floats.
#[local] Open Scope float_scope.

(** [float(k)] for a Python int, and the cast of a numpy [int64] to
    [float64]. *)
Definition float_of_nat (k : nat) : float := of_uint63 (Uint63.of_nat k).

(** The rational a finite binary64 number stands for (0 for the others). *)
Definition value (x : float) : Q :=
  match Prim2SF x with
  | S754_finite s m e =>
      ((if s then - inject_Z (Z.pos m) else inject_Z (Z.pos m)) * Qpower 2 e)%Q
  | _ => 0%Q
  end.

(** *** esda/util.py *)

Fixpoint insert (x : float) (l : list float) : list float :=
  match l with
  | [] => [x]
  | y :: l' => if (x <=? y) || is_nan y then x :: l else y :: insert x l'
  end.

(** [np.sort]: ascending, the NaNs last. *)
Definition np_sort (l : list float) : list float := fold_right insert [] l.

(** The order [np.sort] leaves: ascending, the NaNs last. *)
Definition sort_le (a b : float) : Prop :=
  (a <=? b) = true \/ is_nan b = true.

Definition ascending (l : list float) : Prop := StronglySorted sort_le l.

Definition fdr (pvalues : list float) (alpha : float) : result float :=
  let n := length pvalues in
  let p_sort := rev (np_sort pvalues) in
  let index := rev (seq 1 n) in                          (* np.arange(n, 0, -1) *)
  let p_fdr := map (fun i => float_of_nat i * alpha / float_of_nat n) index in
  let search := map (fun pq => fst pq <? snd pq) (combine p_sort p_fdr) in
  let sig_all := np_where search in
  match sig_all with
  | [] => if (n =? 0)%nat then inl ZeroDivisionError else inr (alpha / float_of_nat n)
  | i :: _ => inr (nth i p_fdr nan)
  end.

(** *** The collaborators of the alignment *)

Definition point : Type := (float * float)%type.

Definition point_value (p : point) : (Q * Q)%type := (value (fst p), value (snd p)).

(** [ndarray.sum()] down a column: the entries added one after the other. *)
Definition sum (l : list float) : float := fold_left add l 0.

(** [DataFrame.mean()] over the rows of one group: the sum of each column
    divided by the number of rows. *)
Definition mean (pts : list point) : point :=
  (sum (map fst pts) / float_of_nat (length pts),
   sum (map snd pts) / float_of_nat (length pts)).

Definition dist2 (p q : point) : float :=
  (fst p - fst q) * (fst p - fst q) + (snd p - snd q) * (snd p - snd q).

(** A nearest-neighbour search over the reference points, by their squared
    distances to [q]; where two distances are equal it keeps the lower
    index. *)
Fixpoint nearest (cs : list point) (q : point) : nat :=
  match cs with
  | [] => 0%nat
  | c :: cs' =>
      match cs' with
      | [] => 0%nat
      | _ :: _ =>
          let j := nearest cs' q in
          if dist2 q c <=? dist2 q (nth j cs' c) then 0%nat else S j
      end
  end.

(** Four points with first coordinates [2^52], [2^52 + 2], [2^52],
    [2^52 + 3], where binary64 numbers are one apart and the sum of two of
    them is rounded to an even number. *)
Definition wide_points : list point :=
  [(4503599627370496, 1.75); (4503599627370498, -0.25);
   (4503599627370496, 0); (4503599627370499, 3)].

(** The five points of the docstring of [remap_lbls]; [0.1] and [0.2] are the
    binary64 numbers nearest to one tenth and to two tenths. *)
Definition docstring_points : list point :=
  [(0, 0); (0x1.999999999999ap-4, 0x1.999999999999ap-3); (4, 5); (6, 7); (5, 5)].

(** [0.05], the binary64 number nearest to five hundredths. *)
Definition five_hundredths : float := 0x1.999999999999ap-5.

End Binary64.

(** ** Further notions used to state the properties *)

Section ExactNearest.
Context {label : Type} {L : LabelRep label}.
Variable pt : Type.
Variable group_mean : list pt -> pt.
Variable query : list pt -> pt -> nat.
(** The rational coordinates a row stands for. *)
Variable value : pt -> point.

(** On the clusters of the run [c] the machine finds the reference cluster
    that exact arithmetic finds: for every cluster of [c], the index the
    tree returns for its computed centroid, among the computed centroids of
    the reference run [ref_col], is the index of the reference centroid
    nearest to the cluster's centroid when both are means of the rational
    coordinates, the lowest index where two are equally near. *)
Definition exact_nearest (ref_col c : list label) (xys : list pt) : Prop :=
  forall l, In l c -> l <> lbl_noise ->
    query (map snd (drop_label lbl_noise (Machine.groupby_mean group_mean ref_col xys)))
          (group_mean (Machine.select c xys l))
    = nearest (map snd (drop_label lbl_noise (groupby_mean ref_col (map value xys))))
              (mean (select c (map value xys) l)).

End ExactNearest.

(** A run whose clusters are numbered from zero without a gap, as the
    density primitive numbers them: its labels other than noise are the
    strings of [0], ..., [k - 1] for some [k]. *)
Definition numbered (c : list string) : Prop :=
  exists k : nat,
    forall s, s <> str (-1) ->
      (In s c <-> exists i, (i < k)%nat /\ s = str (Z.of_nat i)).

(** Labels the density primitive may give a sample: [-1] or a cluster number,
    every number below a cluster number in use, and coincident points
    labelled alike. *)
Definition dbscan_labels (X_thin : list point) (lab : list Z) : Prop :=
  (forall z, In z lab -> (-1 <= z)%Z /\
                         forall z', (0 <= z' < z)%Z -> In z' lab) /\
  (forall j k, (j < length lab)%nat -> (k < length lab)%nat ->
     dist2 (nth j X_thin (0, 0)) (nth k X_thin (0, 0)) == 0 ->
     nth j lab 0%Z = nth k lab 0%Z).

(** * Properties *)

Unset Implicit Arguments.

(** ** Comparison helpers *)

Lemma Qltb_lt (a b : Q) : Qltb a b = true <-> a < b.
Proof.
  unfold Qltb. rewrite Qlt_alt. destruct (a ?= b); split; congruence.
Qed.

Lemma Qltb_nlt (a b : Q) : Qltb a b = false <-> ~ a < b.
Proof.
  rewrite <- Qltb_lt. destruct (Qltb a b); split; congruence.
Qed.

Lemma Q_of_nat_pos (n : nat) : (0 < n)%nat -> 0 < Q_of_nat n.
Proof.
  intros Hn. unfold Q_of_nat, Qlt. simpl. lia.
Qed.

(** ** [fdr]: the cut-off of the largest significant rank *)

Lemma insert_Q_perm (x : Q) (l : list Q) : Permutation (insert_Q x l) (x :: l).
Proof.
  induction l as [|y l IH]; simpl.
  - apply Permutation_refl.
  - destruct (Qle_bool x y).
    + apply Permutation_refl.
    + eapply perm_trans; [apply perm_skip, IH | apply perm_swap].
Qed.

Lemma np_sort_perm (l : list Q) : Permutation (np_sort l) l.
Proof.
  induction l as [|x l IH]; simpl.
  - constructor.
  - eapply perm_trans; [apply insert_Q_perm | apply perm_skip, IH].
Qed.

Lemma insert_Q_sorted (x : Q) (l : list Q) :
  StronglySorted Qle l -> StronglySorted Qle (insert_Q x l).
Proof.
  induction l as [|y l IH]; intros Hs; simpl.
  - repeat constructor.
  - inversion Hs as [|? ? Hl Hy]; subst.
    destruct (Qle_bool x y) eqn:E.
    + apply Qle_bool_iff in E. constructor; [assumption|].
      constructor; [assumption|].
      eapply Forall_impl; [|exact Hy]. intros z Hz. simpl in Hz. lra.
    + assert (Hyx : y <= x).
      { destruct (Qlt_le_dec y x) as [H|H]; [lra|].
        apply Qle_bool_iff in H. congruence. }
      constructor; [apply IH; assumption|].
      eapply Permutation_Forall; [apply Permutation_sym, insert_Q_perm|].
      constructor; assumption.
Qed.

Lemma np_sort_sorted (l : list Q) : StronglySorted Qle (np_sort l).
Proof.
  induction l as [|x l IH]; simpl.
  - constructor.
  - apply insert_Q_sorted, IH.
Qed.

(** The head of the positions [combine (seq a _) b] keeps is the first
    [true] of [b]. *)
Lemma where_from_spec (b : list bool) (a : nat) :
  match map fst (filter snd (combine (seq a (length b)) b)) with
  | [] => forall j, (j < length b)%nat -> nth j b false = false
  | i :: _ => (a <= i)%nat /\ (i - a < length b)%nat /\ nth (i - a) b false = true /\
              forall j, (j < i - a)%nat -> nth j b false = false
  end.
Proof.
  revert a. induction b as [|x b IH]; intros a; simpl.
  - intros j Hj. lia.
  - destruct x; simpl.
    + replace (a - a)%nat with 0%nat by lia. repeat split; try lia.
    + specialize (IH (S a)).
      destruct (map fst (filter snd (combine (seq (S a) (length b)) b))) as [|i r].
      * intros [|j] Hj; [reflexivity | apply IH; lia].
      * destruct IH as (H1 & H2 & H3 & H4).
        replace (i - a)%nat with (S (i - S a)) by lia.
        repeat split; try lia; try assumption.
        intros [|j] Hj; [reflexivity | apply H4; lia].
Qed.

Lemma np_where_spec (b : list bool) :
  match np_where b with
  | [] => forall j, (j < length b)%nat -> nth j b false = false
  | i :: _ => (i < length b)%nat /\ nth i b false = true /\
              forall j, (j < i)%nat -> nth j b false = false
  end.
Proof.
  unfold np_where. pose proof (where_from_spec b 0) as H.
  destruct (map fst (filter snd (combine (seq 0 (length b)) b))) as [|i r].
  - exact H.
  - rewrite Nat.sub_0_r in H. tauto.
Qed.

Lemma nth_map_in {A B} (f : A -> B) (l : list A) (j : nat) (d : B) (d' : A) :
  (j < length l)%nat -> nth j (map f l) d = f (nth j l d').
Proof.
  revert j. induction l as [|a l IH]; intros [|j] Hj; simpl in *; try lia.
  - reflexivity.
  - apply IH. lia.
Qed.

Lemma fdr_search_nth (s : list Q) (cut : nat -> Q) (j : nat) :
  let n := length s in
  (j < n)%nat ->
  nth j (map (fun pq : Q * Q => Qltb (fst pq) (snd pq))
             (combine (rev s) (map cut (rev (seq 1 n))))) false
  = Qltb (nth (n - 1 - j) s 0) (cut (n - j)%nat).
Proof.
  intros n Hj.
  assert (Hlen : length (rev s) = length (map cut (rev (seq 1 n)))).
  { rewrite length_map, !length_rev, length_seq. reflexivity. }
  rewrite nth_map_in with (d' := (0, cut 0%nat))
    by (rewrite length_combine, <- Hlen, Nat.min_id, length_rev; exact Hj).
  rewrite combine_nth by exact Hlen. simpl.
  rewrite rev_nth by exact Hj.
  rewrite nth_map_in with (d' := 0%nat) by (rewrite length_rev, length_seq; exact Hj).
  rewrite rev_nth by (rewrite length_seq; exact Hj).
  rewrite length_seq, seq_nth by (fold n; lia).
  fold n. replace (n - S j)%nat with (n - 1 - j)%nat by lia.
  replace (1 + (n - 1 - j))%nat with (n - j)%nat by lia. reflexivity.
Qed.

Lemma fdr_cut_nth (n : nat) (cut : nat -> Q) (j : nat) :
  (j < n)%nat -> nth j (map cut (rev (seq 1 n))) 0 = cut (n - j)%nat.
Proof.
  intros Hj.
  rewrite nth_map_in with (d' := 0%nat) by (rewrite length_rev, length_seq; exact Hj).
  rewrite rev_nth by (rewrite length_seq; exact Hj).
  rewrite length_seq, seq_nth by lia. f_equal. lia.
Qed.

(** ** [fdr] on binary64 numbers *)

Section FloatOrder.
Import Floats.

(** The comparison of binary64 numbers is a total preorder away from NaN;
    the facts are read off the specification of the primitive comparison. *)
Lemma SFleb_finite_trans (s : bool) (m1 m2 m3 : positive) (e1 e2 e3 : Z) :
  SFleb (S754_finite s m1 e1) (S754_finite s m2 e2) = true ->
  SFleb (S754_finite s m2 e2) (S754_finite s m3 e3) = true ->
  SFleb (S754_finite s m1 e1) (S754_finite s m3 e3) = true.
Proof.
  unfold SFleb, SFcompare.
  change (PosDef.Pos.compare_cont Eq m1 m2) with (Pos.compare m1 m2).
  change (PosDef.Pos.compare_cont Eq m2 m3) with (Pos.compare m2 m3).
  change (PosDef.Pos.compare_cont Eq m1 m3) with (Pos.compare m1 m3).
  destruct s;
    destruct (Z.compare_spec e1 e2), (Z.compare_spec e2 e3), (Z.compare_spec e1 e3);
    destruct (Pos.compare_spec m1 m2), (Pos.compare_spec m2 m3), (Pos.compare_spec m1 m3);
    simpl; intros; try reflexivity; try discriminate; try lia.
Qed.

Lemma SFleb_trans (a b c : spec_float) :
  SFleb a b = true -> SFleb b c = true -> SFleb a c = true.
Proof.
  destruct a as [sa|sa| |sa ma ea], b as [sb|sb| |sb mb eb], c as [sc|sc| |sc mc ec];
    try (unfold SFleb, SFcompare; simpl; discriminate);
    try (unfold SFleb, SFcompare; destruct sa, sb, sc; simpl; intros;
         (reflexivity || discriminate)).
  destruct sa, sb, sc;
    try (unfold SFleb, SFcompare; simpl; intros; (reflexivity || discriminate)).
  all: try (unfold SFleb at 3; simpl; reflexivity).
  all: try (intros H; unfold SFleb in H; simpl in H; discriminate).
  all: try (intros _ H; unfold SFleb in H; simpl in H; discriminate).
  all: apply SFleb_finite_trans.
Qed.

Lemma SFleb_total (a b : spec_float) :
  a <> S754_nan -> b <> S754_nan -> SFleb a b = false -> SFleb b a = true.
Proof.
  destruct a as [sa|sa| |sa ma ea], b as [sb|sb| |sb mb eb]; try congruence;
    intros _ _; unfold SFleb, SFcompare;
    try change (PosDef.Pos.compare_cont Eq ma mb) with (Pos.compare ma mb);
    try change (PosDef.Pos.compare_cont Eq mb ma) with (Pos.compare mb ma);
    try destruct sa; try destruct sb; simpl;
    try (intros H; first [reflexivity | discriminate H]).
  all: destruct (Z.compare_spec ea eb), (Z.compare_spec eb ea);
      destruct (Pos.compare_spec ma mb), (Pos.compare_spec mb ma);
      simpl; intros Hx; try reflexivity; try discriminate Hx; try lia.
Qed.

Lemma float_is_nan_spec (x : float) : is_nan x = true <-> Prim2SF x = S754_nan.
Proof.
  unfold is_nan. rewrite eqb_spec. unfold SFeqb, SFcompare.
  destruct (Prim2SF x) as [s|s| |s m e]; simpl.
  - split; discriminate.
  - destruct s; split; discriminate.
  - split; reflexivity.
  - change (PosDef.Pos.compare_cont Eq m m) with (Pos.compare m m).
    rewrite Z.compare_refl, Pos.compare_refl. destruct s; split; discriminate.
Qed.

Lemma float_leb_trans (a b c : float) :
  (a <=? b)%float = true -> (b <=? c)%float = true -> (a <=? c)%float = true.
Proof.
  rewrite !leb_spec. apply SFleb_trans.
Qed.

Lemma float_leb_total (a b : float) :
  is_nan a = false -> is_nan b = false ->
  (a <=? b)%float = false -> (b <=? a)%float = true.
Proof.
  intros Ha Hb. rewrite !leb_spec. apply SFleb_total.
  - intros E. apply float_is_nan_spec in E. congruence.
  - intros E. apply float_is_nan_spec in E. congruence.
Qed.

Lemma float_leb_nan (a b : float) : is_nan a = true -> (a <=? b)%float = false.
Proof.
  intros Ha. apply float_is_nan_spec in Ha. rewrite leb_spec, Ha. reflexivity.
Qed.

Lemma sort_le_trans (a b c : float) :
  Binary64.sort_le a b -> Binary64.sort_le b c -> Binary64.sort_le a c.
Proof.
  unfold Binary64.sort_le. intros Hab [Hbc|Hc]; [|right; exact Hc].
  destruct Hab as [Hab|Hb].
  - left. eapply float_leb_trans; eassumption.
  - rewrite (float_leb_nan b c Hb) in Hbc. discriminate.
Qed.

Lemma sort_le_total (a b : float) :
  ((a <=? b)%float || is_nan b)%bool = false -> Binary64.sort_le b a.
Proof.
  intros H. apply orb_false_iff in H. destruct H as (Hle & Hb).
  unfold Binary64.sort_le. destruct (is_nan a) eqn:Ha; [right; reflexivity|].
  left. apply float_leb_total; assumption.
Qed.

Lemma insert_float_perm (x : float) (l : list float) :
  Permutation (Binary64.insert x l) (x :: l).
Proof.
  induction l as [|y l IH]; simpl.
  - apply Permutation_refl.
  - destruct ((x <=? y)%float || is_nan y)%bool.
    + apply Permutation_refl.
    + eapply perm_trans; [apply perm_skip, IH | apply perm_swap].
Qed.

Lemma np_sort_float_perm (l : list float) : Permutation (Binary64.np_sort l) l.
Proof.
  induction l as [|x l IH]; simpl.
  - constructor.
  - eapply perm_trans; [apply insert_float_perm | apply perm_skip, IH].
Qed.

Lemma insert_float_ascending (x : float) (l : list float) :
  Binary64.ascending l -> Binary64.ascending (Binary64.insert x l).
Proof.
  unfold Binary64.ascending.
  induction l as [|y l IH]; intros Hs; simpl.
  - repeat constructor.
  - inversion Hs as [|? ? Hl Hy]; subst.
    destruct ((x <=? y)%float || is_nan y)%bool eqn:E.
    + assert (Hxy : Binary64.sort_le x y).
      { apply orb_true_iff in E. exact E. }
      constructor; [assumption|].
      constructor; [assumption|].
      eapply Forall_impl; [|exact Hy]. intros z Hz.
      eapply sort_le_trans; eassumption.
    + constructor; [apply IH; assumption|].
      eapply Permutation_Forall; [apply Permutation_sym, insert_float_perm|].
      constructor; [apply sort_le_total; exact E | assumption].
Qed.

Lemma np_sort_float_ascending (l : list float) :
  Binary64.ascending (Binary64.np_sort l).
Proof.
  induction l as [|x l IH]; simpl.
  - constructor.
  - apply insert_float_ascending, IH.
Qed.

Lemma fdr_float_search_nth (s : list float) (cut : nat -> float) (j : nat) :
  let n := length s in
  (j < n)%nat ->
  nth j (map (fun pq : float * float => (fst pq <? snd pq)%float)
             (combine (rev s) (map cut (rev (seq 1 n))))) false
  = (nth (n - 1 - j) s nan <? cut (n - j)%nat)%float.
Proof.
  intros n Hj.
  assert (Hlen : length (rev s) = length (map cut (rev (seq 1 n)))).
  { rewrite length_map, !length_rev, length_seq. reflexivity. }
  rewrite nth_map_in with (d' := (nan, cut 0%nat))
    by (rewrite length_combine, <- Hlen, Nat.min_id, length_rev; exact Hj).
  rewrite combine_nth by exact Hlen. simpl.
  rewrite rev_nth by exact Hj.
  rewrite nth_map_in with (d' := 0%nat) by (rewrite length_rev, length_seq; exact Hj).
  rewrite rev_nth by (rewrite length_seq; exact Hj).
  rewrite length_seq, seq_nth by (fold n; lia).
  fold n. replace (n - S j)%nat with (n - 1 - j)%nat by lia.
  replace (1 + (n - 1 - j))%nat with (n - j)%nat by lia. reflexivity.
Qed.

Lemma fdr_float_cut_nth (n : nat) (cut : nat -> float) (j : nat) :
  (j < n)%nat -> nth j (map cut (rev (seq 1 n))) nan = cut (n - j)%nat.
Proof.
  intros Hj.
  rewrite nth_map_in with (d' := 0%nat) by (rewrite length_rev, length_seq; exact Hj).
  rewrite rev_nth by (rewrite length_seq; exact Hj).
  rewrite length_seq, seq_nth by lia. f_equal. lia.
Qed.

(** C9.  On binary64 numbers, as the code computes: for a non-empty list of
    [n] p-values, [fdr] returns the number [k * alpha / n], the product
    rounded and then the quotient, for the largest rank [k] (1-based, the
    p-values in ascending order) whose p-value is strictly below that
    number, and the Bonferroni bound [alpha / n] when no rank qualifies. *)
Theorem fdr_largest_rank_binary64 (pvalues : list float) (alpha : float) :
  pvalues <> [] ->
  let n := length pvalues in
  let cut := fun k : nat =>
    (Binary64.float_of_nat k * alpha / Binary64.float_of_nat n)%float in
  exists p_asc : list float,
    Permutation p_asc pvalues /\ Binary64.ascending p_asc /\
    ((exists k : nat,
         (1 <= k <= n)%nat /\
         (nth (k - 1) p_asc nan <? cut k)%float = true /\
         (forall k' : nat, (k < k' <= n)%nat ->
            (nth (k' - 1) p_asc nan <? cut k')%float = false) /\
         Binary64.fdr pvalues alpha = inr (cut k))
     \/
     ((forall k : nat, (1 <= k <= n)%nat ->
         (nth (k - 1) p_asc nan <? cut k)%float = false) /\
      Binary64.fdr pvalues alpha = inr (alpha / Binary64.float_of_nat n)%float)).
Proof.
  intros Hne n cut.
  exists (Binary64.np_sort pvalues).
  split; [apply np_sort_float_perm|]. split; [apply np_sort_float_ascending|].
  assert (Hn : length (Binary64.np_sort pvalues) = n)
    by (apply Permutation_length, np_sort_float_perm).
  assert (Hpos : (0 < n)%nat).
  { subst n. destruct pvalues; [congruence | simpl; lia]. }
  unfold Binary64.fdr. fold n. fold cut.
  set (b := map (fun pq : float * float => (fst pq <? snd pq)%float)
                (combine (rev (Binary64.np_sort pvalues)) (map cut (rev (seq 1 n))))).
  assert (Hb : length b = n).
  { subst b. rewrite length_map, length_combine, length_map, !length_rev,
      length_seq, Hn. apply Nat.min_id. }
  assert (Hnth : forall j, (j < n)%nat ->
            nth j b false
            = (nth (n - 1 - j) (Binary64.np_sort pvalues) nan <? cut (n - j)%nat)%float).
  { intros j Hj. subst b. rewrite <- Hn in *. apply fdr_float_search_nth. exact Hj. }
  pose proof (np_where_spec b) as Hw.
  destruct (np_where b) as [|i r].
  - right. split.
    + intros k Hk.
      specialize (Hw (n - k)%nat). rewrite Hb in Hw.
      rewrite Hnth in Hw by lia.
      replace (n - 1 - (n - k))%nat with (k - 1)%nat in Hw by lia.
      replace (n - (n - k))%nat with k in Hw by lia.
      apply Hw. lia.
    + destruct (Nat.eqb_spec n 0); [lia | reflexivity].
  - left. destruct Hw as (Hi & Htrue & Hfalse). rewrite Hb in Hi.
    exists (n - i)%nat. split; [lia|].
    rewrite Hnth in Htrue by exact Hi.
    replace (n - 1 - i)%nat with (n - i - 1)%nat in Htrue by lia.
    split; [exact Htrue|]. split.
    + intros k' Hk'.
      specialize (Hfalse (n - k')%nat). rewrite Hnth in Hfalse by lia.
      replace (n - 1 - (n - k'))%nat with (k' - 1)%nat in Hfalse by lia.
      replace (n - (n - k'))%nat with k' in Hfalse by lia.
      apply Hfalse. lia.
    + rewrite fdr_float_cut_nth by exact Hi. reflexivity.
Qed.

(** Three p-values [0.05] at [alpha = 0.05]: the product [3 * 0.05] rounds
    to [0.15000000000000002], the quotient by [3] to [0.05000000000000001],
    every p-value lies below it, and [fdr] returns it at rank 3. *)
Lemma fdr_largest_rank_binary64_witness :
  let p := Binary64.five_hundredths in
  [p; p; p] <> [] /\
  Binary64.fdr [p; p; p] p = inr 0x1.999999999999bp-5%float /\
  (Binary64.float_of_nat 3 * p / Binary64.float_of_nat 3)%float
  = 0x1.999999999999bp-5%float /\
  (p <? 0x1.999999999999bp-5)%float = true /\
  exists p_asc : list float,
    Permutation p_asc [p; p; p] /\ Binary64.ascending p_asc /\
    ((exists k : nat,
         (1 <= k <= 3)%nat /\
         (nth (k - 1) p_asc nan
          <? Binary64.float_of_nat k * p / Binary64.float_of_nat 3)%float = true /\
         (forall k' : nat, (k < k' <= 3)%nat ->
            (nth (k' - 1) p_asc nan
             <? Binary64.float_of_nat k' * p / Binary64.float_of_nat 3)%float = false) /\
         Binary64.fdr [p; p; p] p
         = inr (Binary64.float_of_nat k * p / Binary64.float_of_nat 3)%float)
     \/
     ((forall k : nat, (1 <= k <= 3)%nat ->
         (nth (k - 1) p_asc nan
          <? Binary64.float_of_nat k * p / Binary64.float_of_nat 3)%float = false) /\
      Binary64.fdr [p; p; p] p = inr (p / Binary64.float_of_nat 3)%float)).
Proof.
  cbv zeta.
  split; [discriminate|]. split; [vm_compute; reflexivity|].
  split; [vm_compute; reflexivity|]. split; [vm_compute; reflexivity|].
  apply (fdr_largest_rank_binary64
           [Binary64.five_hundredths; Binary64.five_hundredths; Binary64.five_hundredths]
           Binary64.five_hundredths).
  discriminate.
Defined.

End FloatOrder.

(** ** Distinct labels and tallies *)

Section LabelFacts.
Context {label : Type} {L : LabelRep label}.

Lemma lbl_eqb_eq (a b : label) : lbl_eqb a b = true <-> a = b.
Proof.
  unfold lbl_eqb. destruct (lbl_eq_dec a b); split; congruence.
Qed.

Lemma lbl_eqb_refl (a : label) : lbl_eqb a a = true.
Proof. apply lbl_eqb_eq. reflexivity. Qed.

Lemma lbl_eqb_neq (a b : label) : lbl_eqb a b = false <-> a <> b.
Proof.
  unfold lbl_eqb. destruct (lbl_eq_dec a b); split; congruence.
Qed.

Lemma in_unique (x : label) (l : list label) : In x (unique l) <-> In x l.
Proof.
  induction l as [|y l IH]; simpl; [tauto|].
  split.
  - intros [H|H]; [left; exact H|].
    apply in_remove in H. right. apply IH, H.
  - intros [H|H]; [left; exact H|].
    destruct (lbl_eq_dec y x) as [E|E]; [left; exact E|].
    right. apply in_in_remove; [congruence | apply IH, H].
Qed.

Lemma NoDup_remove_eq (x : label) (l : list label) :
  NoDup l -> NoDup (remove lbl_eq_dec x l).
Proof.
  induction 1 as [|y l Hy Hl IH]; simpl; [constructor|].
  destruct (lbl_eq_dec x y); [exact IH|].
  constructor; [|exact IH].
  intros H. apply in_remove in H. tauto.
Qed.

Lemma NoDup_unique (l : list label) : NoDup (unique l).
Proof.
  induction l as [|x l IH]; simpl; constructor.
  - apply remove_In.
  - apply NoDup_remove_eq, IH.
Qed.

Lemma unique_snoc (a : list label) (l : label) :
  unique (a ++ [l]) = if in_dec lbl_eq_dec l a then unique a else unique a ++ [l].
Proof.
  induction a as [|x a IH]; simpl; [reflexivity|].
  rewrite IH.
  destruct (lbl_eq_dec x l) as [E|E].
  - subst x. destruct (in_dec lbl_eq_dec l a); [reflexivity|].
    rewrite remove_app. simpl.
    destruct (lbl_eq_dec l l); [|congruence]. rewrite app_nil_r. reflexivity.
  - destruct (in_dec lbl_eq_dec l a); [reflexivity|].
    rewrite remove_app. simpl.
    destruct (lbl_eq_dec x l); [congruence|]. reflexivity.
Qed.

(** The distinct labels of a relabelled column are images of distinct
    labels of the column. *)
Lemma n_unique_map_le (f : label -> label) (l : list label) :
  (n_unique (map f l) <= n_unique l)%nat.
Proof.
  unfold n_unique.
  rewrite <- (length_map f (unique l)).
  apply NoDup_incl_length; [apply NoDup_unique|].
  intros y Hy. apply (proj1 (in_unique _ _)) in Hy. apply in_map_iff in Hy.
  destruct Hy as (x & <- & Hx). apply in_map, in_unique, Hx.
Qed.

Lemma counter_add_absent (l : label) (f : label -> nat) (ks : list label) :
  ~ In l ks ->
  counter_add l (map (fun k => (k, f k)) ks) = map (fun k => (k, f k)) ks ++ [(l, 1%nat)].
Proof.
  induction ks as [|k ks IH]; intros Hl; simpl; [reflexivity|].
  destruct (lbl_eqb k l) eqn:E.
  - apply lbl_eqb_eq in E. subst. exfalso. apply Hl. left. reflexivity.
  - rewrite IH; [reflexivity|]. intros H. apply Hl. right. exact H.
Qed.

Lemma counter_add_present (l : label) (f g : label -> nat) (ks : list label) :
  NoDup ks -> In l ks ->
  g l = S (f l) -> (forall k, k <> l -> g k = f k) ->
  counter_add l (map (fun k => (k, f k)) ks) = map (fun k => (k, g k)) ks.
Proof.
  intros Hnd Hin Hl Hk.
  induction ks as [|k ks IH]; simpl; [destruct Hin|].
  inversion Hnd as [|? ? Hnk Hnd']; subst.
  destruct (lbl_eqb k l) eqn:E.
  - apply lbl_eqb_eq in E. subst k. rewrite Hl. f_equal.
    apply map_ext_in. intros k Hk'. rewrite Hk; [reflexivity|].
    intros ->. contradiction.
  - apply lbl_eqb_neq in E. rewrite (Hk k E). f_equal.
    apply IH; [exact Hnd'|]. destruct Hin as [H|H]; [congruence | exact H].
Qed.

(** [Counter(a)] lists the distinct labels of [a] in order of first
    appearance, each with its number of occurrences. *)
Lemma Counter_tally (a : list label) : Counter a = tally a (unique a).
Proof.
  induction a as [|l a IH] using rev_ind; [reflexivity|].
  unfold Counter in *. rewrite fold_left_app. simpl. rewrite IH.
  rewrite unique_snoc. unfold tally.
  destruct (in_dec lbl_eq_dec l a) as [Hin|Hin].
  - apply counter_add_present.
    + apply NoDup_unique.
    + apply in_unique, Hin.
    + rewrite count_occ_app. simpl. destruct (lbl_eq_dec l l); [lia | congruence].
    + intros k Hk. rewrite count_occ_app. simpl.
      destruct (lbl_eq_dec l k); [congruence | lia].
  - rewrite counter_add_absent by (rewrite in_unique; exact Hin).
    rewrite map_app. simpl. f_equal.
    + apply map_ext_in. intros k Hk. rewrite count_occ_app. simpl.
      destruct (lbl_eq_dec l k) as [E|E]; [|f_equal; lia].
      subst k. apply (proj1 (in_unique _ _)) in Hk. contradiction.
    + rewrite count_occ_app. simpl.
      destruct (lbl_eq_dec l l); [|congruence].
      rewrite (proj1 (count_occ_not_In lbl_eq_dec a l) Hin). reflexivity.
Qed.

(** [max] with a key returns the first item of greatest key. *)
Lemma max_by_count_spec (c : list (label * nat)) :
  forall (p1 p2 : list (label * nat)) (best : label * nat),
    (forall y, In y p1 -> (snd y < snd best)%nat) ->
    (forall y, In y p2 -> (snd y <= snd best)%nat) ->
    exists c1 c2,
      p1 ++ best :: p2 ++ c = c1 ++ max_by_count best c :: c2 /\
      (forall y, In y c1 -> (snd y < snd (max_by_count best c))%nat) /\
      (forall y, In y c2 -> (snd y <= snd (max_by_count best c))%nat).
Proof.
  induction c as [|x c IH]; intros p1 p2 best H1 H2; simpl.
  - exists p1, p2. rewrite app_nil_r. auto.
  - destruct (Nat.ltb_spec (snd best) (snd x)) as [Hlt|Hge].
    + destruct (IH (p1 ++ best :: p2) [] x) as (c1 & c2 & E & Hc1 & Hc2).
      * intros y Hy. apply in_app_or in Hy. destruct Hy as [Hy|[Hy|Hy]].
        -- specialize (H1 y Hy). lia.
        -- subst y. exact Hlt.
        -- specialize (H2 y Hy). lia.
      * intros y [].
      * exists c1, c2. split; [|auto].
        rewrite <- E. rewrite <- app_assoc. reflexivity.
    + destruct (IH p1 (p2 ++ [x]) best) as (c1 & c2 & E & Hc1 & Hc2).
      * exact H1.
      * intros y Hy. apply in_app_or in Hy. destruct Hy as [Hy|[Hy|[]]].
        -- apply H2, Hy.
        -- subst y. exact Hge.
      * exists c1, c2. split; [|auto].
        rewrite <- E. rewrite <- app_assoc. reflexivity.
Qed.

Lemma remove_split (x : label) (l : list label) :
  forall (u1 : list label) (w : label) (u2 : list label),
    remove lbl_eq_dec x l = u1 ++ w :: u2 ->
    exists v1 v2, l = v1 ++ w :: v2 /\
                  remove lbl_eq_dec x v1 = u1 /\ remove lbl_eq_dec x v2 = u2.
Proof.
  induction l as [|z l IH]; intros u1 w u2 E; simpl in E.
  - destruct u1; discriminate.
  - destruct (lbl_eq_dec x z) as [Exz|Exz].
    + destruct (IH _ _ _ E) as (v1 & v2 & El & E1 & E2).
      exists (z :: v1), v2. subst l. simpl.
      destruct (lbl_eq_dec x z); [auto | contradiction].
    + destruct u1 as [|y u1]; simpl in E.
      * injection E as Ez E. subst z. exists [], l. auto.
      * injection E as Ez E. subst y.
        destruct (IH _ _ _ E) as (v1 & v2 & El & E1 & E2).
        exists (z :: v1), v2. subst l. simpl.
        destruct (lbl_eq_dec x z); [contradiction|]. rewrite E1. auto.
Qed.

(** What precedes the first occurrence of [w] in [a] precedes [w] among
    the distinct labels of [a]. *)
Lemma unique_split_first (a : list label) (w : label) :
  forall u1 u2 : list label,
    unique a = u1 ++ w :: u2 ->
    exists pre post, a = pre ++ w :: post /\ ~ In w pre /\
                     forall l, In l pre -> In l u1.
Proof.
  induction a as [|x a IH]; intros u1 u2 E; simpl in E.
  - destruct u1; discriminate.
  - destruct u1 as [|y u1]; simpl in E.
    + injection E as -> _. exists [], a. simpl. tauto.
    + injection E as -> E.
      assert (Hwy : w <> y).
      { intros ->.
        assert (H : In y (remove lbl_eq_dec y (unique a)))
          by (rewrite E; apply in_elt).
        apply remove_In in H. exact H. }
      destruct (remove_split _ _ _ _ _ E) as (v1 & v2 & Ev & E1 & E2).
      destruct (IH _ _ Ev) as (pre & post & Ea & Hpre & Hsub).
      exists (y :: pre), post. subst a. split; [reflexivity|]. split.
      * simpl. intros [H|H]; [congruence | contradiction].
      * intros l [Hl|Hl]; [left; exact Hl|].
        destruct (lbl_eq_dec y l) as [Ey|Ey]; [left; exact Ey|]. right.
        rewrite <- E1. apply in_in_remove; [congruence | apply Hsub, Hl].
Qed.
(** ** [ensemble]: majority vote per row *)

Lemma rmap_list_ok {A B} (f : A -> result B) (g : A -> B) (l : list A) :
  (forall a, In a l -> f a = inr (g a)) -> rmap_list f l = inr (map g l).
Proof.
  induction l as [|a l IH]; intros H; simpl; [reflexivity|].
  rewrite (H a (or_introl eq_refl)). simpl.
  rewrite IH by (intros b Hb; apply H; right; exact Hb). reflexivity.
Qed.

Lemma row_at_length (cs : list (list label)) (n i : nat) :
  Forall (fun c => length c = n) cs -> (i < n)%nat ->
  length (row_at cs i) = length cs.
Proof.
  intros Hwf Hi. unfold row_at.
  induction Hwf as [|c cs Hc Hcs IH]; simpl; [reflexivity|].
  rewrite length_app, IH.
  destruct (nth_error c i) eqn:E; [reflexivity|].
  apply nth_error_None in E. lia.
Qed.

(** The item [most_common(1)] yields for a non-empty row. *)
Lemma most_common_row (row : list label) :
  row <> [] ->
  exists w : label,
    most_common_1 (Counter row) = [(w, count_occ lbl_eq_dec row w)] /\
    (forall l, (count_occ lbl_eq_dec row l <= count_occ lbl_eq_dec row w)%nat) /\
    (exists pre post,
        row = pre ++ w :: post /\ ~ In w pre /\
        forall l, In l pre ->
                  (count_occ lbl_eq_dec row l < count_occ lbl_eq_dec row w)%nat) /\
    (1 <= count_occ lbl_eq_dec row w <= length row)%nat.
Proof.
  intros Hne. rewrite Counter_tally.
  destruct row as [|x t]; [congruence|].
  assert (Hu : exists u, unique (x :: t) = x :: u) by (eexists; reflexivity).
  destruct Hu as (u & Hu).
  remember (x :: t) as row eqn:Erow. clear Erow Hne t.
  unfold tally. rewrite Hu. unfold most_common_1.
  set (g := fun k : label => (k, count_occ lbl_eq_dec row k)).
  change (map g (x :: u)) with (g x :: map g u).
  set (rest := map g u).
  destruct (max_by_count_spec rest [] [] (g x)) as (c1 & c2 & E & Hc1 & Hc2);
    try (intros y []).
  change ([] ++ g x :: [] ++ rest) with (map g (x :: u)) in E.
  rewrite <- Hu in E.
  apply map_eq_app in E. destruct E as (u1 & u2' & Eu & E1 & E2).
  apply map_eq_cons in E2. destruct E2 as (w & u2 & -> & Ew & E2).
  exists w.
  split; [rewrite <- Ew; reflexivity|].
  assert (Hcnt : forall l, (count_occ lbl_eq_dec row l <= count_occ lbl_eq_dec row w)%nat).
  { intros l. destruct (in_dec lbl_eq_dec l row) as [Hin|Hin].
    - apply in_unique in Hin. rewrite Eu in Hin.
      apply in_app_or in Hin. destruct Hin as [Hin|[Hin|Hin]].
      + assert (H : In (g l) c1) by (rewrite <- E1; apply in_map, Hin).
        apply Hc1 in H. rewrite <- Ew in H. simpl in H. lia.
      + subst l. lia.
      + assert (H : In (g l) c2) by (rewrite <- E2; apply in_map, Hin).
        apply Hc2 in H. rewrite <- Ew in H. simpl in H. lia.
    - rewrite (proj1 (count_occ_not_In lbl_eq_dec row l) Hin). lia. }
  split; [exact Hcnt|]. split.
  - destruct (unique_split_first row w u1 u2 Eu) as (pre & post & Er & Hpre & Hsub).
    exists pre, post. split; [exact Er|]. split; [exact Hpre|].
    intros l Hl. apply Hsub in Hl.
    assert (H : In (g l) c1) by (rewrite <- E1; apply in_map, Hl).
    apply Hc1 in H. rewrite <- Ew in H. simpl in H. exact H.
  - split.
    + assert (Hw : In w row).
      { apply in_unique. rewrite Eu. apply in_elt. }
      apply (count_occ_In lbl_eq_dec) in Hw. lia.
    + apply count_occ_bound.
Qed.

Lemma share_bounds (n r : nat) :
  (1 <= n <= r)%nat -> 0 < Q_of_nat n / Q_of_nat r /\ Q_of_nat n / Q_of_nat r <= 1.
Proof.
  intros Hn.
  assert (Hr : 0 < Q_of_nat r) by (apply Q_of_nat_pos; lia).
  assert (Hn0 : 0 < Q_of_nat n) by (apply Q_of_nat_pos; lia).
  split.
  - apply Qlt_shift_div_l; [exact Hr|]. lra.
  - apply Qle_shift_div_r; [exact Hr|]. rewrite Qmult_1_l.
    unfold Q_of_nat. rewrite <- Zle_Qle. lia.
Qed.

(** C4.  On a table with at least one column, the aggregator returns for
    every row the label of greatest frequency in the row (among equally
    frequent labels the one met first in the row) and the share
    [count / R], which lies in (0, 1]. *)
Theorem ensemble_majority (df : DataFrame label) (i : nat) :
  wf_frame df -> (1 <= shape1 df)%nat -> (i < nrows df)%nat ->
  exists (pred : Votes) (row : list label) (w : label),
    ensemble df = inr pred /\
    length (lbls pred) = nrows df /\ length (pct pred) = nrows df /\
    nth_error (values df) i = Some row /\ length row = shape1 df /\
    nth_error (lbls pred) i = Some w /\
    nth_error (pct pred) i
      = Some (Q_of_nat (count_occ lbl_eq_dec row w) / Q_of_nat (shape1 df)) /\
    (forall l, (count_occ lbl_eq_dec row l <= count_occ lbl_eq_dec row w)%nat) /\
    (exists pre post,
        row = pre ++ w :: post /\ ~ In w pre /\
        forall l, In l pre ->
                  (count_occ lbl_eq_dec row l < count_occ lbl_eq_dec row w)%nat) /\
    0 < Q_of_nat (count_occ lbl_eq_dec row w) / Q_of_nat (shape1 df) /\
    Q_of_nat (count_occ lbl_eq_dec row w) / Q_of_nat (shape1 df) <= 1.
Proof.
  intros Hwf HR Hi.
  set (g := fun a : list label =>
              match most_common_1 (Counter a) with
              | [] => (lbl_zero, 0%nat)
              | x :: _ => x
              end).
  assert (Hrows : forall a, In a (values df) -> length a = shape1 df).
  { intros a Ha. unfold values in Ha. apply in_map_iff in Ha.
    destruct Ha as (j & <- & Hj). apply in_seq in Hj.
    apply row_at_length with (n := nrows df); [exact Hwf | lia]. }
  assert (Hok : rmap_list (fun a => match most_common_1 (Counter a) with
                                    | [] => inl IndexError
                                    | x :: _ => inr x
                                    end) (values df) = inr (map g (values df))).
  { apply rmap_list_ok. intros a Ha.
    destruct (most_common_row a) as (w & Ew & _).
    - intros ->. specialize (Hrows [] Ha). simpl in Hrows. lia.
    - unfold g. rewrite Ew. reflexivity. }
  assert (Hrow : nth_error (values df) i = Some (row_at (cols df) i)).
  { unfold values. rewrite nth_error_map, nth_error_seq.
    destruct (Nat.ltb_spec i (nrows df)); [reflexivity | lia]. }
  set (row := row_at (cols df) i) in *.
  assert (Hin : In row (values df)) by (eapply nth_error_In; exact Hrow).
  destruct (most_common_row row) as (w & Ew & Hmax & Hfirst & Hn).
  { intros E. specialize (Hrows row Hin). rewrite E in Hrows. simpl in Hrows. lia. }
  assert (Hg : g row = (w, count_occ lbl_eq_dec row w)) by (unfold g; rewrite Ew; reflexivity).
  unfold ensemble. rewrite Hok. simpl.
  destruct (map g (values df)) as [|c0 cs] eqn:Ec.
  { apply (f_equal (@length _)) in Ec. rewrite length_map in Ec.
    unfold values in Ec. rewrite length_map, length_seq in Ec. simpl in Ec. lia. }
  rewrite <- Ec.
  assert (Hlen : length (map g (values df)) = nrows df).
  { unfold values. rewrite !length_map, length_seq. reflexivity. }
  eexists; exists row, w. split; [reflexivity|]. simpl.
  rewrite !length_map.
  split; [unfold values; rewrite length_map, length_seq; reflexivity|].
  split; [unfold values; rewrite length_map, length_seq; reflexivity|].
  split; [exact Hrow|].
  split; [apply Hrows, Hin|].
  split; [rewrite !nth_error_map, Hrow; simpl; rewrite Hg; reflexivity|].
  split; [rewrite !nth_error_map, Hrow; simpl; rewrite Hg; reflexivity|].
  split; [exact Hmax|]. split; [exact Hfirst|].
  apply share_bounds. rewrite <- (Hrows row Hin). exact Hn.
Qed.

End LabelFacts.

Lemma ensemble_majority_witness :
  let df := mkDF 5 [[0; 0; 7; 7; -1]; [0; 0; -1; 7; 7]; [0; 0; 7; 7; 7]]%Z in
  wf_frame df /\ (1 <= shape1 df)%nat /\ (4 < nrows df)%nat /\
  ensemble df = inr (mkVotes [0; 0; 7; 7; 7]%Z [3 # 3; 3 # 3; 2 # 3; 3 # 3; 2 # 3]) /\
  exists (pred : Votes) (row : list Z) (w : Z),
    ensemble df = inr pred /\
    length (lbls pred) = nrows df /\ length (pct pred) = nrows df /\
    nth_error (values df) 4 = Some row /\ length row = shape1 df /\
    nth_error (lbls pred) 4 = Some w /\
    nth_error (pct pred) 4
      = Some (Q_of_nat (count_occ lbl_eq_dec row w) / Q_of_nat (shape1 df)) /\
    (forall l, (count_occ lbl_eq_dec row l <= count_occ lbl_eq_dec row w)%nat) /\
    (exists pre post,
        row = pre ++ w :: post /\ ~ In w pre /\
        forall l, In l pre ->
                  (count_occ lbl_eq_dec row l < count_occ lbl_eq_dec row w)%nat) /\
    0 < Q_of_nat (count_occ lbl_eq_dec row w) / Q_of_nat (shape1 df) /\
    Q_of_nat (count_occ lbl_eq_dec row w) / Q_of_nat (shape1 df) <= 1.
Proof.
  assert (Hwf : wf_frame (mkDF 5 [[0; 0; 7; 7; -1]; [0; 0; -1; 7; 7]; [0; 0; 7; 7; 7]]%Z))
    by (repeat constructor).
  cbv zeta. split; [exact Hwf|].
  split; [vm_compute; lia|]. split; [vm_compute; lia|]. split; [reflexivity|].
  apply (ensemble_majority
           (mkDF 5 [[0; 0; 7; 7; -1]; [0; 0; -1; 7; 7]; [0; 0; 7; 7; 7]]%Z) 4 Hwf);
    vm_compute; lia.
Defined.

(** ** [remap_lbls]: what the two execution paths compute *)

Lemma first_index_spec {A} (f : A -> bool) (l : list A) (i : nat) :
  first_index f l = Some i ->
  exists a, nth_error l i = Some a /\ f a = true /\
            forall j b, (j < i)%nat -> nth_error l j = Some b -> f b = false.
Proof.
  revert i. induction l as [|x l IH]; intros i H; simpl in H; [discriminate|].
  destruct (f x) eqn:E.
  - injection H as <-. exists x. repeat split; [exact E|]. intros j b Hj. lia.
  - destruct (first_index f l) as [i'|]; [|discriminate].
    injection H as <-. destruct (IH i' eq_refl) as (a & Ha & Hfa & Hlt).
    exists a. repeat split; [exact Ha | exact Hfa |].
    intros [|j] b Hj Hb; simpl in Hb.
    + injection Hb as <-. exact E.
    + apply (Hlt j b); [lia | exact Hb].
Qed.

Lemma first_index_unique {A} (f : A -> bool) (l : list A) (i : nat) (a : A) :
  nth_error l i = Some a -> f a = true ->
  (forall j b, (j < i)%nat -> nth_error l j = Some b -> f b = false) ->
  first_index f l = Some i.
Proof.
  revert i. induction l as [|x l IH]; intros [|i] Ha Hfa Hlt; simpl in *;
    try discriminate.
  - injection Ha as ->. rewrite Hfa. reflexivity.
  - rewrite (Hlt 0%nat x) by (reflexivity || lia).
    rewrite (IH i Ha Hfa); [reflexivity|].
    intros j b Hj Hb. apply (Hlt (S j) b); [lia | exact Hb].
Qed.

Lemma update_length {A} (i : nat) (v : A) (l : list A) :
  length (update i v l) = length l.
Proof.
  revert i. induction l as [|a l IH]; intros [|i]; simpl; auto.
Qed.

Lemma nth_error_update {A} (i : nat) (v : A) (l : list A) (j : nat) :
  nth_error (update i v l) j
  = if (j =? i)%nat then (if (j <? length l)%nat then Some v else None)
    else nth_error l j.
Proof.
  revert i j. induction l as [|a l IH]; intros i j.
  - destruct i, j; simpl; try reflexivity.
    + destruct (j =? i)%nat; reflexivity.
  - destruct i, j; simpl; try reflexivity.
    rewrite IH. destruct (j =? i)%nat; [|reflexivity].
    destruct (Nat.ltb_spec j (length l)), (Nat.ltb_spec (S j) (S (length l)));
      reflexivity || lia.
Qed.

Lemma nth_error_fold_update {A} (F : nat -> A) (idxs : list nat) :
  forall (cs : list A) (j : nat),
    nth_error (fold_left (fun acc s => update s (F s) acc) idxs cs) j
    = if existsb (Nat.eqb j) idxs
      then (if (j <? length cs)%nat then Some (F j) else None)
      else nth_error cs j.
Proof.
  induction idxs as [|s idxs IH]; intros cs j; simpl; [reflexivity|].
  rewrite IH, update_length, nth_error_update.
  destruct (Nat.eqb_spec j s) as [->|Hne]; simpl.
  - destruct (existsb (Nat.eqb s) idxs); reflexivity.
  - reflexivity.
Qed.

Lemma rfold_ok {A S} (body : A -> S -> result S) (g : A -> S -> S) (l : list A) :
  (forall a s, body a s = inr (g a s)) ->
  forall s, rfold body l s = inr (fold_left (fun s a => g a s) l s).
Proof.
  intros H. induction l as [|a l IH]; intros s; simpl; [reflexivity|].
  rewrite H. simpl. apply IH.
Qed.

Lemma length_fold_update {A} (F : nat -> A) (idxs : list nat) :
  forall cs : list A,
    length (fold_left (fun acc s => update s (F s) acc) idxs cs) = length cs.
Proof.
  induction idxs as [|s idxs IH]; intros cs; simpl; [reflexivity|].
  rewrite IH. apply update_length.
Qed.

Lemma nth_error_combine_seq {A} (cs : list A) :
  forall a j : nat,
    nth_error (combine (seq a (length cs)) cs) j
    = option_map (fun c => ((a + j)%nat, c)) (nth_error cs j).
Proof.
  induction cs as [|c cs IH]; intros a j; simpl.
  - destruct j; reflexivity.
  - destruct j as [|j]; simpl.
    + rewrite Nat.add_0_r. reflexivity.
    + rewrite IH. replace (S a + j)%nat with (a + S j)%nat by lia. reflexivity.
Qed.

Section Alignment.
Context {label : Type} {L : LabelRep label}.

Lemma remap_single_ok (c : list label) (rc : list (label * point)) (xys : list point) :
  rc <> [] ->
  _remap_lbls_single c rc (map snd rc) xys = inr (remap_table rc xys c).
Proof.
  intros Hrc. unfold _remap_lbls_single, remap_table.
  destruct rc; [congruence | reflexivity].
Qed.

Lemma remap_sequential_ok (solus : DataFrame label) (ref : nat)
    (rc : list (label * point)) (xys : list point) (holder : DataFrame (option label)) :
  rc <> [] ->
  remap_sequential solus ref rc (map snd rc) xys holder
  = inr (fold_left (fun acc s => set_col acc s (remapped_column solus rc xys s))
                   (other_columns solus ref) holder).
Proof.
  intros Hrc. unfold remap_sequential.
  apply (rfold_ok _ (fun s acc => set_col acc s (remapped_column solus rc xys s))).
  intros s acc. rewrite remap_single_ok by exact Hrc. reflexivity.
Qed.

Lemma fold_left_combine_map {S} (F : nat -> list (option label))
    (step : S -> nat -> list (option label) -> S) (idxs : list nat) :
  forall s0 : S,
    fold_left (fun acc sc => step acc (fst sc) (snd sc)) (combine idxs (map F idxs)) s0
    = fold_left (fun acc s => step acc s (F s)) idxs s0.
Proof.
  induction idxs as [|i idxs IH]; intros s0; simpl; [reflexivity | apply IH].
Qed.

Lemma remap_parallel_ok (solus : DataFrame label) (ref : nat)
    (rc : list (label * point)) (xys : list point) (holder : DataFrame (option label)) :
  rc <> [] -> other_columns solus ref <> [] ->
  remap_parallel solus ref rc (map snd rc) xys holder
  = inr (fold_left (fun acc s => set_col acc s (remapped_column solus rc xys s))
                   (other_columns solus ref) holder).
Proof.
  intros Hrc Hne. unfold remap_parallel, pool_map.
  rewrite (rmap_list_ok _
             (fun pars : list label * list (label * point) * list point * list point =>
                let '(c, r, _, x) := pars in map (series_map (remap_table r x c)) c)).
  2:{ intros a Ha. apply in_map_iff in Ha. destruct Ha as (s & <- & _).
      unfold _remap_n_expand. rewrite remap_single_ok by exact Hrc. reflexivity. }
  rewrite map_map. simpl.
  change (map (fun s => map (series_map (remap_table rc xys (column solus s)))
                            (column solus s)) (other_columns solus ref))
    with (map (remapped_column solus rc xys) (other_columns solus ref)).
  destruct (other_columns solus ref) as [|s0 ss] eqn:E; [congruence|].
  cbn [map]. rewrite <- (map_cons (remapped_column solus rc xys) s0 ss).
  rewrite (fold_left_combine_map (remapped_column solus rc xys)
             (fun acc s c => set_col acc s c)).
  reflexivity.
Qed.

Lemma cols_fold_set_col {A} (F : nat -> list A) (idxs : list nat) :
  forall df : DataFrame A,
    fold_left (fun acc s => set_col acc s (F s)) idxs df
    = mkDF (nrows df) (fold_left (fun cs s => update s (F s) cs) idxs (cols df)).
Proof.
  induction idxs as [|s idxs IH]; intros df; simpl.
  - destruct df; reflexivity.
  - rewrite IH. reflexivity.
Qed.

Lemma existsb_other_columns (solus : DataFrame label) (ref j : nat) :
  existsb (Nat.eqb j) (other_columns solus ref)
  = (j <? shape1 solus)%nat && negb (j =? ref)%nat.
Proof.
  unfold other_columns.
  destruct (existsb (Nat.eqb j) _) eqn:E.
  - apply existsb_exists in E. destruct E as (s & Hs & Ejs).
    apply Nat.eqb_eq in Ejs. subst s. apply filter_In in Hs.
    destruct Hs as (Hs & Hn). apply in_seq in Hs.
    rewrite Hn. destruct (Nat.ltb_spec j (shape1 solus)); [reflexivity | lia].
  - destruct (Nat.ltb_spec j (shape1 solus)) as [Hlt|Hge]; [|reflexivity].
    destruct (Nat.eqb_spec j ref) as [Heq|Hne]; [reflexivity|]. simpl.
    assert (H : existsb (Nat.eqb j)
                  (filter (fun s => negb (s =? ref)%nat) (seq 0 (shape1 solus))) = true).
    { apply existsb_exists. exists j. split; [|apply Nat.eqb_refl].
      apply filter_In. split; [apply in_seq; lia|].
      destruct (Nat.eqb_spec j ref); [contradiction | reflexivity]. }
    congruence.
Qed.

(** The table both paths build, once the remap of every column succeeded. *)
Lemma remapped_table_cols (solus : DataFrame label) (ref : nat)
    (rc : list (label * point)) (xys : list point) :
  (ref < shape1 solus)%nat ->
  map (map (fillna lbl_noise))
      (cols (set_col
               (fold_left (fun acc s => set_col acc s (remapped_column solus rc xys s))
                          (other_columns solus ref) (zeros solus))
               ref (map Some (column solus ref))))
  = aligned_cols ref rc xys (cols solus).
Proof.
  intros Href. apply nth_error_ext. intros j.
  rewrite cols_fold_set_col. cbn [set_col cols nrows zeros].
  unfold aligned_cols.
  rewrite !nth_error_map, nth_error_update, length_fold_update, length_map.
  rewrite nth_error_fold_update, length_map, existsb_other_columns.
  rewrite nth_error_combine_seq. simpl.
  unfold shape1 in *.
  destruct (Nat.ltb_spec j (length (cols solus))) as [Hj|Hj].
  - destruct (nth_error (cols solus) j) as [c|] eqn:Ec;
      [|apply nth_error_None in Ec; lia].
    assert (Hc : column solus j = c) by (apply nth_error_nth; exact Ec).
    simpl. destruct (Nat.eqb_spec j ref) as [->|Hne]; simpl.
    + rewrite map_map. simpl. rewrite map_id. f_equal. exact Hc.
    + unfold remapped_column, aligned_column. rewrite map_map, Hc. reflexivity.
  - rewrite (proj2 (nth_error_None (cols solus) j)) by lia.
    rewrite nth_error_map, (proj2 (nth_error_None (cols solus) j)) by lia.
    simpl. destruct (j =? ref)%nat; reflexivity.
Qed.

(** With a cluster in the Reference Run, the sequential path returns the
    aligned table. *)
Lemma remap_lbls_aligned (solus : DataFrame label) (xys : list point) (n_jobs : Z)
    (ref : nat) :
  reference_run solus = Some ref ->
  column solus ref <> [] ->
  drop_label lbl_noise (groupby_mean (column solus ref) xys) <> [] ->
  multi_core n_jobs = false \/ other_columns solus ref <> [] ->
  remap_lbls solus xys n_jobs
  = ([], inr (mkDF (nrows solus)
                   (aligned_cols ref
                      (drop_label lbl_noise (groupby_mean (column solus ref) xys))
                      xys (cols solus)))).
Proof.
  intros Href Hcol Hrc Hpath. unfold remap_lbls. rewrite Href.
  remember (drop_label lbl_noise (groupby_mean (column solus ref) xys)) as rc eqn:Erc.
  clear Erc.
  destruct (column solus ref) as [|x t] eqn:Ecol; [congruence|]. rewrite <- Ecol.
  assert (Hlen : (0 <? length rc)%nat = true).
  { destruct rc; [congruence | reflexivity]. }
  rewrite Hlen.
  assert (Hlt : (ref < shape1 solus)%nat).
  { unfold reference_run in Href. apply first_index_spec in Href.
    destruct Href as (a & Ha & _).
    unfold shape1. rewrite <- (length_map n_unique). fold (ns_clusters solus).
    apply nth_error_Some. congruence. }
  assert (Hboth :
            (if multi_core n_jobs
             then remap_parallel solus ref rc (map snd rc) xys (zeros solus)
             else remap_sequential solus ref rc (map snd rc) xys (zeros solus))
            = inr (fold_left (fun acc s => set_col acc s (remapped_column solus rc xys s))
                             (other_columns solus ref) (zeros solus))).
  { destruct (multi_core n_jobs).
    - apply remap_parallel_ok; [exact Hrc|]. destruct Hpath; [discriminate | assumption].
    - apply remap_sequential_ok. exact Hrc. }
  rewrite Hboth. cbn [rbind]. rewrite remapped_table_cols by exact Hlt.
  f_equal. f_equal. f_equal. rewrite cols_fold_set_col. reflexivity.
Qed.

End Alignment.

Section AlignmentOutcomes.
Context {label : Type} {L : LabelRep label}.

Lemma unique_all_same (a : label) (l : list label) :
  l <> [] -> Forall (eq a) l -> unique l = [a].
Proof.
  induction l as [|x t IH]; intros Hne Hall; [congruence|].
  inversion Hall as [|? ? Hx Ht]; subst. simpl.
  destruct t as [|y t']; [reflexivity|].
  rewrite IH by (congruence || exact Ht). simpl.
  destruct (lbl_eq_dec x x); [reflexivity | congruence].
Qed.

(** C5.  When the Reference Run holds nothing but the noise sentinel, its
    centroid table without noise is empty, and the alignment step warns and
    returns the table it was given, without raising. *)
Theorem remap_lbls_no_clusters (solus : DataFrame label) (xys : list point)
    (n_jobs : Z) (ref : nat) :
  reference_run solus = Some ref ->
  column solus ref <> [] ->
  Forall (eq lbl_noise) (column solus ref) ->
  drop_label lbl_noise (groupby_mean (column solus ref) xys) = [] /\
  remap_lbls solus xys n_jobs
  = ([UserWarning "No clusters identified."], inr solus).
Proof.
  intros Href Hne Hall.
  assert (Hrc : drop_label lbl_noise (groupby_mean (column solus ref) xys) = []).
  { unfold groupby_mean. rewrite (unique_all_same lbl_noise) by assumption.
    simpl. rewrite lbl_eqb_refl. reflexivity. }
  split; [exact Hrc|].
  unfold remap_lbls. rewrite Href, Hrc.
  destruct (column solus ref); [congruence | reflexivity].
Qed.

Lemma other_columns_nonempty (solus : DataFrame label) (ref : nat) :
  (2 <= shape1 solus)%nat -> other_columns solus ref <> [].
Proof.
  intros HR E.
  pose proof (existsb_other_columns solus ref (if (ref =? 0)%nat then 1 else 0)%nat) as H.
  rewrite E in H. simpl in H.
  destruct (Nat.eqb_spec ref 0) as [->|Hne].
  - destruct (Nat.ltb_spec 1 (shape1 solus)); [discriminate | lia].
  - destruct (Nat.ltb_spec 0 (shape1 solus)); [|lia].
    destruct (Nat.eqb_spec 0 ref); [lia | discriminate].
Qed.

(** On a table of two or more columns the parallel path and the sequential
    path of the alignment step return the same outcome. *)
Theorem remap_lbls_parallel_sequential (solus : DataFrame label) (xys : list point)
    (n_par n_seq : Z) :
  multi_core n_par = true -> multi_core n_seq = false ->
  (2 <= shape1 solus)%nat ->
  remap_lbls solus xys n_par = remap_lbls solus xys n_seq.
Proof.
  intros Hpar Hseq HR. unfold remap_lbls.
  destruct (reference_run solus) as [ref|]; [|reflexivity].
  destruct (column solus ref) as [|x t] eqn:Ecol; [reflexivity|]. rewrite <- Ecol.
  remember (drop_label lbl_noise (groupby_mean (column solus ref) xys)) as rc eqn:Erc.
  destruct rc as [|r0 rc']; [reflexivity|].
  cbn [length Nat.ltb Nat.leb]. rewrite Hpar, Hseq.
  rewrite remap_parallel_ok, remap_sequential_ok;
    [reflexivity | discriminate | discriminate | apply other_columns_nonempty, HR].
Qed.

End AlignmentOutcomes.

Lemma remap_lbls_parallel_sequential_witness :
  let solus := mkDF 5 [[0; 0; 7; 7; -1]; [4; 4; -1; 6; 6]; [5; 5; 8; 8; 8]]%Z in
  let db := [(0, 0); (1 # 10, 2 # 10); (4, 5); (6, 7); (5, 5)] in
  remap_lbls solus db 2
  = ([], inr (mkDF 5 [[0; 0; 7; 7; -1]; [0; 0; -1; 7; 7]; [0; 0; 7; 7; 7]]%Z)) /\
  remap_lbls solus db 2 = remap_lbls solus db 1.
Proof.
  cbv zeta. split; [reflexivity|].
  apply (remap_lbls_parallel_sequential
           (mkDF 5 [[0; 0; 7; 7; -1]; [4; 4; -1; 6; 6]; [5; 5; 8; 8; 8]]%Z)
           [(0, 0); (1 # 10, 2 # 10); (4, 5); (6, 7); (5, 5)] 2 1);
    [reflexivity | reflexivity | vm_compute; lia].
Defined.

Lemma remap_lbls_no_clusters_witness :
  let solus := mkDF 3 [[-1; -1; -1]; [-1; -1; -1]]%Z in
  let xys := [(0, 0); (1, 1); (5, 5)] in
  reference_run solus = Some 0%nat /\
  column solus 0 <> [] /\
  Forall (eq lbl_noise) (column solus 0) /\
  drop_label lbl_noise (groupby_mean (column solus 0) xys) = [] /\
  remap_lbls solus xys 1 = ([UserWarning "No clusters identified."], inr solus).
Proof.
  cbv zeta.
  assert (H1 : reference_run (mkDF 3 [[-1; -1; -1]; [-1; -1; -1]]%Z) = Some 0%nat)
    by reflexivity.
  assert (H2 : column (mkDF 3 [[-1; -1; -1]; [-1; -1; -1]]%Z) 0 <> [])
    by discriminate.
  assert (H3 : Forall (eq lbl_noise) (column (mkDF 3 [[-1; -1; -1]; [-1; -1; -1]]%Z) 0))
    by (repeat constructor).
  split; [exact H1|]. split; [exact H2|]. split; [exact H3|].
  exact (remap_lbls_no_clusters (mkDF 3 [[-1; -1; -1]; [-1; -1; -1]]%Z)
           [(0, 0); (1, 1); (5, 5)] 1 0 H1 H2 H3).
Defined.

(** C1.  The column the code takes as Reference Run is the first one with the
    most distinct labels, the noise sentinel counted: on the runs
    [-1, -1] and [0, 0] it is the all-noise run, while the run with the most
    distinct non-noise labels is the second; alignment then reports that no
    cluster was identified. *)
Theorem reference_run_counts_noise :
  let solus := mkDF 2 [[-1; -1]; [0; 0]]%Z in
  ns_clusters solus = [1; 1]%nat /\
  map n_clusters (cols solus) = [0; 1]%nat /\
  reference_run solus = Some 0%nat /\
  spec_reference_run solus = Some 1%nat /\
  remap_lbls solus [(0, 0); (1, 1)] 1
  = ([UserWarning "No clusters identified."], inr solus).
Proof.
  cbv zeta. repeat split.
Qed.

(** C3.  On a one-column table whose run has a cluster the parallel path
    raises (there is nothing to concatenate) where the sequential path
    returns the table. *)
Theorem remap_lbls_parallel_single_column :
  let solus := mkDF 2 [[0; 0]]%Z in
  let xys := [(0, 0); (1, 1)] in
  remap_lbls solus xys 2 = ([], inl ValueError) /\
  remap_lbls solus xys (-1) = ([], inl ValueError) /\
  remap_lbls solus xys 1 = ([], inr solus).
Proof.
  cbv zeta. repeat split.
Qed.

(** ** The nearest-reference search *)

Lemma nearest_spec (cs : list point) (q d : point) :
  cs <> [] ->
  (nearest cs q < length cs)%nat /\
  (forall j, (j < length cs)%nat ->
             dist2 q (nth (nearest cs q) cs d) <= dist2 q (nth j cs d)) /\
  (forall j, (j < nearest cs q)%nat ->
             dist2 q (nth (nearest cs q) cs d) < dist2 q (nth j cs d)).
Proof.
  induction cs as [|c cs IH]; intros Hne; [congruence|].
  destruct cs as [|c' cs'].
  - simpl. split; [lia|]. split.
    + intros [|j] Hj; [apply Qle_refl | lia].
    + intros j Hj. lia.
  - destruct (IH ltac:(discriminate)) as (Hlt & Hmin & Hfirst).
    change (nearest (c :: c' :: cs') q)
      with (if Qle_bool (dist2 q c)
                 (dist2 q (nth (nearest (c' :: cs') q) (c' :: cs') c))
            then 0%nat else S (nearest (c' :: cs') q)).
    remember (c' :: cs') as tl eqn:Etl. clear Etl IH.
    rewrite (nth_indep tl c d Hlt).
    destruct (Qle_bool (dist2 q c) (dist2 q (nth (nearest tl q) tl d))) eqn:E.
    + apply Qle_bool_iff in E. split; [simpl; lia|]. split.
      * intros [|j] Hj; simpl; [apply Qle_refl|].
        eapply Qle_trans; [exact E | apply Hmin; simpl in Hj; lia].
      * intros j Hj. lia.
    + assert (E' : dist2 q (nth (nearest tl q) tl d) < dist2 q c).
      { apply Qnot_le_lt. intros H. apply Qle_bool_iff in H. congruence. }
      split; [simpl; lia|]. split.
      * intros [|j] Hj; simpl; [apply Qlt_le_weak, E' | apply Hmin; simpl in Hj; lia].
      * intros [|j] Hj; simpl; [exact E' | apply Hfirst; lia].
Qed.

Lemma nearest_lt (cs : list point) (q : point) :
  cs <> [] -> (nearest cs q < length cs)%nat.
Proof.
  intros H. apply (nearest_spec cs q (0, 0) H).
Qed.

(** The search is determined by its two properties: strictly nearer than
    every earlier reference, at least as near as every later one. *)
Lemma nearest_unique (cs : list point) (q d : point) (k : nat) :
  (k < length cs)%nat ->
  (forall j, (j < k)%nat -> dist2 q (nth k cs d) < dist2 q (nth j cs d)) ->
  (forall j, (k < j < length cs)%nat -> dist2 q (nth k cs d) <= dist2 q (nth j cs d)) ->
  nearest cs q = k.
Proof.
  intros Hk Hbefore Hafter.
  assert (Hne : cs <> []) by (destruct cs; [simpl in Hk; lia | discriminate]).
  destruct (nearest_spec cs q d Hne) as (Hlt & Hmin & Hfirst).
  destruct (Nat.lt_trichotomy (nearest cs q) k) as [H|[H|H]]; [|exact H|].
  - specialize (Hbefore _ H). specialize (Hmin k Hk). lra.
  - specialize (Hfirst _ H). specialize (Hafter (nearest cs q) (conj H Hlt)). lra.
Qed.

Lemma Qsquare_nonneg (u : Q) : 0 <= u * u.
Proof. nra. Qed.

Lemma dist2_nonneg (p q : point) : 0 <= dist2 p q.
Proof.
  unfold dist2.
  pose proof (Qsquare_nonneg (fst p - fst q)).
  pose proof (Qsquare_nonneg (snd p - snd q)). lra.
Qed.

Lemma dist2_refl (p : point) : dist2 p p == 0.
Proof.
  unfold dist2. ring.
Qed.

(** ** Where the labels of the aligned table and of the vote come from *)

Lemma rmap_list_inr {A B} (f : A -> result B) (l : list A) (bs : list B) :
  rmap_list f l = inr bs -> Forall2 (fun a b => f a = inr b) l bs.
Proof.
  revert bs. induction l as [|a l IH]; intros bs H; simpl in H.
  - injection H as <-. constructor.
  - destruct (f a) as [e|b] eqn:Ea; [discriminate|]. simpl in H.
    destruct (rmap_list f l) as [e|bs'] eqn:El; [discriminate|]. simpl in H.
    injection H as <-. constructor; [exact Ea | apply IH; reflexivity].
Qed.

Section LabelFlow.
Context {label : Type} {L : LabelRep label}.

Lemma insert_sorted_in (x y : label) (l : list label) :
  In y (insert_sorted x l) <-> y = x \/ In y l.
Proof.
  induction l as [|z l IH]; simpl.
  - intuition congruence.
  - destruct (lbl_leb x z); simpl; [intuition congruence|].
    rewrite IH. intuition congruence.
Qed.

Lemma sort_labels_in (y : label) (l : list label) :
  In y (sort_labels l) <-> In y l.
Proof.
  induction l as [|x l IH]; simpl; [tauto|].
  rewrite insert_sorted_in, IH. intuition congruence.
Qed.

Lemma groupby_mean_keys (c : list label) (xys : list point) :
  map fst (groupby_mean c xys) = sort_labels (unique c).
Proof.
  unfold groupby_mean. rewrite map_map. simpl. apply map_id.
Qed.

Lemma drop_label_keys {V} (n y : label) (t : list (label * V)) :
  In y (map fst (drop_label n t)) <-> In y (map fst t) /\ y <> n.
Proof.
  unfold drop_label. rewrite !in_map_iff. split.
  - intros ((k, v) & <- & H). apply filter_In in H. destruct H as (H & Hk).
    simpl in *. split; [exists (k, v); auto|].
    apply negb_true_iff, lbl_eqb_neq in Hk. exact Hk.
  - intros (((k, v) & <- & H) & Hn). exists (k, v). split; [reflexivity|].
    apply filter_In. split; [exact H|]. simpl in *.
    apply negb_true_iff, lbl_eqb_neq. exact Hn.
Qed.

(** The keys of a run's centroid table: its distinct non-noise labels. *)
Lemma centroid_keys (c : list label) (xys : list point) (y : label) :
  In y (map fst (drop_label lbl_noise (groupby_mean c xys)))
  <-> In y c /\ y <> lbl_noise.
Proof.
  rewrite drop_label_keys, groupby_mean_keys, sort_labels_in, in_unique. tauto.
Qed.

Lemma lookup_in_combine {V} (l : label) (ks : list label) (vs : list V) (v : V) :
  lookup l (combine ks vs) = Some v -> In v vs.
Proof.
  revert vs. induction ks as [|k ks IH]; intros [|v0 vs] H; simpl in H;
    try discriminate.
  destruct (lbl_eqb k l).
  - injection H as ->. left. reflexivity.
  - right. apply (IH _ H).
Qed.

Lemma aligned_column_in (rc : list (label * point)) (xys : list point)
    (c : list label) (y : label) :
  In y (aligned_column rc xys c) -> y = lbl_noise \/ In y (map fst rc).
Proof.
  unfold aligned_column. rewrite in_map_iff. intros (l & <- & _).
  unfold series_map, remap_table.
  destruct (lookup l _) as [[v|]|] eqn:E; simpl; auto.
  right. apply lookup_in_combine in E. apply in_map_iff in E.
  destruct E as (i & Ei & _). apply nth_error_In in Ei. exact Ei.
Qed.

Lemma aligned_cols_in (ref : nat) (rc : list (label * point)) (xys : list point)
    (cs : list (list label)) (col : list label) :
  In col (aligned_cols ref rc xys cs) ->
  (nth_error cs ref = Some col) \/ exists c, In c cs /\ col = aligned_column rc xys c.
Proof.
  unfold aligned_cols. rewrite in_map_iff. intros ((s, c) & <- & H). simpl.
  apply In_nth_error in H. destruct H as (j & Hj).
  rewrite nth_error_combine_seq in Hj. simpl in Hj.
  destruct (nth_error cs j) as [c'|] eqn:Ec; [|discriminate].
  simpl in Hj. injection Hj as <- <-.
  destruct (Nat.eqb_spec j ref) as [->|Hne]; [left; exact Ec|].
  right. exists c'. split; [eapply nth_error_In; exact Ec | reflexivity].
Qed.

(** The outcome of a successful alignment: the input table when the
    Reference Run has no cluster, the aligned table otherwise. *)
Lemma remap_lbls_inr (solus rel : DataFrame label) (xys : list point) (n_jobs : Z)
    (log : list event) :
  remap_lbls solus xys n_jobs = (log, inr rel) ->
  exists ref,
    reference_run solus = Some ref /\ column solus ref <> [] /\
    ((drop_label lbl_noise (groupby_mean (column solus ref) xys) = [] /\
      rel = solus /\ log = [UserWarning "No clusters identified."])
     \/
     (drop_label lbl_noise (groupby_mean (column solus ref) xys) <> [] /\
      log = [] /\
      rel = mkDF (nrows solus)
                 (aligned_cols ref
                    (drop_label lbl_noise (groupby_mean (column solus ref) xys))
                    xys (cols solus)) /\
      (multi_core n_jobs = false \/ other_columns solus ref <> []))).
Proof.
  intros H.
  destruct (reference_run solus) as [ref|] eqn:Href.
  2:{ unfold remap_lbls in H. rewrite Href in H. discriminate. }
  exists ref. split; [reflexivity|].
  destruct (column solus ref) as [|x t] eqn:Ecol.
  { unfold remap_lbls in H. rewrite Href, Ecol in H. discriminate. }
  split; [discriminate|]. rewrite <- Ecol in *.
  destruct (drop_label lbl_noise (groupby_mean (column solus ref) xys))
    as [|r0 rc'] eqn:Erc.
  - left. split; [reflexivity|].
    unfold remap_lbls in H. rewrite Href, Erc in H.
    destruct (column solus ref); [discriminate|]. simpl in H.
    injection H as <- <-. auto.
  - right. split; [discriminate|].
    destruct (multi_core n_jobs) eqn:Emc.
    + destruct (other_columns solus ref) as [|s0 ss] eqn:Eoc.
      * exfalso. unfold remap_lbls in H. rewrite Href, Erc in H.
        destruct (column solus ref); [discriminate|].
        cbn [length Nat.ltb Nat.leb] in H. rewrite Emc in H.
        unfold remap_parallel in H. rewrite Eoc in H. simpl in H. discriminate.
      * rewrite (remap_lbls_aligned solus xys n_jobs ref Href) in H.
        -- rewrite Erc in H. injection H as <- <-.
           repeat split. right. discriminate.
        -- rewrite Ecol. discriminate.
        -- rewrite Erc. discriminate.
        -- right. rewrite Eoc. discriminate.
    + rewrite (remap_lbls_aligned solus xys n_jobs ref Href) in H.
      * rewrite Erc in H. injection H as <- <-. repeat split. left. reflexivity.
      * rewrite Ecol. discriminate.
      * rewrite Erc. discriminate.
      * left. exact Emc.
Qed.

(** Every cell of the table a successful alignment returns is the noise
    sentinel or a cell of the table it was given. *)
Lemma remap_lbls_cells (solus rel : DataFrame label) (xys : list point) (n_jobs : Z)
    (log : list event) (P : label -> Prop) :
  remap_lbls solus xys n_jobs = (log, inr rel) ->
  P lbl_noise ->
  Forall (Forall P) (cols solus) ->
  nrows rel = nrows solus /\ Forall (Forall P) (cols rel).
Proof.
  intros H Hn Hall.
  destruct (remap_lbls_inr _ _ _ _ _ H) as (ref & Href & Hcol & [(_ & -> & _)|(_ & _ & -> & _)]).
  - split; [reflexivity | exact Hall].
  - split; [reflexivity|]. simpl.
    rewrite Forall_forall in *. intros col Hin.
    apply aligned_cols_in in Hin. destruct Hin as [Hin|(c & Hc & ->)].
    + apply Hall. eapply nth_error_In; exact Hin.
    + rewrite Forall_forall. intros y Hy. apply aligned_column_in in Hy.
      destruct Hy as [->|Hy]; [exact Hn|].
      apply centroid_keys in Hy. destruct Hy as (Hy & _).
      assert (Hrefcol : In (column solus ref) (cols solus)).
      { unfold column. apply nth_In. unfold reference_run in Href.
        apply first_index_spec in Href. destruct Href as (a & Ha & _).
        rewrite <- (length_map n_unique). apply nth_error_Some.
        unfold ns_clusters in Ha. congruence. }
      specialize (Hall _ Hrefcol). rewrite Forall_forall in Hall. apply Hall, Hy.
Qed.

Lemma row_at_in (cs : list (list label)) (i : nat) (w : label) :
  In w (row_at cs i) -> exists c, In c cs /\ In w c.
Proof.
  unfold row_at. rewrite in_flat_map. intros (c & Hc & Hw). exists c.
  split; [exact Hc|].
  destruct (nth_error c i) as [x|] eqn:E; simpl in Hw; [|contradiction].
  destruct Hw as [<-|[]]. eapply nth_error_In; exact E.
Qed.

(** A successful vote returns one winner and one share per row, and every
    winner is a cell of the table. *)
Lemma ensemble_inr (df : DataFrame label) (votes : Votes) :
  ensemble df = inr votes ->
  length (lbls votes) = nrows df /\ length (pct votes) = nrows df /\
  forall w, In w (lbls votes) -> exists c, In c (cols df) /\ In w c.
Proof.
  unfold ensemble. intros H.
  destruct (rmap_list _ (values df)) as [e|counts] eqn:Ec; [discriminate|].
  simpl in H. destruct counts as [|c0 cs] eqn:Ecs; [discriminate|].
  rewrite <- Ecs in *. injection H as <-. simpl.
  apply rmap_list_inr in Ec.
  assert (Hlen : length counts = nrows df).
  { apply Forall2_length in Ec. unfold values in Ec.
    rewrite length_map, length_seq in Ec. congruence. }
  rewrite !length_map. split; [exact Hlen|]. split; [exact Hlen|].
  intros w Hw. apply in_map_iff in Hw. destruct Hw as ((w', n) & Ew & Hin).
  simpl in Ew. subst w'.
  assert (Hrow : exists row, In row (values df) /\
                   match most_common_1 (Counter row) with
                   | [] => inl IndexError
                   | x :: _ => inr x
                   end = inr (w, n)).
  { clear - Ec Hin. induction Ec as [|row c rows cs' Hf _ IH]; [destruct Hin|].
    destruct Hin as [->|Hin].
    - exists row. split; [left; reflexivity | exact Hf].
    - destruct (IH Hin) as (r & Hr & Hfr). exists r. split; [right; exact Hr | exact Hfr]. }
  destruct Hrow as (row & Hrow & Hf).
  assert (Hne : row <> []).
  { intros ->. discriminate. }
  destruct (most_common_row row Hne) as (w0 & Ew0 & _ & _ & Hcnt).
  rewrite Ew0 in Hf. injection Hf as -> _.
  assert (Hw : In w row) by (apply (count_occ_In lbl_eq_dec); lia).
  unfold values in Hrow. apply in_map_iff in Hrow. destruct Hrow as (i & <- & _).
  apply row_at_in in Hw. exact Hw.
Qed.

End LabelFlow.

(** ** [fit]: the draws, and the labels that reach the estimator *)

Lemma str_noise : @lbl_noise string _ = "-1"%string.
Proof. reflexivity. Qed.

Lemma is_cast_noise : is_cast lbl_noise.
Proof. exists (-1)%Z. reflexivity. Qed.

Lemma rbind_inr {A B} (m : result A) (k : A -> result B) (b : B) :
  rbind m k = inr b -> exists a, m = inr a /\ k a = inr b.
Proof.
  destruct m as [e|a]; simpl; [discriminate|]. intros H. exists a. auto.
Qed.

Section FitFacts.
Variable rng : Type.
Variable shuffle : rng -> nat -> list nat * rng.
Variable DBSCAN :
  Q -> Z -> string -> Z -> list point -> option (list Q) -> result (list Z).

Lemma bind_inr {A B} (m : M rng A) (k : A -> M rng B) (g g' : rng)
    (log : list event) (b : B) :
  bind m k g = (g', log, inr b) ->
  exists g1 l1 a l2,
    m g = (g1, l1, inr a) /\ k a g1 = (g', l2, inr b) /\ log = l1 ++ l2.
Proof.
  unfold bind. intros H.
  destruct (m g) as [[g1 l1] [e|a]]; [discriminate|].
  destruct (k a g1) as [[g2 l2] r] eqn:Ek.
  injection H as <- <- ->. exists g1, l1, a, l2. auto.
Qed.

Lemma for_each_inv {S} (I : nat -> S -> Prop) (body : nat -> S -> M rng S) :
  (forall i s g g' log s',
      I i s -> body i s g = (g', log, inr s') -> I (Datatypes.S i) s') ->
  forall k a s g g' log s',
    I a s -> for_each (seq a k) body s g = (g', log, inr s') -> I (a + k)%nat s'.
Proof.
  intros Hstep. induction k as [|k IH]; intros a s g g' log s' Ha H; simpl in H.
  - unfold ret in H. injection H as _ _ <-. rewrite Nat.add_0_r. exact Ha.
  - apply bind_inr in H. destruct H as (g1 & l1 & s1 & l2 & H1 & H2 & _).
    replace (a + Datatypes.S k)%nat with (Datatypes.S a + k)%nat by lia.
    eapply IH; [|exact H2]. eapply Hstep; [exact Ha | exact H1].
Qed.

(** What a successful draw returns: the label, cast to a string, that the
    density primitive gave to the nearest sampled point of each point. *)
Lemma one_draw_inr (n : nat) (X : list point) (sw : option (list Q)) (pct e : Q)
    (ms : Z) (alg : string) (nj : Z) (g g' : rng) (log : list event)
    (pred : list string) :
  _one_draw shuffle DBSCAN n X sw pct e ms alg nj g = (g', log, inr pred) ->
  exists (X_thin : list point) (w_thin : option (list Q)) (lab : list Z),
    iloc X (py_slice_to (py_int (Q_of_nat n * pct)) (fst (shuffle g n))) = inr X_thin /\
    DBSCAN e (if Qltb (inject_Z ms * pct) 1 then 1%Z else Qfloor (inject_Z ms * pct))
           alg nj X_thin w_thin = inr lab /\
    X_thin <> [] /\ length lab = length X_thin /\
    pred = map (fun x => nth (nearest X_thin x) (map str lab) EmptyString) X /\
    g' = snd (shuffle g n) /\ log = [].
Proof.
  unfold _one_draw. destruct (shuffle g n) as [rids g1]. cbn [fst snd].
  intros H. injection H as <- <- H.
  apply rbind_inr in H. destruct H as (X_thin & HX & H).
  apply rbind_inr in H. destruct H as (w_thin & _ & H).
  apply rbind_inr in H. destruct H as (lab & Hdb & H).
  apply rbind_inr in H. destruct H as (lbls_thin & Hs & H).
  unfold Series in Hs. rewrite length_map in Hs.
  destruct (Nat.eqb_spec (length lab) (length X_thin)) as [Hlen|]; [|discriminate].
  injection Hs as <-. unfold KNeighborsClassifier_1 in H.
  destruct X_thin as [|x0 X_thin']; [discriminate|].
  injection H as <-.
  exists (x0 :: X_thin'), w_thin, lab.
  repeat split; try reflexivity; try assumption. discriminate.
Qed.

Lemma one_draw_cast (n : nat) (X : list point) (sw : option (list Q)) (pct e : Q)
    (ms : Z) (alg : string) (nj : Z) (g g' : rng) (log : list event)
    (pred : list string) :
  _one_draw shuffle DBSCAN n X sw pct e ms alg nj g = (g', log, inr pred) ->
  length pred = length X /\ Forall is_cast pred.
Proof.
  intros H. apply one_draw_inr in H.
  destruct H as (X_thin & w_thin & lab & _ & _ & Hne & Hlen & -> & _).
  split; [apply length_map|].
  apply Forall_forall. intros s Hs. apply in_map_iff in Hs.
  destruct Hs as (x & <- & _).
  exists (nth (nearest X_thin x) lab 0%Z).
  apply nth_map_in. rewrite Hlen. apply nearest_lt, Hne.
Qed.

(** After the loop every column of the label matrix is a draw. *)
Lemma draws_columns (self : ADBSCAN) (X : list point) (sw : option (list Q))
    (g g' : rng) (log : list event) (solus : DataFrame string) :
  draws shuffle DBSCAN self (length X) X sw
    (mkDF (length X) (repeat (repeat EmptyString (length X)) (Z.to_nat (reps self)))) g
  = (g', log, inr solus) ->
  nrows solus = length X /\ length (cols solus) = Z.to_nat (reps self) /\
  Forall (fun c => length c = length X /\ Forall is_cast c) (cols solus).
Proof.
  intros H. unfold draws in H.
  set (R := Z.to_nat (reps self)) in *.
  set (I := fun (i : nat) (s : DataFrame string) =>
              nrows s = length X /\ length (cols s) = R /\
              forall j c, (j < i)%nat -> nth_error (cols s) j = Some c ->
                          length c = length X /\ Forall is_cast c).
  assert (HI : I (0 + R)%nat solus).
  { eapply (for_each_inv I); [| |exact H].
    - clear. intros i s g g' log s' (Hn & HR & Hcols) Hbody.
      apply bind_inr in Hbody. destruct Hbody as (g1 & l1 & [] & l2 & _ & Hbody & _).
      apply bind_inr in Hbody. destruct Hbody as (g2 & l3 & pred & l4 & Hd & Hret & _).
      unfold ret in Hret. injection Hret as _ _ <-.
      apply one_draw_cast in Hd.
      split; [exact Hn|]. split; [simpl; rewrite update_length; exact HR|].
      intros j c Hj Hc. simpl in Hc. rewrite nth_error_update in Hc.
      destruct (Nat.eqb_spec j i) as [->|Hne].
      + destruct (i <? length (cols s))%nat; [|discriminate].
        injection Hc as <-. exact Hd.
      + apply (Hcols j c); [lia | exact Hc].
    - split; [reflexivity|]. split; [simpl; apply repeat_length|].
      intros j c Hj. lia. }
  destruct HI as (Hn & HR & Hcols). split; [exact Hn|]. split; [exact HR|].
  apply Forall_forall. intros c Hc. apply In_nth_error in Hc.
  destruct Hc as (j & Hj). apply (Hcols j c); [|exact Hj].
  simpl. rewrite <- HR. apply nth_error_Some. congruence.
Qed.

(** The stages a successful [fit_consensus] went through. *)
Lemma fit_consensus_inr (self : ADBSCAN) (X : list point) (sw : option (list Q))
    (g g' : rng) (log : list event)
    (solus rel : DataFrame string) (votes : @Votes string) :
  fit_consensus shuffle DBSCAN self X sw g = (g', log, inr (solus, rel, votes)) ->
  exists l1 lw,
    draws shuffle DBSCAN self (length X) X sw
      (mkDF (length X) (repeat (repeat EmptyString (length X)) (Z.to_nat (reps self)))) g
    = (g', l1, inr solus) /\
    remap_lbls solus X (n_jobs self) = (lw, inr rel) /\
    ensemble rel = inr votes.
Proof.
  unfold fit_consensus. intros H.
  destruct (reps self <? 0)%Z; [discriminate|].
  apply bind_inr in H. destruct H as (g1 & l1 & s & l2 & Hd & H & _).
  apply bind_inr in H. destruct H as (g2 & l3 & [] & l4 & He & H & _).
  unfold emit in He. injection He as <- _.
  apply bind_inr in H. destruct H as (g3 & l5 & r & l6 & Hr & H & _).
  unfold lift_log in Hr. injection Hr as <- <- Hr.
  apply bind_inr in H. destruct H as (g4 & l7 & [] & l8 & He & H & _).
  unfold emit in He. injection He as <- _.
  apply bind_inr in H. destruct H as (g5 & l9 & v & l10 & Hv & H & _).
  unfold lift in Hv. injection Hv as <- _ Hv.
  unfold ret in H. injection H as <- _ <- <- <-.
  assert (Hdraws : exists l, draws shuffle DBSCAN self (length X) X sw
            (mkDF (length X) (repeat (repeat EmptyString (length X))
                                     (Z.to_nat (reps self)))) g
          = (g1, l, inr s)).
  { destruct (multi_core (n_jobs self)).
    - apply bind_inr in Hd. destruct Hd as (g0 & l0 & [] & l0' & He & Hd & _).
      unfold emit in He. injection He as <- _. eexists; exact Hd.
    - eexists; exact Hd. }
  destruct Hdraws as (l & Hl). exists l, (fst (remap_lbls s X (n_jobs self))).
  split; [exact Hl|]. split; [|exact Hv].
  destruct (remap_lbls s X (n_jobs self)) as [lw rr]. simpl in *. subst rr. reflexivity.
Qed.

Lemma threshold_cells (noise : string) (thr : Q) (ls : list string) (ps : list Q)
    (P : string -> Prop) :
  P noise -> Forall P ls -> Forall P (threshold noise thr ls ps).
Proof.
  intros Hn Hls. unfold threshold. apply Forall_forall. intros y Hy.
  apply in_map_iff in Hy. destruct Hy as ((l, p) & <- & Hin). simpl.
  destruct (Qltb p thr); [exact Hn|].
  apply in_combine_l in Hin. rewrite Forall_forall in Hls. apply Hls, Hin.
Qed.

(** C10.  After a successful [fit] every entry of [labels_], and of [solus]
    and [solus_relabelled] when they are kept, is the string form of an
    integer label; the noise sentinel of the string representation, which
    the threshold writes, is ["-1"]. *)
Theorem fit_labels_are_strings (self : ADBSCAN) (X : list point)
    (sw : option (list Q)) (g g' : rng) (log : list event) (est : Fitted) :
  fit shuffle DBSCAN self X sw g = (g', log, inr est) ->
  length (labels_ est) = length X /\
  Forall is_cast (labels_ est) /\
  (forall df, solus_ est = Some df -> Forall (Forall is_cast) (cols df)) /\
  (forall df, solus_relabelled_ est = Some df -> Forall (Forall is_cast) (cols df)) /\
  @lbl_noise string _ = "-1"%string /\
  (forall i p, nth_error (pct (votes_ est)) i = Some p -> p < pct_thr self ->
               nth_error (labels_ est) i = Some "-1"%string).
Proof.
  intros H. unfold fit in H.
  apply bind_inr in H. destruct H as (g1 & l1 & [[solus rel] votes] & l2 & Hc & H & _).
  destruct (cols solus) as [|[|c0 c] cs] eqn:Ecols;
    try (unfold raise in H; discriminate).
  unfold ret in H. injection H as _ _ <-. simpl.
  apply fit_consensus_inr in Hc. destruct Hc as (ld & lw & Hd & Hr & Hv).
  apply draws_columns in Hd. destruct Hd as (Hn & HR & Hcols).
  assert (Hsolus : Forall (Forall is_cast) (cols solus)).
  { eapply Forall_impl; [|exact Hcols]. intros c1 Hc1. apply Hc1. }
  destruct (remap_lbls_cells _ _ _ _ _ is_cast Hr is_cast_noise Hsolus) as (Hnr & Hrel).
  apply ensemble_inr in Hv. destruct Hv as (Hl1 & Hl2 & Hwin).
  assert (Hvotes : Forall is_cast (lbls votes)).
  { apply Forall_forall. intros w Hw. destruct (Hwin w Hw) as (c1 & Hc1 & Hwc).
    rewrite Forall_forall in Hrel. specialize (Hrel _ Hc1).
    rewrite Forall_forall in Hrel. apply Hrel, Hwc. }
  split.
  { unfold threshold. rewrite length_map, length_combine, Hl1, Hl2, Nat.min_id.
    congruence. }
  split; [apply threshold_cells; [exact is_cast_noise | exact Hvotes]|].
  split.
  { intros df Hdf. destruct (keep_solus self); [|discriminate].
    injection Hdf as <-. exact Hsolus. }
  split.
  { intros df Hdf. destruct (keep_solus self); [|discriminate].
    injection Hdf as <-. exact Hrel. }
  split; [reflexivity|].
  intros i p Hp Hlt. unfold threshold. rewrite nth_error_map.
  assert (Hi : (i < length (lbls votes))%nat).
  { rewrite Hl1, <- Hl2. apply nth_error_Some. congruence. }
  destruct (nth_error (lbls votes) i) as [l|] eqn:El;
    [|apply nth_error_None in El; lia].
  assert (Hcomb : nth_error (combine (lbls votes) (pct votes)) i = Some (l, p)).
  { clear - El Hp. revert i El Hp.
    generalize (pct votes). induction (lbls votes) as [|a ls IH];
      intros ps [|i] El Hp; destruct ps; simpl in *; try discriminate.
    - congruence.
    - apply IH; assumption. }
  rewrite Hcomb. simpl. apply Qltb_lt in Hlt. rewrite Hlt. reflexivity.
Qed.

End FitFacts.

Lemma fit_labels_are_strings_witness :
  let self := mkADBSCAN 1 4 "auto" 1 (1 # 2) 3 true (9 # 10) in
  exists (g' : script) (log : list event) (est : Fitted),
    fit scripted_shuffle sklearn_DBSCAN self four_points None three_draws
    = (g', log, inr est) /\
    labels_ est = ["-1"; "-1"; "-1"; "-1"]%string /\
    solus_ est = Some (mkDF 4 [["-1"; "-1"; "-1"; "-1"]; ["0"; "0"; "0"; "0"];
                               ["0"; "0"; "0"; "0"]]%string) /\
    length (labels_ est) = length four_points /\
    Forall is_cast (labels_ est) /\
    (forall df, solus_ est = Some df -> Forall (Forall is_cast) (cols df)) /\
    (forall df, solus_relabelled_ est = Some df -> Forall (Forall is_cast) (cols df)) /\
    @lbl_noise string _ = "-1"%string /\
    (forall i p, nth_error (pct (votes_ est)) i = Some p -> p < pct_thr self ->
                 nth_error (labels_ est) i = Some "-1"%string).
Proof.
  cbv zeta. do 3 eexists.
  split; [vm_compute; reflexivity|].
  split; [reflexivity|]. split; [reflexivity|].
  eapply (fit_labels_are_strings script scripted_shuffle sklearn_DBSCAN
            (mkADBSCAN 1 4 "auto" 1 (1 # 2) 3 true (9 # 10))
            four_points None three_draws).
  vm_compute. reflexivity.
Defined.

(** With [reps = 0] the call reaches the alignment step, which raises; with
    an empty point set it reaches the first draw, where the density primitive
    refuses the empty sample.  Neither failure precedes the work. *)
Lemma fit_fails_inside_the_stages :
  fit scripted_shuffle sklearn_DBSCAN
      (mkADBSCAN 1 4 "auto" 1 (1 # 2) 0 false (9 # 10)) two_far_points None []
  = ([], [Enter "remap_lbls"], inl IndexError) /\
  fit scripted_shuffle sklearn_DBSCAN
      (mkADBSCAN 1 4 "auto" 1 (1 # 2) 1 false (9 # 10)) [] None []
  = ([], [Enter "_one_draw"], inl ValueError) /\
  ~ failed_before_work
      (fit scripted_shuffle sklearn_DBSCAN
           (mkADBSCAN 1 4 "auto" 1 (1 # 2) 0 false (9 # 10)) two_far_points None []) /\
  ~ failed_before_work
      (fit scripted_shuffle sklearn_DBSCAN
           (mkADBSCAN 1 4 "auto" 1 (1 # 2) 1 false (9 # 10)) [] None []).
Proof.
  split; [vm_compute; reflexivity|]. split; [vm_compute; reflexivity|].
  split; intros (_ & H); vm_compute in H; discriminate.
Qed.

Lemma py_int_zero (q : Q) : py_int (Q_of_nat 0 * q) = 0%Z.
Proof.
  unfold py_int, Q_of_nat, Qle_bool, Qfloor, Qceiling, Qmult, Qopp. simpl.
  destruct (Qnum q); reflexivity.
Qed.

Section FitFailures.
Variable rng : Type.
Variable shuffle : rng -> nat -> list nat * rng.
Variable DBSCAN :
  Q -> Z -> string -> Z -> list point -> option (list Q) -> result (list Z).

(** A draw over an empty point set raises: the density primitive refuses the
    empty sample, or the classifier does. *)
Lemma one_draw_empty (sw : option (list Q)) (pct e : Q) (ms : Z) (alg : string)
    (nj : Z) (g : rng) :
  exists err, _one_draw shuffle DBSCAN 0 [] sw pct e ms alg nj g
              = (snd (shuffle g 0), [], inl err).
Proof.
  unfold _one_draw. destruct (shuffle g 0%nat) as [rids g1]. cbn [snd].
  rewrite py_int_zero. unfold py_slice_to. cbn [Z.ltb Z.compare Z.to_nat firstn].
  destruct sw as [w|]; cbn [iloc rmap_list rbind];
    (destruct (DBSCAN _ _ _ _ _ _) as [err|lab]; cbn [rbind]; [eexists; reflexivity|];
     unfold Series; rewrite length_map;
     destruct lab; cbn [length Nat.eqb rbind KNeighborsClassifier_1];
     eexists; reflexivity).
Qed.

(** C2 (as the code has it).  With [reps = 0] or an empty point set [fit]
    always raises, but not through a check of its configuration: with
    [reps = 0] no draw is made, the random state is untouched and the
    IndexError comes from the alignment step, the one stage entered; with an
    empty point set and [reps >= 1] the exception is raised inside the first
    draw, the one stage entered. *)
Theorem fit_raises_on_empty_input (self : ADBSCAN) (X : list point)
    (sw : option (list Q)) (g : rng) :
  (reps self = 0)%Z \/ X = [] ->
  exists (g' : rng) (log : list event) (e : exn),
    fit shuffle DBSCAN self X sw g = (g', log, inl e) /\
    ((reps self = 0)%Z ->
       g' = g /\ e = IndexError /\ filter is_enter log = [Enter "remap_lbls"]) /\
    (X = [] -> (1 <= reps self)%Z -> filter is_enter log = [Enter "_one_draw"]).
Proof.
  intros Hin.
  destruct (Z.eq_dec (reps self) 0) as [H0|Hn0].
  - exists g.
    unfold fit, fit_consensus, draws. rewrite H0. cbn [Z.ltb Z.compare Z.to_nat seq repeat for_each].
    destruct (multi_core (n_jobs self));
      (eexists; exists IndexError; split; [reflexivity|]; split;
       [intros _; repeat split | intros _ Hr; lia]).
  - destruct Hin as [H0|HX]; [contradiction|]. subst X.
    destruct (Z.ltb_spec (reps self) 0) as [Hneg|Hpos].
    + exists g, [], ValueError. unfold fit, fit_consensus.
      rewrite (proj2 (Z.ltb_lt _ _) Hneg). split; [reflexivity|].
      split; [intros H; contradiction | intros _ H; lia].
    + destruct (one_draw_empty sw (pct_exact self) (eps self) (min_samples self)
                  (algorithm self) (n_jobs self) g) as (err & Herr).
      exists (snd (shuffle g 0%nat)).
      unfold fit, fit_consensus, draws.
      rewrite (proj2 (Z.ltb_ge _ _) Hpos).
      destruct (Z.to_nat (reps self)) as [|k] eqn:Ek; [lia|].
      cbn [seq for_each length].
      destruct (multi_core (n_jobs self));
        unfold bind at 1; unfold bind at 1; unfold bind at 1;
        cbn [emit]; rewrite ?Herr;
        (eexists; exists err; split; [unfold bind; cbn [emit]; rewrite ?Herr; reflexivity|];
         split; [intros H; contradiction | intros _ _; reflexivity]).
Qed.

End FitFailures.

Lemma fit_raises_on_empty_input_witness :
  let self := mkADBSCAN 1 4 "auto" 1 (1 # 2) 0 false (9 # 10) in
  ((reps self = 0)%Z \/ two_far_points = []) /\
  exists (g' : script) (log : list event) (e : exn),
    fit scripted_shuffle sklearn_DBSCAN self two_far_points None [] = (g', log, inl e) /\
    ((reps self = 0)%Z ->
       g' = [] /\ e = IndexError /\ filter is_enter log = [Enter "remap_lbls"]) /\
    (two_far_points = [] -> (1 <= reps self)%Z ->
       filter is_enter log = [Enter "_one_draw"]).
Proof.
  cbv zeta. split; [left; reflexivity|].
  apply (fit_raises_on_empty_input script scripted_shuffle sklearn_DBSCAN
           (mkADBSCAN 1 4 "auto" 1 (1 # 2) 0 false (9 # 10)) two_far_points None []).
  left. reflexivity.
Defined.

(** ** One draw over the whole point set *)

Lemma py_int_full (n : nat) (pct : Q) :
  pct == 1 -> py_int (Q_of_nat n * pct) = Z.of_nat n.
Proof.
  intros Hp. unfold py_int.
  assert (E : Q_of_nat n * pct == inject_Z (Z.of_nat n)).
  { unfold Q_of_nat. rewrite Hp. ring. }
  assert (Hle : Qle_bool 0 (Q_of_nat n * pct) = true).
  { apply Qle_bool_iff. rewrite E. change 0 with (inject_Z 0).
    rewrite <- Zle_Qle. lia. }
  rewrite Hle, E. apply Qfloor_Z.
Qed.

Lemma min_samples_full (ms : Z) (pct : Q) :
  pct == 1 ->
  (if Qltb (inject_Z ms * pct) 1 then 1%Z else Qfloor (inject_Z ms * pct)) = Z.max 1 ms.
Proof.
  intros Hp.
  assert (E : inject_Z ms * pct == inject_Z ms) by (rewrite Hp; ring).
  destruct (Qltb (inject_Z ms * pct) 1) eqn:El.
  - apply Qltb_lt in El. rewrite E in El. change 1 with (inject_Z 1) in El.
    rewrite <- Zlt_Qlt in El. lia.
  - apply Qltb_nlt in El. rewrite E in El. change 1 with (inject_Z 1) in El.
    rewrite <- Zlt_Qlt in El. rewrite E, Qfloor_Z. lia.
Qed.

Lemma iloc_in_range {A} (l : list A) (d : A) (rids : list nat) :
  Forall (fun i => (i < length l)%nat) rids ->
  iloc l rids = inr (map (fun i => nth i l d) rids).
Proof.
  intros H. unfold iloc. apply rmap_list_ok. intros i Hi.
  rewrite Forall_forall in H. specialize (H i Hi).
  rewrite (nth_error_nth' l d H). reflexivity.
Qed.

Lemma values_single_column {A} (c : list A) :
  values (mkDF (length c) [c]) = map (fun x => [x]) c.
Proof.
  unfold values. simpl. apply nth_error_ext. intros i.
  rewrite !nth_error_map, nth_error_seq.
  destruct (Nat.ltb_spec i (length c)) as [Hi|Hi].
  - simpl. unfold row_at. simpl.
    destruct (nth_error c i) eqn:E; [reflexivity|].
    apply nth_error_None in E. lia.
  - rewrite (proj2 (nth_error_None c i) Hi). reflexivity.
Qed.

Section SingleColumn.
Context {label : Type} {L : LabelRep label}.

Lemma reference_run_single (n : nat) (c : list label) :
  reference_run (mkDF n [c]) = Some 0%nat.
Proof.
  unfold reference_run, ns_clusters. simpl.
  rewrite Nat.max_0_r, Nat.eqb_refl. reflexivity.
Qed.

(** Aligning a one-column table sequentially returns the table. *)
Lemma remap_lbls_single_column (n : nat) (c : list label) (xys : list point)
    (n_jobs : Z) :
  c <> [] -> multi_core n_jobs = false ->
  exists log, remap_lbls (mkDF n [c]) xys n_jobs = (log, inr (mkDF n [c])).
Proof.
  intros Hc Hseq.
  destruct (drop_label lbl_noise (groupby_mean c xys)) as [|r0 rc] eqn:Erc.
  - exists [UserWarning "No clusters identified."].
    unfold remap_lbls. rewrite reference_run_single.
    change (column (mkDF n [c]) 0) with c. rewrite Erc.
    destruct c; [congruence | reflexivity].
  - exists []. rewrite (remap_lbls_aligned (mkDF n [c]) xys n_jobs 0).
    + reflexivity.
    + apply reference_run_single.
    + exact Hc.
    + change (column (mkDF n [c]) 0) with c. rewrite Erc. discriminate.
    + left. exact Hseq.
Qed.

(** The vote over a single run: every point keeps its label, with share 1. *)
Lemma ensemble_single_column (c : list label) :
  c <> [] ->
  ensemble (mkDF (length c) [c])
  = inr (mkVotes c (map (fun _ => Q_of_nat 1 / Q_of_nat 1) c)).
Proof.
  intros Hc. unfold ensemble. rewrite values_single_column.
  rewrite (rmap_list_ok _ (fun row : list label => (hd lbl_zero row, 1%nat))).
  2:{ intros a Ha. apply in_map_iff in Ha. destruct Ha as (x & <- & _).
      unfold Counter. simpl. reflexivity. }
  rewrite !map_map. simpl.
  destruct c as [|x c']; [congruence|]. simpl.
  rewrite !map_map. simpl. rewrite map_id. reflexivity.
Qed.

End SingleColumn.

Section SingleDraw.
Variable rng : Type.
Variable shuffle : rng -> nat -> list nat * rng.
Variable DBSCAN :
  Q -> Z -> string -> Z -> list point -> option (list Q) -> result (list Z).

Lemma one_draw_full (X : list point) (sw : option (list Q)) (pct e : Q) (ms : Z)
    (alg : string) (nj : Z) (g g' : rng) (rids : list nat) (lab : list Z) :
  X <> [] -> pct == 1 ->
  shuffle g (length X) = (rids, g') ->
  Permutation rids (seq 0 (length X)) ->
  (forall w, sw = Some w -> length w = length X) ->
  DBSCAN e (Z.max 1 ms) alg nj (shuffled X rids) (shuffled_weights sw rids) = inr lab ->
  length lab = length X ->
  _one_draw shuffle DBSCAN (length X) X sw pct e ms alg nj g
  = (g', [],
     inr (map (fun x => nth (nearest (shuffled X rids) x) (map str lab) EmptyString) X)).
Proof.
  intros HX Hp Hsh Hperm Hw Hdb Hlab.
  assert (Hlen : length rids = length X).
  { rewrite (Permutation_length Hperm). apply length_seq. }
  assert (Hrange : Forall (fun i => (i < length X)%nat) rids).
  { apply Forall_forall. intros i Hi.
    apply (Permutation_in _ Hperm), in_seq in Hi. lia. }
  unfold _one_draw. rewrite Hsh, (py_int_full _ _ Hp), (min_samples_full _ _ Hp).
  unfold py_slice_to.
  destruct (Z.ltb_spec (Z.of_nat (length X)) 0) as [Hneg|_]; [lia|].
  rewrite Nat2Z.id, <- Hlen, firstn_all.
  rewrite (iloc_in_range X (0, 0) rids Hrange). cbn [rbind].
  assert (Hwt : match sw with
                | Some w => rbind (iloc w rids) (fun tw => inr (Some tw))
                | None => inr None
                end = inr (shuffled_weights sw rids)).
  { destruct sw as [w|]; [|reflexivity].
    rewrite (iloc_in_range w 0 rids); [reflexivity|].
    rewrite (Hw w eq_refl). exact Hrange. }
  rewrite Hwt. cbn [rbind]. fold (shuffled X rids). rewrite Hdb. cbn [rbind].
  unfold Series. rewrite length_map.
  assert (Hthin : length (shuffled X rids) = length X)
    by (unfold shuffled; rewrite length_map; exact Hlen).
  rewrite Hlab, Hthin, Nat.eqb_refl. cbn [rbind].
  unfold KNeighborsClassifier_1.
  destruct (shuffled X rids) as [|x0 t] eqn:E; [|reflexivity].
  destruct X; [congruence | simpl in Hthin; lia].
Qed.

(** C8 (as the code has it).  A sequential fit with [reps = 1] and
    [pct_exact = 1] clusters the whole point set once, in the order the
    shuffle of the draw put it, with the minimum-neighbour count floored at 1.
    When the primitive labels coincident points alike, the consensus label of
    the point drawn at position [j] is the string form of the [j]-th label of
    that run, and every share is 1. *)
Theorem fit_single_full_draw (self : ADBSCAN) (X : list point)
    (sw : option (list Q)) (g g' : rng) (rids : list nat) (lab : list Z) :
  X <> [] ->
  reps self = 1%Z -> pct_exact self == 1 -> multi_core (n_jobs self) = false ->
  shuffle g (length X) = (rids, g') ->
  Permutation rids (seq 0 (length X)) ->
  (forall w, sw = Some w -> length w = length X) ->
  DBSCAN (eps self) (Z.max 1 (min_samples self)) (algorithm self) (n_jobs self)
         (shuffled X rids) (shuffled_weights sw rids) = inr lab ->
  length lab = length X ->
  (forall j k, (j < length X)%nat -> (k < length X)%nat ->
     dist2 (nth j (shuffled X rids) (0, 0)) (nth k (shuffled X rids) (0, 0)) == 0 ->
     nth j lab 0%Z = nth k lab 0%Z) ->
  exists (log : list event) (solus rel : DataFrame string) (votes : @Votes string),
    fit_consensus shuffle DBSCAN self X sw g = (g', log, inr (solus, rel, votes)) /\
    length (lbls votes) = length X /\
    (forall j, (j < length X)%nat ->
       nth (nth j rids 0%nat) (lbls votes) EmptyString = str (nth j lab 0%Z)) /\
    Forall (fun p => p == 1) (pct votes).
Proof.
  intros HX Hreps Hp Hseq Hsh Hperm Hw Hdb Hlab Hco.
  set (pred := map (fun x => nth (nearest (shuffled X rids) x) (map str lab) EmptyString) X).
  assert (Hpl : length pred = length X) by (unfold pred; apply length_map).
  assert (Hpne : pred <> []).
  { intros E. rewrite E in Hpl. destruct X; [congruence | discriminate]. }
  destruct (remap_lbls_single_column (length X) pred X (n_jobs self) Hpne Hseq)
    as (lw & Hr).
  pose proof (ensemble_single_column pred Hpne) as Hv. rewrite Hpl in Hv.
  eexists. exists (mkDF (length X) [pred]), (mkDF (length X) [pred]).
  exists (mkVotes pred (map (fun _ => Q_of_nat 1 / Q_of_nat 1) pred)).
  split.
  - unfold fit_consensus, draws. rewrite Hreps, Hseq.
    change (Z.to_nat 1) with 1%nat. change (1 <? 0)%Z with false.
    cbn [seq repeat for_each].
    unfold bind, emit, ret, lift, lift_log.
    rewrite (one_draw_full X sw (pct_exact self) (eps self) (min_samples self)
               (algorithm self) (n_jobs self) g g' rids lab HX Hp Hsh Hperm Hw Hdb Hlab).
    fold pred. cbn [app].
    change (set_col (mkDF (length X) [repeat EmptyString (length X)]) 0 pred)
      with (mkDF (length X) [pred]).
    rewrite Hr. cbn [fst snd]. rewrite Hv. reflexivity.
  - cbn [lbls pct]. split; [exact Hpl|]. split.
    + intros j Hj.
      assert (Hlen : length rids = length X).
      { rewrite (Permutation_length Hperm). apply length_seq. }
      assert (Hi : (nth j rids 0 < length X)%nat).
      { assert (Hin : In (nth j rids 0%nat) rids) by (apply nth_In; lia).
        apply (Permutation_in _ Hperm), in_seq in Hin. lia. }
      assert (Hthin : length (shuffled X rids) = length X)
        by (unfold shuffled; rewrite length_map; exact Hlen).
      assert (Hne : shuffled X rids <> []).
      { intros E. rewrite E in Hthin. destruct X; [congruence | discriminate]. }
      unfold pred. rewrite (nth_map_in _ X _ _ (0, 0) Hi).
      assert (Eq : nth (nth j rids 0%nat) X (0, 0) = nth j (shuffled X rids) (0, 0)).
      { unfold shuffled. symmetry.
        apply (nth_map_in (fun i => nth i X (0, 0)) rids j (0, 0) 0%nat). lia. }
      rewrite Eq.
      set (q := nth j (shuffled X rids) (0, 0)).
      destruct (nearest_spec (shuffled X rids) q (0, 0) Hne) as (Hk & Hmin & _).
      rewrite (nth_map_in str lab _ _ 0%Z) by (rewrite Hlab, <- Hthin; exact Hk).
      f_equal. symmetry. apply Hco; [exact Hj | rewrite <- Hthin; exact Hk |].
      specialize (Hmin j ltac:(lia)). fold q in Hmin. fold q.
      pose proof (dist2_refl q) as H0.
      pose proof (dist2_nonneg q (nth (nearest (shuffled X rids) q) (shuffled X rids) (0, 0))).
      lra.
    + apply Forall_forall. intros p Hpin. apply in_map_iff in Hpin.
      destruct Hpin as (x & <- & _). reflexivity.
Qed.

End SingleDraw.

(** With [reps = 1] and [pct_exact = 1] the points are clustered in shuffled
    order: on two isolated points drawn in reverse order the consensus labels
    are ["1"; "0"], while the density primitive run on the point set itself
    labels them 0 and 1. *)
Lemma fit_single_draw_is_shuffled :
  let self := mkADBSCAN 1 1 "auto" 1 1 1 false (9 # 10) in
  let solus := mkDF 2 [["1"; "0"]]%string in
  fit_consensus scripted_shuffle sklearn_DBSCAN self two_far_points None [[1; 0]%nat]
  = ([], [Enter "_one_draw"; Enter "remap_lbls"; Enter "ensemble"],
     inr (solus, solus, mkVotes ["1"; "0"]%string [1; 1])) /\
  sklearn_DBSCAN 1 1 "auto" 1 two_far_points None = inr [0; 1]%Z /\
  ["1"; "0"]%string <> map str [0; 1]%Z.
Proof.
  cbv zeta. split; [vm_compute; reflexivity|]. split; [vm_compute; reflexivity|].
  discriminate.
Qed.

Lemma fit_single_full_draw_witness :
  let self := mkADBSCAN 1 1 "auto" 1 1 1 false (9 # 10) in
  let rids := [1; 0]%nat in
  let lab := [0; 1]%Z in
  exists (log : list event) (solus rel : DataFrame string) (votes : @Votes string),
    fit_consensus scripted_shuffle sklearn_DBSCAN self two_far_points None [rids]
    = ([], log, inr (solus, rel, votes)) /\
    length (lbls votes) = length two_far_points /\
    (forall j, (j < length two_far_points)%nat ->
       nth (nth j rids 0%nat) (lbls votes) EmptyString = str (nth j lab 0%Z)) /\
    Forall (fun p => p == 1) (pct votes).
Proof.
  cbv zeta.
  apply (fit_single_full_draw script scripted_shuffle sklearn_DBSCAN
           (mkADBSCAN 1 1 "auto" 1 1 1 false (9 # 10)) two_far_points None
           [[1; 0]%nat] [] [1; 0]%nat [0; 1]%Z).
  - discriminate.
  - reflexivity.
  - reflexivity.
  - reflexivity.
  - reflexivity.
  - simpl. apply perm_swap.
  - intros w Hw. discriminate.
  - vm_compute. reflexivity.
  - reflexivity.
  - intros [|[|j]] [|[|k]] Hj Hk Hd; simpl in Hj, Hk; try lia; try reflexivity;
      vm_compute in Hd; discriminate.
Defined.

(** ** Centroids and sums of squared-distance differences *)

Lemma Q_of_nat_S (n : nat) : Q_of_nat (S n) == Q_of_nat n + 1.
Proof.
  unfold Q_of_nat. rewrite Nat2Z.inj_succ. unfold Z.succ.
  rewrite inject_Z_plus. reflexivity.
Qed.

(** The difference of the squared distances to two centres is affine in the
    point, so its sum over a group depends on the group's coordinate sums
    only. *)
Lemma sum_dist_diff (a b : point) (P : list point) :
  sumQ (map (fun p => dist2 p a - dist2 p b) P)
  == 2 * (fst b - fst a) * sumQ (map fst P)
     + 2 * (snd b - snd a) * sumQ (map snd P)
     + Q_of_nat (length P)
       * (fst a * fst a + snd a * snd a - fst b * fst b - snd b * snd b).
Proof.
  induction P as [|p P IH].
  - simpl. unfold Q_of_nat. simpl. ring.
  - cbn [map sumQ fold_right length]. fold (sumQ (map (fun p => dist2 p a - dist2 p b) P)).
    fold (sumQ (map fst P)). fold (sumQ (map snd P)).
    rewrite IH, Q_of_nat_S. unfold dist2. ring.
Qed.

Lemma mean_dist_diff (a b : point) (P : list point) :
  P <> [] ->
  Q_of_nat (length P) * (dist2 (mean P) a - dist2 (mean P) b)
  == sumQ (map (fun p => dist2 p a - dist2 p b) P).
Proof.
  intros HP. rewrite sum_dist_diff.
  assert (Hn : ~ Q_of_nat (length P) == 0).
  { assert (0 < Q_of_nat (length P)); [|lra].
    apply Q_of_nat_pos. destruct P; [congruence | simpl; lia]. }
  unfold mean, dist2. cbn [fst snd].
  generalize dependent (Q_of_nat (length P)). intros n Hn.
  generalize (sumQ (map fst P)) (sumQ (map snd P)). intros sx sy.
  field. exact Hn.
Qed.

(** The centroid of a non-empty group is nearer to [a] than to [b] exactly
    when the summed differences say so. *)
Lemma mean_nearer_lt (a b : point) (P : list point) :
  P <> [] ->
  (dist2 (mean P) a < dist2 (mean P) b
   <-> sumQ (map (fun p => dist2 p a - dist2 p b) P) < 0).
Proof.
  intros HP. rewrite <- (mean_dist_diff a b P HP).
  assert (Hn : 0 < Q_of_nat (length P)).
  { apply Q_of_nat_pos. destruct P; [congruence | simpl; lia]. }
  generalize dependent (Q_of_nat (length P)). intros n Hn.
  generalize (dist2 (mean P) a) (dist2 (mean P) b). intros u v.
  split; intros H; nra.
Qed.

Lemma mean_nearer_le (a b : point) (P : list point) :
  P <> [] ->
  (dist2 (mean P) a <= dist2 (mean P) b
   <-> sumQ (map (fun p => dist2 p a - dist2 p b) P) <= 0).
Proof.
  intros HP. rewrite <- (mean_dist_diff a b P HP).
  assert (Hn : 0 < Q_of_nat (length P)).
  { apply Q_of_nat_pos. destruct P; [congruence | simpl; lia]. }
  generalize dependent (Q_of_nat (length P)). intros n Hn.
  generalize (dist2 (mean P) a) (dist2 (mean P) b). intros u v.
  split; intros H; nra.
Qed.

Lemma sumQ_neg (l : list Q) :
  l <> [] -> (forall x, In x l -> x < 0) -> sumQ l < 0.
Proof.
  induction l as [|x l IH]; intros Hne H; [congruence|].
  cbn [sumQ fold_right]. fold (sumQ l).
  assert (Hx : x < 0) by (apply H; left; reflexivity).
  destruct l as [|y l'].
  - simpl. lra.
  - assert (sumQ (y :: l') < 0).
    { apply IH; [discriminate|]. intros z Hz. apply H. right. exact Hz. }
    lra.
Qed.

Lemma sumQ_nonpos (l : list Q) :
  (forall x, In x l -> x <= 0) -> sumQ l <= 0.
Proof.
  induction l as [|x l IH]; intros H; [simpl; lra|].
  cbn [sumQ fold_right]. fold (sumQ l).
  assert (Hx : x <= 0) by (apply H; left; reflexivity).
  assert (sumQ l <= 0) by (apply IH; intros z Hz; apply H; right; exact Hz).
  lra.
Qed.

Section Groups.
Context {label : Type} {L : LabelRep label}.

Lemma sum_where_ext (f f' : label -> bool) (h : point -> Q)
    (pairs : list (label * point)) :
  (forall lp, In lp pairs -> f (fst lp) = f' (fst lp)) ->
  sum_where f h pairs = sum_where f' h pairs.
Proof.
  intros H. unfold sum_where. f_equal. f_equal.
  apply filter_ext_in. exact H.
Qed.

Lemma sum_where_none (f : label -> bool) (h : point -> Q)
    (pairs : list (label * point)) :
  (forall l, f l = false) -> sum_where f h pairs = 0.
Proof.
  intros H. unfold sum_where.
  induction pairs as [|lp pairs IH]; [reflexivity|].
  simpl. rewrite H. exact IH.
Qed.

Lemma sum_where_split (f1 f2 : label -> bool) (h : point -> Q)
    (pairs : list (label * point)) :
  (forall l, f1 l = true -> f2 l = true -> False) ->
  sum_where (fun l => f1 l || f2 l) h pairs
  == sum_where f1 h pairs + sum_where f2 h pairs.
Proof.
  intros Hex. unfold sum_where.
  induction pairs as [|[l p] pairs IH]; [simpl; ring|].
  cbn [filter fst snd].
  destruct (f1 l) eqn:E1, (f2 l) eqn:E2; cbn [orb map sumQ fold_right snd];
    try (exfalso; apply (Hex l); assumption);
    fold (sumQ (map (fun lp : label * point => h (snd lp))
                    (filter (fun lp => f1 (fst lp)) pairs)));
    fold (sumQ (map (fun lp : label * point => h (snd lp))
                    (filter (fun lp => f2 (fst lp)) pairs)));
    fold (sumQ (map (fun lp : label * point => h (snd lp))
                    (filter (fun lp => f1 (fst lp) || f2 (fst lp)) pairs)));
    rewrite IH; ring.
Qed.

(** Regrouping: the sum over the rows whose label is in [ks] and satisfies
    [phi] is the sum, over the labels of [ks] that satisfy [phi], of the sums
    over their groups. *)
Lemma sum_where_groups (phi : label -> bool) (h : point -> Q)
    (pairs : list (label * point)) (ks : list label) :
  NoDup ks ->
  sum_where (fun l => existsb (lbl_eqb l) ks && phi l) h pairs
  == sumQ (map (fun a => sum_where (fun l => lbl_eqb l a) h pairs) (filter phi ks)).
Proof.
  induction 1 as [|a ks Ha Hks IH].
  - simpl. rewrite sum_where_none by reflexivity. reflexivity.
  - rewrite (sum_where_ext _
               (fun l => (lbl_eqb l a && phi l) || (existsb (lbl_eqb l) ks && phi l))).
    2:{ intros [l p] _. cbn [existsb fst].
        destruct (lbl_eqb l a), (existsb (lbl_eqb l) ks), (phi l); reflexivity. }
    rewrite sum_where_split.
    2:{ intros l H1 H2. apply andb_true_iff in H1, H2.
        destruct H1 as (H1 & _), H2 as (H2 & _).
        apply lbl_eqb_eq in H1. subst l.
        apply existsb_exists in H2. destruct H2 as (x & Hx & Hax).
        apply lbl_eqb_eq in Hax. subst x. contradiction. }
    rewrite IH. cbn [filter].
    destruct (phi a) eqn:Ephi.
    + cbn [map sumQ fold_right].
      fold (sumQ (map (fun a0 => sum_where (fun l => lbl_eqb l a0) h pairs) (filter phi ks))).
      rewrite (sum_where_ext (fun l => lbl_eqb l a && phi l) (fun l => lbl_eqb l a)).
      * reflexivity.
      * intros [l p] _. cbn [fst]. destruct (lbl_eqb l a) eqn:E; [|reflexivity].
        apply lbl_eqb_eq in E. subst l. rewrite Ephi. reflexivity.
    + rewrite (sum_where_none (fun l => lbl_eqb l a && phi l)).
      * ring.
      * intros l. destruct (lbl_eqb l a) eqn:E; [|reflexivity].
        apply lbl_eqb_eq in E. subst l. rewrite Ephi. reflexivity.
Qed.

End Groups.

(** ** Aligning an aligned column *)

Lemma combine_map_both {A B C} (f : A -> B) (g : A -> C) (l : list A) :
  combine (map f l) (map g l) = map (fun x => (f x, g x)) l.
Proof.
  induction l as [|x l IH]; simpl; [reflexivity | rewrite IH; reflexivity].
Qed.

Lemma combine_map_fst {A B C} (f : A -> B) (l : list A) (l' : list C) :
  combine (map f l) l' = map (fun xy => (f (fst xy), snd xy)) (combine l l').
Proof.
  revert l'. induction l as [|x l IH]; intros [|y l']; simpl; try reflexivity.
  rewrite IH. reflexivity.
Qed.

Section AlignedColumn.
Context {label : Type} {L : LabelRep label}.

Lemma insert_sorted_perm (x : label) (l : list label) :
  Permutation (insert_sorted x l) (x :: l).
Proof.
  induction l as [|y l IH]; simpl; [apply Permutation_refl|].
  destruct (lbl_leb x y); [apply Permutation_refl|].
  eapply perm_trans; [apply perm_skip, IH | apply perm_swap].
Qed.

Lemma sort_labels_perm (l : list label) : Permutation (sort_labels l) l.
Proof.
  induction l as [|x l IH]; simpl; [constructor|].
  eapply perm_trans; [apply insert_sorted_perm | apply perm_skip, IH].
Qed.

Lemma cluster_keys_in (c : list label) (l : label) :
  In l (cluster_keys c) <-> In l c /\ l <> lbl_noise.
Proof.
  unfold cluster_keys. rewrite filter_In, sort_labels_in, in_unique.
  rewrite negb_true_iff, lbl_eqb_neq. tauto.
Qed.

Lemma cluster_keys_NoDup (c : list label) : NoDup (cluster_keys c).
Proof.
  unfold cluster_keys. apply NoDup_filter.
  eapply Permutation_NoDup; [apply Permutation_sym, sort_labels_perm|].
  apply NoDup_unique.
Qed.

Lemma centroid_table_keys (c : list label) (xys : list point) :
  map fst (drop_label lbl_noise (groupby_mean c xys)) = cluster_keys c.
Proof.
  unfold drop_label, groupby_mean, cluster_keys.
  rewrite filter_map_swap, map_map. cbn [fst]. apply map_id.
Qed.

Lemma remap_table_map (rc : list (label * point)) (xys : list point) (c : list label) :
  remap_table rc xys c
  = map (fun l => (l, nth_error (map fst rc)
                        (nearest (map snd rc) (mean (select c xys l)))))
        (cluster_keys c).
Proof.
  unfold remap_table, drop_label, groupby_mean, cluster_keys.
  rewrite filter_map_swap. cbn [fst].
  rewrite !map_map. cbn [fst snd].
  apply (combine_map_both (fun x : label => x)).
Qed.

Lemma lookup_map {V} (v : label -> V) (ks : list label) (l : label) :
  lookup l (map (fun k => (k, v k)) ks)
  = if in_dec lbl_eq_dec l ks then Some (v l) else None.
Proof.
  induction ks as [|k ks IH]; [reflexivity|].
  cbn [map lookup]. destruct (lbl_eqb k l) eqn:E.
  - apply lbl_eqb_eq in E. subst k.
    destruct (in_dec lbl_eq_dec l (l :: ks)) as [|Hn]; [reflexivity|].
    exfalso. apply Hn. left. reflexivity.
  - apply lbl_eqb_neq in E. rewrite IH.
    destruct (in_dec lbl_eq_dec l ks) as [Hin|Hn],
             (in_dec lbl_eq_dec l (k :: ks)) as [Hin'|Hn']; try reflexivity.
    + exfalso. apply Hn'. right. exact Hin.
    + exfalso. destruct Hin' as [->|Hin']; [congruence | contradiction].
Qed.

Lemma series_map_hit (rc : list (label * point)) (xys : list point)
    (c : list label) (l : label) :
  In l c -> l <> lbl_noise ->
  series_map (remap_table rc xys c) l
  = nth_error (map fst rc) (nearest (map snd rc) (mean (select c xys l))).
Proof.
  intros Hin Hn. unfold series_map. rewrite remap_table_map, lookup_map.
  destruct (in_dec lbl_eq_dec l (cluster_keys c)) as [|Hno]; [reflexivity|].
  exfalso. apply Hno, cluster_keys_in. auto.
Qed.

Lemma series_map_noise (rc : list (label * point)) (xys : list point)
    (c : list label) :
  series_map (remap_table rc xys c) lbl_noise = None.
Proof.
  unfold series_map. rewrite remap_table_map, lookup_map.
  destruct (in_dec lbl_eq_dec lbl_noise (cluster_keys c)) as [Hin|]; [|reflexivity].
  apply cluster_keys_in in Hin. destruct Hin as (_ & Hn). congruence.
Qed.

Lemma select_map (G : label -> label) (c : list label) (xys : list point) (l' : label) :
  select (map G c) xys l'
  = map snd (filter (fun lp => lbl_eqb (G (fst lp)) l') (combine c xys)).
Proof.
  unfold select. rewrite combine_map_fst, filter_map_swap, map_map. reflexivity.
Qed.

Lemma select_nonempty (c : list label) (xys : list point) (l : label) :
  length c = length xys -> In l c -> select c xys l <> [].
Proof.
  revert xys. induction c as [|x c IH]; intros [|p xys] Hlen Hin; simpl in *;
    try contradiction; try discriminate.
  unfold select. cbn [combine filter fst].
  destruct (lbl_eqb x l) eqn:E; [discriminate|].
  destruct Hin as [->|Hin]; [rewrite lbl_eqb_refl in E; discriminate|].
  apply (IH xys); [lia | exact Hin].
Qed.

Lemma sum_select (h : point -> Q) (c : list label) (xys : list point) (a : label) :
  sumQ (map h (select c xys a)) = sum_where (fun l => lbl_eqb l a) h (combine c xys).
Proof.
  unfold select, sum_where. rewrite map_map. reflexivity.
Qed.

(** A cluster of [c] is rewritten to the reference label at the index of
    the reference centroid nearest to its centroid. *)
Lemma relabel_cluster (rc : list (label * point)) (xys : list point)
    (c : list label) (l : label) :
  rc <> [] -> In l c -> l <> lbl_noise ->
  nth_error (map fst rc) (nearest (map snd rc) (mean (select c xys l)))
  = Some (relabel rc xys c l).
Proof.
  intros Hrc Hin Hn. unfold relabel. rewrite series_map_hit by assumption.
  destruct (nth_error (map fst rc) _) as [v|] eqn:E; [reflexivity|].
  apply nth_error_None in E. rewrite length_map in E.
  assert (Hlt : (nearest (map snd rc) (mean (select c xys l)) < length (map snd rc))%nat).
  { apply nearest_lt. destruct rc; [congruence | discriminate]. }
  rewrite length_map in Hlt. lia.
Qed.

(** The convexity of the cells of the nearest-reference search: the merged
    cluster of an aligned column is sent to its own label. *)
Lemma relabel_fixed (rc : list (label * point)) (xys : list point)
    (c : list label) (l : label) :
  rc <> [] -> NoDup (map fst rc) -> ~ In lbl_noise (map fst rc) ->
  length c = length xys -> In l c ->
  relabel rc xys (map (relabel rc xys c) c) (relabel rc xys c l) = relabel rc xys c l.
Proof.
  intros Hrc Hnd Hnoise Hlen Hin.
  set (G := relabel rc xys c).
  destruct (lbl_eq_dec (G l) lbl_noise) as [En|Hn].
  { rewrite En. unfold relabel. rewrite series_map_noise. reflexivity. }
  assert (Hl : l <> lbl_noise).
  { intros ->. apply Hn. unfold G, relabel. rewrite series_map_noise. reflexivity. }
  set (refs := map snd rc).
  set (k := nearest refs (mean (select c xys l))).
  assert (Hk : nth_error (map fst rc) k = Some (G l))
    by (apply relabel_cluster; assumption).
  assert (Hrefs : refs <> []) by (unfold refs; destruct rc; [congruence | discriminate]).
  assert (Hklt : (k < length refs)%nat) by (apply nearest_lt, Hrefs).
  assert (Hin' : In (G l) (map G c)) by (apply in_map, Hin).
  assert (Hlen' : length (map G c) = length xys) by (rewrite length_map; exact Hlen).
  (* every cluster of [c] merged into [G l] has its centroid in the cell of [k] *)
  assert (Hcell : forall a, In a c -> G a = G l ->
            nearest refs (mean (select c xys a)) = k /\ select c xys a <> []).
  { intros a Ha Ea.
    assert (Han : a <> lbl_noise).
    { intros ->. apply Hn. rewrite <- Ea. unfold G, relabel.
      rewrite series_map_noise. reflexivity. }
    split; [|apply select_nonempty; assumption].
    pose proof (relabel_cluster rc xys c a Hrc Ha Han) as Hka. fold G refs in Hka.
    rewrite Ea in Hka.
    apply (proj1 (NoDup_nth_error (map fst rc)) Hnd).
    - apply nth_error_Some. rewrite Hka. discriminate.
    - rewrite Hka, Hk. reflexivity. }
  (* the sums over the merged cluster, regrouped by the clusters of [c] *)
  assert (Hsum : forall h : point -> Q,
            sumQ (map h (select (map G c) xys (G l)))
            == sumQ (map (fun a => sumQ (map h (select c xys a)))
                         (filter (fun a => lbl_eqb (G a) (G l)) (unique c)))).
  { intros h. rewrite select_map, map_map.
    change (sumQ (map (fun lp : label * point => h (snd lp))
                      (filter (fun lp => lbl_eqb (G (fst lp)) (G l)) (combine c xys))))
      with (sum_where (fun a => lbl_eqb (G a) (G l)) h (combine c xys)).
    rewrite (sum_where_ext _
               (fun a => existsb (lbl_eqb a) (unique c) && lbl_eqb (G a) (G l))).
    2:{ intros [a p] Hap. cbn [fst].
        assert (Ha : existsb (lbl_eqb a) (unique c) = true).
        { apply existsb_exists. exists a. split; [|apply lbl_eqb_refl].
          apply in_unique. apply in_combine_l in Hap. exact Hap. }
        rewrite Ha. reflexivity. }
    rewrite (sum_where_groups _ h (combine c xys) (unique c) (NoDup_unique c)).
    erewrite map_ext; [reflexivity|]. intros a. symmetry. apply sum_select. }
  assert (Hgroups : filter (fun a => lbl_eqb (G a) (G l)) (unique c) <> []).
  { intros E.
    assert (H : In l (filter (fun a => lbl_eqb (G a) (G l)) (unique c))).
    { apply filter_In. split; [apply in_unique, Hin | apply lbl_eqb_refl]. }
    rewrite E in H. exact H. }
  assert (Hmerged : select (map G c) xys (G l) <> [])
    by (apply select_nonempty; assumption).
  assert (Hnear : nearest refs (mean (select (map G c) xys (G l))) = k).
  { apply nearest_unique with (d := (0, 0)); [exact Hklt| |].
    - intros j Hj. apply (mean_nearer_lt _ _ _ Hmerged).
      rewrite Hsum. apply sumQ_neg.
      + intros E. apply map_eq_nil in E. contradiction.
      + intros x Hx. apply in_map_iff in Hx. destruct Hx as (a & <- & Ha).
        apply filter_In in Ha. destruct Ha as (Ha & Ea).
        apply lbl_eqb_eq in Ea. apply (proj1 (in_unique _ _)) in Ha.
        destruct (Hcell a Ha Ea) as (Hka & Hne).
        apply (mean_nearer_lt _ _ _ Hne).
        destruct (nearest_spec refs (mean (select c xys a)) (0, 0) Hrefs)
          as (_ & _ & Hfirst).
        rewrite Hka in Hfirst. apply Hfirst, Hj.
    - intros j Hj. apply (mean_nearer_le _ _ _ Hmerged).
      rewrite Hsum. apply sumQ_nonpos.
      intros x Hx. apply in_map_iff in Hx. destruct Hx as (a & <- & Ha).
      apply filter_In in Ha. destruct Ha as (Ha & Ea).
      apply lbl_eqb_eq in Ea. apply (proj1 (in_unique _ _)) in Ha.
      destruct (Hcell a Ha Ea) as (Hka & Hne).
      apply (mean_nearer_le _ _ _ Hne).
      destruct (nearest_spec refs (mean (select c xys a)) (0, 0) Hrefs)
        as (_ & Hmin & _).
      rewrite Hka in Hmin. apply Hmin. lia. }
  unfold relabel at 1. rewrite series_map_hit by assumption.
  fold refs. rewrite Hnear, Hk. reflexivity.
Qed.

(** Aligning an aligned column against the same reference changes nothing. *)
Lemma aligned_column_idem (rc : list (label * point)) (xys : list point)
    (c : list label) :
  rc <> [] -> NoDup (map fst rc) -> ~ In lbl_noise (map fst rc) ->
  length c = length xys ->
  aligned_column rc xys (aligned_column rc xys c) = aligned_column rc xys c.
Proof.
  intros Hrc Hnd Hnoise Hlen.
  change (aligned_column rc xys c) with (map (relabel rc xys c) c).
  change (aligned_column rc xys (map (relabel rc xys c) c))
    with (map (relabel rc xys (map (relabel rc xys c) c)) (map (relabel rc xys c) c)).
  rewrite map_map. apply map_ext_in. intros l Hl.
  apply relabel_fixed; assumption.
Qed.

End AlignedColumn.

(** ** Idempotence of the alignment step *)

Lemma list_max_nat_ge (l : list nat) (x : nat) : In x l -> (x <= list_max_nat l)%nat.
Proof.
  induction l as [|y l IH]; intros H; [destruct H|].
  simpl. destruct H as [->|H]; [lia|]. specialize (IH H). lia.
Qed.

Lemma list_max_nat_le (l : list nat) (m : nat) :
  (forall x, In x l -> (x <= m)%nat) -> (list_max_nat l <= m)%nat.
Proof.
  induction l as [|y l IH]; intros H; simpl; [lia|].
  assert (y <= m)%nat by (apply H; left; reflexivity).
  assert (list_max_nat l <= m)%nat by (apply IH; intros x Hx; apply H; right; exact Hx).
  lia.
Qed.

Lemma list_max_nat_in (l : list nat) : l <> [] -> In (list_max_nat l) l.
Proof.
  induction l as [|y l IH]; intros H; [congruence|].
  simpl. destruct l as [|z l'].
  - left. simpl. lia.
  - destruct (Nat.max_spec y (list_max_nat (z :: l'))) as [(_ & E)|(_ & E)];
      rewrite E; [right; apply IH; discriminate | left; reflexivity].
Qed.

Lemma first_index_exists {A} (f : A -> bool) (l : list A) (a : A) :
  In a l -> f a = true -> exists i, first_index f l = Some i.
Proof.
  induction l as [|x l IH]; intros Hin Hf; [destruct Hin|].
  simpl. destruct (f x) eqn:E; [eexists; reflexivity|].
  destruct Hin as [->|Hin]; [congruence|].
  destruct (IH Hin Hf) as (i & ->). eexists; reflexivity.
Qed.

(** The first position of the maximum stays where it is when the other
    entries do not grow. *)
Lemma first_max_stable (ns ns' : list nat) (r : nat) :
  first_index (Nat.eqb (list_max_nat ns)) ns = Some r ->
  nth_error ns' r = nth_error ns r ->
  (forall j b', nth_error ns' j = Some b' ->
                exists b, nth_error ns j = Some b /\ (b' <= b)%nat) ->
  first_index (Nat.eqb (list_max_nat ns')) ns' = Some r.
Proof.
  intros Href Hr Hle.
  apply first_index_spec in Href. destruct Href as (m & Hm & Em & Hbefore).
  apply Nat.eqb_eq in Em. rewrite Em in Hbefore.
  assert (Hmax : list_max_nat ns' = m).
  { apply Nat.le_antisymm.
    - apply list_max_nat_le. intros x Hx. apply In_nth_error in Hx.
      destruct Hx as (j & Hj). destruct (Hle j x Hj) as (b & Hb & Hxb).
      apply nth_error_In in Hb. apply list_max_nat_ge in Hb. lia.
    - apply list_max_nat_ge. rewrite <- Hr in Hm. eapply nth_error_In; exact Hm. }
  apply first_index_unique with (a := m).
  - rewrite Hr. exact Hm.
  - rewrite Hmax. apply Nat.eqb_refl.
  - intros j b' Hj Hb'. rewrite Hmax.
    destruct (Hle j b' Hb') as (b & Hb & Hle').
    specialize (Hbefore j b Hj Hb). apply Nat.eqb_neq in Hbefore.
    assert (b <= m)%nat.
    { rewrite <- Em. apply list_max_nat_ge. eapply nth_error_In; exact Hb. }
    apply Nat.eqb_neq. lia.
Qed.

Section Idempotence.
Context {label : Type} {L : LabelRep label}.

Lemma nth_error_aligned_cols (r : nat) (rc : list (label * point)) (xys : list point)
    (cs : list (list label)) (j : nat) :
  nth_error (aligned_cols r rc xys cs) j
  = option_map (fun c => if (j =? r)%nat then c else aligned_column rc xys c)
               (nth_error cs j).
Proof.
  unfold aligned_cols. rewrite nth_error_map, nth_error_combine_seq.
  destruct (nth_error cs j); reflexivity.
Qed.

Lemma aligned_cols_length (r : nat) (rc : list (label * point)) (xys : list point)
    (cs : list (list label)) :
  length (aligned_cols r rc xys cs) = length cs.
Proof.
  unfold aligned_cols. rewrite length_map, length_combine, length_seq.
  apply Nat.min_id.
Qed.

Lemma aligned_cols_ref (r : nat) (rc : list (label * point)) (xys : list point)
    (cs : list (list label)) :
  nth r (aligned_cols r rc xys cs) [] = nth r cs [].
Proof.
  destruct (nth_error cs r) as [c|] eqn:E.
  - rewrite (nth_error_nth _ _ _ E). apply nth_error_nth.
    rewrite nth_error_aligned_cols, E. simpl. rewrite Nat.eqb_refl. reflexivity.
  - rewrite (nth_error_nth_None _ _ _ E). apply nth_error_nth_None.
    rewrite nth_error_aligned_cols, E. reflexivity.
Qed.

Lemma reference_run_aligned (solus : DataFrame label) (r : nat)
    (rc : list (label * point)) (xys : list point) :
  reference_run solus = Some r ->
  reference_run (mkDF (nrows solus) (aligned_cols r rc xys (cols solus))) = Some r.
Proof.
  unfold reference_run, ns_clusters. cbn [cols]. intros Href.
  apply (first_max_stable _ _ _ Href).
  - rewrite !nth_error_map, nth_error_aligned_cols.
    destruct (nth_error (cols solus) r); [|reflexivity].
    simpl. rewrite Nat.eqb_refl. reflexivity.
  - intros j b' Hb'. rewrite nth_error_map, nth_error_aligned_cols in Hb'.
    rewrite nth_error_map.
    destruct (nth_error (cols solus) j) as [c|]; [|discriminate].
    simpl in *. injection Hb' as <-. exists (n_unique c). split; [reflexivity|].
    destruct (j =? r)%nat; [lia|]. apply n_unique_map_le.
Qed.

Lemma aligned_cols_idem (r : nat) (rc : list (label * point)) (xys : list point)
    (cs : list (list label)) :
  rc <> [] -> NoDup (map fst rc) -> ~ In lbl_noise (map fst rc) ->
  Forall (fun c => length c = length xys) cs ->
  aligned_cols r rc xys (aligned_cols r rc xys cs) = aligned_cols r rc xys cs.
Proof.
  intros Hrc Hnd Hnoise Hwf. apply nth_error_ext. intros j.
  rewrite !nth_error_aligned_cols.
  destruct (nth_error cs j) as [c|] eqn:E; [|reflexivity]. simpl.
  destruct (j =? r)%nat; [reflexivity|]. f_equal.
  apply aligned_column_idem; try assumption.
  rewrite Forall_forall in Hwf. apply Hwf. eapply nth_error_In; exact E.
Qed.

(** A successful alignment, run again on its own output, returns that
    output (and the same warnings). *)
Lemma remap_lbls_again (solus rel : DataFrame label) (xys : list point)
    (n_jobs : Z) (log : list event) :
  Forall (fun c => length c = length xys) (cols solus) ->
  remap_lbls solus xys n_jobs = (log, inr rel) ->
  remap_lbls rel xys n_jobs = (log, inr rel).
Proof.
  intros Hwf H.
  destruct (remap_lbls_inr _ _ _ _ _ H)
    as (ref & Href & Hcol & [(_ & -> & _)|(Hrc & -> & -> & Hpath)]); [exact H|].
  set (rc := drop_label lbl_noise (groupby_mean (column solus ref) xys)) in *.
  set (rel := mkDF (nrows solus) (aligned_cols ref rc xys (cols solus))).
  assert (Hcolr : column rel ref = column solus ref).
  { unfold column, rel. cbn [cols]. apply aligned_cols_ref. }
  assert (Hrcr : drop_label lbl_noise (groupby_mean (column rel ref) xys) = rc).
  { rewrite Hcolr. reflexivity. }
  rewrite (remap_lbls_aligned rel xys n_jobs ref).
  - rewrite Hrcr. unfold rel at 2. cbn [cols nrows].
    rewrite aligned_cols_idem; [reflexivity | exact Hrc | | | exact Hwf].
    + unfold rc. rewrite centroid_table_keys. apply cluster_keys_NoDup.
    + unfold rc. rewrite centroid_table_keys. intros Hin.
      apply cluster_keys_in in Hin. destruct Hin as (_ & Hn). congruence.
  - apply reference_run_aligned. exact Href.
  - rewrite Hcolr. exact Hcol.
  - rewrite Hrcr. exact Hrc.
  - destruct Hpath as [Hs|Ho]; [left; exact Hs|]. right.
    unfold other_columns, shape1, rel in *. cbn [cols].
    rewrite aligned_cols_length. exact Ho.
Qed.

(** The alignment step returns on every table with a column and a row whose
    columns match the coordinate table (sequentially, or in parallel when
    there are two columns or more). *)
Lemma remap_lbls_returns (solus : DataFrame label) (xys : list point) (n_jobs : Z) :
  Forall (fun c => length c = length xys) (cols solus) ->
  (1 <= shape1 solus)%nat -> (1 <= length xys)%nat ->
  multi_core n_jobs = false \/ (2 <= shape1 solus)%nat ->
  exists log rel, remap_lbls solus xys n_jobs = (log, inr rel).
Proof.
  intros Hwf HR HN Hpath.
  assert (Href : exists ref, reference_run solus = Some ref).
  { unfold reference_run.
    apply first_index_exists with (a := list_max_nat (ns_clusters solus)).
    - apply list_max_nat_in. unfold ns_clusters, shape1 in *.
      destruct (cols solus); [simpl in HR; lia | discriminate].
    - apply Nat.eqb_refl. }
  destruct Href as (ref & Href).
  assert (Hlt : (ref < shape1 solus)%nat).
  { unfold reference_run in Href. apply first_index_spec in Href.
    destruct Href as (a & Ha & _).
    unfold shape1. rewrite <- (length_map n_unique). fold (ns_clusters solus).
    apply nth_error_Some. congruence. }
  assert (Hcol : column solus ref <> []).
  { intros E. rewrite Forall_forall in Hwf.
    assert (Hin : In (column solus ref) (cols solus)) by (apply nth_In; exact Hlt).
    apply Hwf in Hin. rewrite E in Hin. simpl in Hin. lia. }
  destruct (drop_label lbl_noise (groupby_mean (column solus ref) xys))
    as [|r0 rc'] eqn:Erc.
  - exists [UserWarning "No clusters identified."], solus.
    unfold remap_lbls. rewrite Href, Erc.
    destruct (column solus ref); [congruence | reflexivity].
  - eexists. eexists. apply (remap_lbls_aligned solus xys n_jobs ref Href Hcol).
    + rewrite Erc. discriminate.
    + destruct Hpath as [Hs|H2]; [left; exact Hs|].
      right. apply other_columns_nonempty, H2.
Qed.

End Idempotence.

(** ** The alignment as the machine computes it *)

Lemma rfold_ext_in {A S} (body body' : A -> S -> result S) (l : list A) :
  (forall a, In a l -> forall s, body a s = body' a s) ->
  forall s, rfold body l s = rfold body' l s.
Proof.
  induction l as [|a l IH]; intros H s; simpl; [reflexivity|].
  rewrite (H a) by (left; reflexivity).
  destruct (body' a s) as [e|s']; simpl; [reflexivity|].
  apply IH. intros b Hb. apply H. right. exact Hb.
Qed.

Lemma rmap_list_ext_in {A B} (f f' : A -> result B) (l : list A) :
  (forall a, In a l -> f a = f' a) -> rmap_list f l = rmap_list f' l.
Proof.
  induction l as [|a l IH]; intros H; simpl; [reflexivity|].
  rewrite (H a) by (left; reflexivity).
  rewrite IH; [reflexivity|]. intros b Hb. apply H. right. exact Hb.
Qed.

Lemma rmap_list_map {A B C} (f : B -> result C) (g : A -> B) (l : list A) :
  rmap_list f (map g l) = rmap_list (fun a => f (g a)) l.
Proof.
  induction l as [|a l IH]; simpl; [reflexivity | rewrite IH; reflexivity].
Qed.

Section MachineAlignment.
Context {label : Type} {L : LabelRep label}.
Variable pt : Type.
Variable group_mean : list pt -> pt.
Variable query : list pt -> pt -> nat.
Variable value : pt -> point.

Lemma machine_centroid_keys (c : list label) (xys : list pt) :
  map fst (drop_label lbl_noise (Machine.groupby_mean group_mean c xys))
  = cluster_keys c.
Proof.
  unfold drop_label, Machine.groupby_mean, cluster_keys.
  rewrite filter_map_swap, map_map. cbn [fst]. apply map_id.
Qed.

Lemma machine_centroids (c : list label) (xys : list pt) :
  map snd (drop_label lbl_noise (Machine.groupby_mean group_mean c xys))
  = map (fun l => group_mean (Machine.select c xys l)) (cluster_keys c).
Proof.
  unfold drop_label, Machine.groupby_mean, cluster_keys.
  rewrite filter_map_swap, map_map. reflexivity.
Qed.

Lemma exact_centroids (c : list label) (xys : list point) :
  map snd (drop_label lbl_noise (groupby_mean c xys))
  = map (fun l => mean (select c xys l)) (cluster_keys c).
Proof.
  unfold drop_label, groupby_mean, cluster_keys.
  rewrite filter_map_swap, map_map. reflexivity.
Qed.

Lemma other_columns_in (solus : DataFrame label) (ref s : nat) :
  In s (other_columns solus ref) -> In (column solus s) (cols solus).
Proof.
  unfold other_columns. intros H. apply filter_In in H. destruct H as (H & _).
  apply in_seq in H. unfold column. apply nth_In. unfold shape1 in H. lia.
Qed.

(** Where the machine finds the reference clusters of exact arithmetic, one
    column is remapped as in exact arithmetic. *)
Lemma machine_remap_single (ref_col c : list label) (xys : list pt) :
  exact_nearest group_mean query value ref_col c xys ->
  Machine._remap_lbls_single group_mean query c
    (drop_label lbl_noise (Machine.groupby_mean group_mean ref_col xys))
    (map snd (drop_label lbl_noise (Machine.groupby_mean group_mean ref_col xys)))
    xys
  = _remap_lbls_single c
      (drop_label lbl_noise (groupby_mean ref_col (map value xys)))
      (map snd (drop_label lbl_noise (groupby_mean ref_col (map value xys))))
      (map value xys).
Proof.
  intros Hex. unfold exact_nearest in Hex.
  assert (K : map fst (drop_label lbl_noise
                         (Machine.groupby_mean group_mean ref_col xys))
              = map fst (drop_label lbl_noise (groupby_mean ref_col (map value xys))))
    by (rewrite machine_centroid_keys, centroid_table_keys; reflexivity).
  remember (drop_label lbl_noise (Machine.groupby_mean group_mean ref_col xys))
    as rcf eqn:Ef.
  remember (drop_label lbl_noise (groupby_mean ref_col (map value xys)))
    as rc eqn:Ee.
  assert (E : map (query (map snd rcf))
                  (map snd (drop_label lbl_noise
                              (Machine.groupby_mean group_mean c xys)))
              = map (nearest (map snd rc))
                    (map snd (drop_label lbl_noise
                                (groupby_mean c (map value xys))))).
  { rewrite machine_centroids, exact_centroids, !map_map.
    apply map_ext_in. intros l Hl. apply cluster_keys_in in Hl.
    destruct Hl as (Hin & Hn). apply Hex; assumption. }
  unfold Machine._remap_lbls_single, _remap_lbls_single.
  rewrite machine_centroid_keys, centroid_table_keys, E, K.
  clear Ef Ee E Hex.
  destruct rcf, rc; try reflexivity; discriminate K.
Qed.

(** Where the machine finds, for every cluster of every run, the reference
    cluster that exact arithmetic finds, the machine's alignment is the
    alignment in exact arithmetic. *)
Lemma machine_remap_lbls (solus : DataFrame label) (xys : list pt) (n_jobs : Z)
    (ref : nat) :
  reference_run solus = Some ref ->
  (forall c, In c (cols solus) ->
     exact_nearest group_mean query value (column solus ref) c xys) ->
  Machine.remap_lbls group_mean query solus xys n_jobs
  = remap_lbls solus (map value xys) n_jobs.
Proof.
  intros Href Hex. unfold Machine.remap_lbls, remap_lbls. rewrite Href.
  destruct (column solus ref) as [|x t] eqn:Ecol; [reflexivity|].
  rewrite <- Ecol in Hex |- *.
  assert (Hlen : length (drop_label lbl_noise
                           (Machine.groupby_mean group_mean (column solus ref) xys))
                 = length (drop_label lbl_noise
                             (groupby_mean (column solus ref) (map value xys)))).
  { rewrite <- (length_map fst), machine_centroid_keys.
    rewrite <- (length_map fst (drop_label _ (groupby_mean _ _))), centroid_table_keys.
    reflexivity. }
  rewrite Hlen.
  destruct (0 <? length (drop_label lbl_noise
                           (groupby_mean (column solus ref) (map value xys))))%nat;
    [|reflexivity].
  f_equal. f_equal.
  destruct (multi_core n_jobs).
  - unfold Machine.remap_parallel, remap_parallel, pool_map.
    rewrite !rmap_list_map.
    erewrite rmap_list_ext_in; [reflexivity|]. intros s Hs.
    unfold Machine._remap_n_expand, _remap_n_expand.
    rewrite machine_remap_single by (apply Hex, (other_columns_in _ _ _ Hs)).
    reflexivity.
  - unfold Machine.remap_sequential, remap_sequential.
    apply rfold_ext_in. intros s Hs acc.
    rewrite machine_remap_single by (apply Hex, (other_columns_in _ _ _ Hs)).
    reflexivity.
Qed.

(** C7, corrected.  The alignment is idempotent where the machine finds the
    reference clusters of exact arithmetic: on a table whose columns match
    the coordinate table the step returns, and if for every cluster of
    every run of the table, and then of its output, the index the tree
    returns for the computed centroid is that of the reference centroid
    nearest in exact arithmetic (the lowest index where two are equally
    near), the step applied to its own output returns that output
    unchanged. *)
Theorem remap_lbls_idempotent_where_exact (solus : DataFrame label)
    (xys : list pt) (n_jobs : Z) (ref : nat) :
  Forall (fun c => length c = length xys) (cols solus) ->
  (1 <= length xys)%nat ->
  multi_core n_jobs = false \/ (2 <= shape1 solus)%nat ->
  reference_run solus = Some ref ->
  (forall c, In c (cols solus) ->
     exact_nearest group_mean query value (column solus ref) c xys) ->
  exists log rel,
    Machine.remap_lbls group_mean query solus xys n_jobs = (log, inr rel) /\
    ((forall c, In c (cols rel) ->
        exact_nearest group_mean query value (column solus ref) c xys) ->
     Machine.remap_lbls group_mean query rel xys n_jobs = (log, inr rel)).
Proof.
  intros Hwf HN Hpath Href Hex.
  assert (Hwf' : Forall (fun c => length c = length (map value xys)) (cols solus))
    by (rewrite length_map; exact Hwf).
  assert (HR : (1 <= shape1 solus)%nat).
  { unfold reference_run in Href. apply first_index_spec in Href.
    destruct Href as (a & Ha & _). unfold shape1.
    rewrite <- (length_map n_unique). fold (ns_clusters solus).
    assert (ref < length (ns_clusters solus))%nat
      by (apply nth_error_Some; congruence).
    lia. }
  destruct (remap_lbls_returns solus (map value xys) n_jobs Hwf' HR) as (log & rel & H);
    [rewrite length_map; exact HN | exact Hpath |].
  exists log, rel. split.
  - rewrite (machine_remap_lbls solus xys n_jobs ref Href Hex). exact H.
  - intros Hex'.
    assert (Href' : reference_run rel = Some ref).
    { destruct (remap_lbls_inr _ _ _ _ _ H)
        as (r & Hr & _ & [(_ & -> & _)|(_ & _ & -> & _)]); [exact Href|].
      rewrite Href in Hr. injection Hr as <-.
      apply reference_run_aligned. exact Href. }
    assert (Hcol' : column rel ref = column solus ref).
    { destruct (remap_lbls_inr _ _ _ _ _ H)
        as (r & Hr & _ & [(_ & -> & _)|(_ & _ & -> & _)]); [reflexivity|].
      rewrite Href in Hr. injection Hr as <-.
      unfold column. cbn [cols]. apply aligned_cols_ref. }
    rewrite (machine_remap_lbls rel xys n_jobs ref Href').
    + apply (remap_lbls_again solus rel (map value xys) n_jobs log Hwf' H).
    + intros c Hc. rewrite Hcol'. apply Hex'. exact Hc.
Qed.

End MachineAlignment.

Section MachineExamples.
Import Floats.

(** The docstring example of [remap_lbls] on binary64 numbers: the table is
    aligned as in exact arithmetic, and aligning the aligned table changes
    nothing. *)
Lemma remap_lbls_idempotent_where_exact_witness :
  let solus := mkDF 5 [[0; 0; 7; 7; -1]; [4; 4; -1; 6; 6]; [5; 5; 8; 8; 8]]%Z in
  let aligned := mkDF 5 [[0; 0; 7; 7; -1]; [0; 0; -1; 7; 7]; [0; 0; 7; 7; 7]]%Z in
  let db := Binary64.docstring_points in
  Forall (fun c => length c = length db) (cols solus) /\
  reference_run solus = Some 0%nat /\
  (forall c, In c (cols solus) ->
     exact_nearest Binary64.mean Binary64.nearest Binary64.point_value
                   (column solus 0) c db) /\
  (forall c, In c (cols aligned) ->
     exact_nearest Binary64.mean Binary64.nearest Binary64.point_value
                   (column solus 0) c db) /\
  Machine.remap_lbls Binary64.mean Binary64.nearest solus db 1 = ([], inr aligned) /\
  Machine.remap_lbls Binary64.mean Binary64.nearest aligned db 1 = ([], inr aligned) /\
  exists log rel,
    Machine.remap_lbls Binary64.mean Binary64.nearest solus db 1 = (log, inr rel) /\
    ((forall c, In c (cols rel) ->
        exact_nearest Binary64.mean Binary64.nearest Binary64.point_value
                      (column solus 0) c db) ->
     Machine.remap_lbls Binary64.mean Binary64.nearest rel db 1 = (log, inr rel)).
Proof.
  cbv zeta.
  assert (Hwf : Forall (fun c : list Z => length c = length Binary64.docstring_points)
                  (cols (mkDF 5 [[0; 0; 7; 7; -1]; [4; 4; -1; 6; 6]; [5; 5; 8; 8; 8]]%Z)))
    by (repeat constructor).
  assert (Hex : forall c,
             In c (cols (mkDF 5 [[0; 0; 7; 7; -1]; [4; 4; -1; 6; 6]; [5; 5; 8; 8; 8]]%Z)) ->
             exact_nearest Binary64.mean Binary64.nearest Binary64.point_value
               (column (mkDF 5 [[0; 0; 7; 7; -1]; [4; 4; -1; 6; 6]; [5; 5; 8; 8; 8]]%Z) 0)
               c Binary64.docstring_points).
  { intros c Hc l Hl Hn. cbn [cols] in Hc.
    repeat (destruct Hc as [<-|Hc]; [|try contradiction]);
      cbn [In] in Hl;
      repeat (destruct Hl as [<-|Hl]; [|try contradiction]);
      try (exfalso; apply Hn; reflexivity);
      vm_compute; reflexivity. }
  split; [exact Hwf|]. split; [reflexivity|]. split; [exact Hex|].
  split.
  { intros c Hc l Hl Hn. cbn [cols] in Hc.
    repeat (destruct Hc as [<-|Hc]; [|try contradiction]);
      cbn [In] in Hl;
      repeat (destruct Hl as [<-|Hl]; [|try contradiction]);
      try (exfalso; apply Hn; reflexivity);
      vm_compute; reflexivity. }
  split; [vm_compute; reflexivity|]. split; [vm_compute; reflexivity|].
  apply (remap_lbls_idempotent_where_exact
           Binary64.point Binary64.mean Binary64.nearest Binary64.point_value
           (mkDF 5 [[0; 0; 7; 7; -1]; [4; 4; -1; 6; 6]; [5; 5; 8; 8; 8]]%Z)
           Binary64.docstring_points 1 0 Hwf).
  - vm_compute. lia.
  - left. reflexivity.
  - reflexivity.
  - exact Hex.
Defined.

(** Alignment is not idempotent on binary64 numbers.  In the second run the
    points [(2^52, 0)] and [(2^52 + 3, 3)] are two clusters, each nearest to
    the reference centroid [(2^52, 1.75)] of label [0] (squared distances
    3.0625 and 10.5625, against 4.0625 and 11.5625 to the centroid
    [(2^52 + 2, -0.25)] of label [1]); the step gives both the label [0].
    Run again, it takes the mean of the merged cluster: the sum
    [2^53 + 3] of the first coordinates rounds to [2^53 + 4], the centroid is
    [(2^52 + 2, 1.5)], at 3.0625 from the centroid of label [1] and 4.0625
    from that of label [0], and the cluster is relabelled [1].  On the
    rational coordinates the mean is [(2^52 + 3/2, 3/2)] and the second pass
    changes nothing. *)
Lemma remap_lbls_not_idempotent_binary64 :
  let solus := mkDF 4 [[0; 1; -1; -1]; [-1; -1; 5; 6]]%Z in
  let once := mkDF 4 [[0; 1; -1; -1]; [-1; -1; 0; 0]]%Z in
  let twice := mkDF 4 [[0; 1; -1; -1]; [-1; -1; 1; 1]]%Z in
  Machine.remap_lbls Binary64.mean Binary64.nearest solus Binary64.wide_points 1
  = ([], inr once) /\
  Machine.remap_lbls Binary64.mean Binary64.nearest once Binary64.wide_points 1
  = ([], inr twice) /\
  Binary64.mean [(4503599627370496, 0); (4503599627370499, 3)]%float
  = (4503599627370498, 1.5)%float /\
  remap_lbls once (map Binary64.point_value Binary64.wide_points) 1 = ([], inr once).
Proof.
  cbv zeta. repeat split; vm_compute; reflexivity.
Qed.

End MachineExamples.

(** ** Further properties of the alignment, the vote and the threshold *)

Section ReferenceLabels.
Context {label : Type} {L : LabelRep label}.

Lemma aligned_cells_in_reference (solus : DataFrame label) (xys : list point)
    (ref : nat) :
  Forall (Forall (fun y => y = lbl_noise \/
                           (In y (column solus ref) /\ y <> lbl_noise)))
         (aligned_cols ref (drop_label lbl_noise (groupby_mean (column solus ref) xys))
                       xys (cols solus)).
Proof.
  apply Forall_forall. intros col Hin.
  apply aligned_cols_in in Hin. apply Forall_forall. intros y Hy.
  destruct Hin as [Hin|(c & Hc & ->)].
  - assert (Ecol : column solus ref = col) by (apply nth_error_nth; exact Hin).
    rewrite Ecol.
    destruct (lbl_eq_dec y lbl_noise) as [E|E]; [left; exact E | right; auto].
  - apply aligned_column_in in Hy. destruct Hy as [Hy|Hy]; [left; exact Hy|].
    right. apply centroid_keys in Hy. exact Hy.
Qed.

Lemma remap_lbls_with_cluster (solus rel : DataFrame label) (xys : list point)
    (n_jobs : Z) (log : list event) (ref : nat) :
  remap_lbls solus xys n_jobs = (log, inr rel) ->
  reference_run solus = Some ref ->
  (exists l, In l (column solus ref) /\ l <> lbl_noise) ->
  rel = mkDF (nrows solus)
             (aligned_cols ref
                (drop_label lbl_noise (groupby_mean (column solus ref) xys))
                xys (cols solus)).
Proof.
  intros H Href (l & Hl & Hln).
  destruct (remap_lbls_inr _ _ _ _ _ H)
    as (ref' & Href' & Hcol & [(Hrc & _)|(Hrc & _ & -> & _)]);
    rewrite Href in Href'; injection Href' as <-; [|reflexivity].
  exfalso.
  assert (Hin : In l (map fst (drop_label lbl_noise
                                 (groupby_mean (column solus ref) xys))))
    by (apply centroid_keys; auto).
  rewrite Hrc in Hin. exact Hin.
Qed.

(** When the Reference Run has a cluster, a successful alignment copies its
    column through and leaves in every cell the noise sentinel or a
    non-noise label of the Reference Run; the shape of the table is kept. *)
Theorem remap_lbls_reference_labels (solus rel : DataFrame label)
    (xys : list point) (n_jobs : Z) (log : list event) (ref : nat) :
  remap_lbls solus xys n_jobs = (log, inr rel) ->
  reference_run solus = Some ref ->
  (exists l, In l (column solus ref) /\ l <> lbl_noise) ->
  column rel ref = column solus ref /\
  nrows rel = nrows solus /\ shape1 rel = shape1 solus /\
  Forall (Forall (fun y => y = lbl_noise \/
                           (In y (column solus ref) /\ y <> lbl_noise)))
         (cols rel).
Proof.
  intros H Href Hcluster.
  rewrite (remap_lbls_with_cluster _ _ _ _ _ _ H Href Hcluster).
  split; [unfold column; cbn [cols]; apply aligned_cols_ref|].
  split; [reflexivity|].
  split; [unfold shape1; cbn [cols]; apply aligned_cols_length|].
  cbn [cols]. apply aligned_cells_in_reference.
Qed.

(** The column [remap_lbls] takes as Reference Run: the first column whose
    number of distinct labels, the noise sentinel counted as a label, is the
    greatest. *)
Theorem reference_run_first_max (solus : DataFrame label) (ref : nat) :
  reference_run solus = Some ref <->
  exists c,
    nth_error (cols solus) ref = Some c /\
    (forall c', In c' (cols solus) -> (n_unique c' <= n_unique c)%nat) /\
    (forall j c', (j < ref)%nat -> nth_error (cols solus) j = Some c' ->
                  (n_unique c' < n_unique c)%nat).
Proof.
  unfold reference_run, ns_clusters. split.
  - intros H. apply first_index_spec in H. destruct H as (a & Ha & Em & Hbefore).
    apply Nat.eqb_eq in Em. rewrite nth_error_map in Ha.
    destruct (nth_error (cols solus) ref) as [c|] eqn:Ec; [|discriminate].
    simpl in Ha. injection Ha as <-. exists c. split; [reflexivity|].
    assert (Hall : forall c', In c' (cols solus) -> (n_unique c' <= n_unique c)%nat).
    { intros c' Hc'. rewrite <- Em. apply list_max_nat_ge, in_map, Hc'. }
    split; [exact Hall|].
    intros j c' Hj Hc'.
    assert (Hne : (list_max_nat (map n_unique (cols solus)) =? n_unique c')%nat = false).
    { apply (Hbefore j); [exact Hj|]. rewrite nth_error_map, Hc'. reflexivity. }
    apply Nat.eqb_neq in Hne. rewrite Em in Hne.
    specialize (Hall c' (nth_error_In _ _ Hc')). lia.
  - intros (c & Hc & Hall & Hbefore).
    assert (Em : list_max_nat (map n_unique (cols solus)) = n_unique c).
    { apply Nat.le_antisymm.
      - apply list_max_nat_le. intros x Hx. apply in_map_iff in Hx.
        destruct Hx as (c' & <- & Hc'). apply Hall, Hc'.
      - apply list_max_nat_ge, in_map. eapply nth_error_In; exact Hc. }
    apply first_index_unique with (a := n_unique c).
    + rewrite nth_error_map, Hc. reflexivity.
    + rewrite Em. apply Nat.eqb_refl.
    + intros j b Hj Hb. rewrite nth_error_map in Hb.
      destruct (nth_error (cols solus) j) as [c'|] eqn:Ec'; [|discriminate].
      simpl in Hb. injection Hb as <-. rewrite Em. apply Nat.eqb_neq.
      specialize (Hbefore j c' Hj Ec'). lia.
Qed.

(** The vote raises on a table without rows or without columns. *)
Theorem ensemble_raises_on_empty (df : DataFrame label) :
  nrows df = 0%nat \/ cols df = [] -> ensemble df = inl IndexError.
Proof.
  intros H. unfold ensemble, values.
  destruct (nrows df) as [|n] eqn:En.
  - reflexivity.
  - destruct H as [H|H]; [discriminate|]. rewrite H. reflexivity.
Qed.

End ReferenceLabels.

Lemma remap_lbls_reference_labels_witness :
  let solus := mkDF 5 [[0; 0; 7; 7; -1]; [4; 4; -1; 6; 6]; [5; 5; 8; 8; 8]]%Z in
  let aligned := mkDF 5 [[0; 0; 7; 7; -1]; [0; 0; -1; 7; 7]; [0; 0; 7; 7; 7]]%Z in
  let db := [(0, 0); (1 # 10, 2 # 10); (4, 5); (6, 7); (5, 5)] in
  remap_lbls solus db 1 = ([], inr aligned) /\
  reference_run solus = Some 0%nat /\
  column aligned 0 = column solus 0 /\
  nrows aligned = nrows solus /\ shape1 aligned = shape1 solus /\
  Forall (Forall (fun y => y = lbl_noise \/ (In y (column solus 0) /\ y <> lbl_noise)))
         (cols aligned).
Proof.
  cbv zeta. split; [reflexivity|]. split; [reflexivity|].
  apply (remap_lbls_reference_labels
           (mkDF 5 [[0; 0; 7; 7; -1]; [4; 4; -1; 6; 6]; [5; 5; 8; 8; 8]]%Z)
           (mkDF 5 [[0; 0; 7; 7; -1]; [0; 0; -1; 7; 7]; [0; 0; 7; 7; 7]]%Z)
           [(0, 0); (1 # 10, 2 # 10); (4, 5); (6, 7); (5, 5)] 1 [] 0).
  - reflexivity.
  - reflexivity.
  - exists 0%Z. split; [left; reflexivity | discriminate].
Defined.

Lemma ensemble_raises_on_empty_witness :
  (nrows (mkDF 0 [[]; []] : DataFrame Z) = 0%nat \/ cols (mkDF 0 [[]; []] : DataFrame Z) = [])
  /\ ensemble (mkDF 0 [[]; []] : DataFrame Z) = inl IndexError.
Proof.
  split; [left; reflexivity|].
  apply (ensemble_raises_on_empty (mkDF 0 [[]; []] : DataFrame Z)).
  left. reflexivity.
Defined.

(** Raising the confidence threshold never lowers the number of points
    labelled as noise. *)
Theorem threshold_monotone (noise : string) (t1 t2 : Q) (ls : list string)
    (ps : list Q) :
  t1 <= t2 ->
  (count_occ string_dec (threshold noise t1 ls ps) noise
   <= count_occ string_dec (threshold noise t2 ls ps) noise)%nat.
Proof.
  intros Ht. unfold threshold.
  induction (combine ls ps) as [|[l p] lps IH]; [simpl; lia|].
  cbn [map fst snd].
  destruct (Qltb p t1) eqn:E1.
  - assert (E2 : Qltb p t2 = true).
    { apply Qltb_lt. apply Qltb_lt in E1. lra. }
    rewrite E2. cbn [count_occ]. destruct (string_dec noise noise); lia.
  - destruct (Qltb p t2); cbn [count_occ].
    + destruct (string_dec l noise), (string_dec noise noise); try lia. congruence.
    + destruct (string_dec l noise); lia.
Qed.

Lemma threshold_monotone_witness :
  (1 # 2) <= (9 # 10) /\
  threshold "-1" (1 # 2) ["0"; "0"; "7"]%string [1 # 1; 2 # 3; 1 # 3] = ["0"; "0"; "-1"]%string /\
  threshold "-1" (9 # 10) ["0"; "0"; "7"]%string [1 # 1; 2 # 3; 1 # 3] = ["0"; "-1"; "-1"]%string /\
  (count_occ string_dec
     (threshold "-1" (1 # 2) ["0"; "0"; "7"]%string [1 # 1; 2 # 3; 1 # 3]) "-1"%string
   <= count_occ string_dec
        (threshold "-1" (9 # 10) ["0"; "0"; "7"]%string [1 # 1; 2 # 3; 1 # 3]) "-1"%string)%nat.
Proof.
  assert (H : (1 # 2) <= (9 # 10)) by (unfold Qle; simpl; lia).
  split; [exact H|]. split; [reflexivity|]. split; [reflexivity|].
  apply (threshold_monotone "-1" (1 # 2) (9 # 10) ["0"; "0"; "7"]%string
           [1 # 1; 2 # 3; 1 # 3] H).
Defined.

Section FinalLabels.
Variable rng : Type.
Variable shuffle : rng -> nat -> list nat * rng.
Variable DBSCAN :
  Q -> Z -> string -> Z -> list point -> option (list Q) -> result (list Z).

(** When the Reference Run of the label matrix has a cluster, the final
    labels have one entry per point, each the noise sentinel or a non-noise
    label of the Reference Run. *)
Theorem fit_labels_in_reference_run (self : ADBSCAN) (X : list point)
    (sw : option (list Q)) (g g' : rng) (log : list event) (est : Fitted)
    (solus : DataFrame string) (ref : nat) :
  fit shuffle DBSCAN self X sw g = (g', log, inr est) ->
  solus_ est = Some solus ->
  reference_run solus = Some ref ->
  (exists l, In l (column solus ref) /\ l <> lbl_noise) ->
  length (labels_ est) = length X /\
  Forall (fun y => y = lbl_noise \/ (In y (column solus ref) /\ y <> lbl_noise))
         (labels_ est).
Proof.
  intros H Hkeep Href Hcluster. unfold fit in H.
  apply bind_inr in H.
  destruct H as (g1 & l1 & [[solus0 rel] votes] & l2 & Hc & H & _).
  destruct (cols solus0) as [|[|c0 c] cs] eqn:Ecols;
    try (unfold raise in H; discriminate).
  unfold ret in H. injection H as _ _ <-. cbn [labels_ solus_] in *.
  destruct (keep_solus self); [|discriminate]. injection Hkeep as ->.
  apply fit_consensus_inr in Hc. destruct Hc as (ld & lw & Hd & Hr & Hv).
  apply draws_columns in Hd. destruct Hd as (Hn & _ & _).
  pose proof (remap_lbls_with_cluster _ _ _ _ _ _ Hr Href Hcluster) as Hrel.
  assert (Hcells : Forall (Forall (fun y => y = lbl_noise \/
                             (In y (column solus ref) /\ y <> lbl_noise)))
                     (cols rel)).
  { rewrite Hrel. cbn [cols]. apply aligned_cells_in_reference. }
  assert (Hnr : nrows rel = nrows solus) by (rewrite Hrel; reflexivity).
  apply ensemble_inr in Hv. destruct Hv as (Hl1 & Hl2 & Hwin).
  split.
  - unfold threshold. rewrite length_map, length_combine, Hl1, Hl2, Nat.min_id.
    congruence.
  - apply threshold_cells; [left; reflexivity|].
    apply Forall_forall. intros w Hw. destruct (Hwin w Hw) as (c1 & Hc1 & Hwc).
    rewrite Forall_forall in Hcells. specialize (Hcells _ Hc1).
    rewrite Forall_forall in Hcells. apply Hcells, Hwc.
Qed.

End FinalLabels.

Lemma fit_labels_in_reference_run_witness :
  let self := mkADBSCAN 1 4 "auto" 1 (1 # 2) 2 true (1 # 2) in
  let solus := mkDF 4 [["0"; "0"; "0"; "0"]; ["-1"; "-1"; "-1"; "-1"]]%string in
  exists (g' : script) (log : list event) (est : Fitted),
    fit scripted_shuffle sklearn_DBSCAN self four_points None
        [[0; 1; 2; 3]; [0; 2; 1; 3]]%nat = (g', log, inr est) /\
    solus_ est = Some solus /\
    reference_run solus = Some 0%nat /\
    labels_ est = ["0"; "0"; "0"; "0"]%string /\
    length (labels_ est) = length four_points /\
    Forall (fun y => y = lbl_noise \/ (In y (column solus 0) /\ y <> lbl_noise))
           (labels_ est).
Proof.
  cbv zeta. do 3 eexists.
  split; [vm_compute; reflexivity|].
  split; [reflexivity|]. split; [reflexivity|]. split; [reflexivity|].
  eapply (fit_labels_in_reference_run script scripted_shuffle sklearn_DBSCAN
            (mkADBSCAN 1 4 "auto" 1 (1 # 2) 2 true (1 # 2)) four_points None
            [[0; 1; 2; 3]; [0; 2; 1; 3]]%nat).
  - vm_compute. reflexivity.
  - reflexivity.
  - reflexivity.
  - exists "0"%string. split; [left; reflexivity | discriminate].
Defined.

(** ** [fdr]: the cut-off read off the counts of the p-values *)

Lemma count_below_perm (c : Q) (l l' : list Q) :
  Permutation l l' -> count_below c l = count_below c l'.
Proof.
  intros HP. unfold count_below.
  induction HP as [|x l l' _ IH|x y l|l l' l'' _ IH1 _ IH2]; simpl.
  - reflexivity.
  - destruct (Qltb x c); simpl; congruence.
  - destruct (Qltb x c), (Qltb y c); reflexivity.
  - congruence.
Qed.

Lemma count_below_mono (c c' : Q) (l : list Q) :
  c <= c' -> (count_below c l <= count_below c' l)%nat.
Proof.
  intros Hc. unfold count_below. induction l as [|x l IH]; simpl; [lia|].
  destruct (Qltb x c) eqn:E.
  - apply Qltb_lt in E.
    assert (E' : Qltb x c' = true) by (apply Qltb_lt; lra).
    rewrite E'. simpl. lia.
  - destruct (Qltb x c'); simpl; lia.
Qed.

Lemma count_below_le (c : Q) (l : list Q) : (count_below c l <= length l)%nat.
Proof.
  unfold count_below. apply filter_length_le.
Qed.

Lemma filter_none {A} (f : A -> bool) (l : list A) :
  (forall y, In y l -> f y = false) -> filter f l = [].
Proof.
  induction l as [|x l IH]; intros H; simpl; [reflexivity|].
  rewrite (H x) by (left; reflexivity). apply IH. intros y Hy. apply H. right. exact Hy.
Qed.

(** In an ascending list the entries below [c] are a prefix. *)
Lemma sorted_below_iff (c : Q) (l : list Q) :
  StronglySorted Qle l ->
  forall j, (j < length l)%nat -> (nth j l 0 < c <-> (j < count_below c l)%nat).
Proof.
  intros HS. induction HS as [|x l HS IH Hx]; intros j Hj; simpl in Hj; [lia|].
  unfold count_below in *. simpl.
  destruct (Qltb x c) eqn:E.
  - simpl. destruct j as [|j].
    + apply Qltb_lt in E. split; [lia | intros _; exact E].
    + rewrite (IH j) by lia. lia.
  - apply Qltb_nlt in E.
    assert (Hz : filter (fun p => Qltb p c) l = []).
    { apply filter_none. intros y Hy.
      rewrite Forall_forall in Hx. specialize (Hx y Hy).
      apply Qltb_nlt. lra. }
    rewrite Hz. simpl. split; [|lia].
    intros Hlt. exfalso. destruct j as [|j]; [exact (E Hlt)|].
    rewrite Forall_forall in Hx.
    specialize (Hx (nth j l 0) (nth_In l 0 (proj2 (Nat.succ_lt_mono j (length l)) Hj))).
    simpl in Hlt. lra.
Qed.

(** [fdr] decided by counting: rank [k] is significant when at least [k]
    p-values lie strictly below [k * alpha / n]. *)
Lemma fdr_rank_count (pvalues : list Q) (alpha : Q) :
  pvalues <> [] ->
  let n := length pvalues in
  let cut := fun k : nat => Q_of_nat k * alpha / Q_of_nat n in
  (exists k : nat,
      (1 <= k <= n)%nat /\
      (k <= count_below (cut k) pvalues)%nat /\
      (forall k' : nat, (k < k' <= n)%nat -> ~ (k' <= count_below (cut k') pvalues)%nat) /\
      fdr pvalues alpha = inr (cut k))
  \/
  ((forall k : nat, (1 <= k <= n)%nat -> ~ (k <= count_below (cut k) pvalues)%nat) /\
   fdr pvalues alpha = inr (alpha / Q_of_nat n)).
Proof.
  intros Hne n cut.
  assert (Hn : length (np_sort pvalues) = n)
    by (apply Permutation_length, np_sort_perm).
  assert (Hpos : (0 < n)%nat).
  { subst n. destruct pvalues; [congruence | simpl; lia]. }
  assert (Hrank : forall k, (1 <= k <= n)%nat ->
            (Qltb (nth (k - 1) (np_sort pvalues) 0) (cut k) = true
             <-> (k <= count_below (cut k) pvalues)%nat)).
  { intros k Hk. rewrite Qltb_lt.
    rewrite (sorted_below_iff (cut k) (np_sort pvalues) (np_sort_sorted pvalues))
      by (rewrite Hn; lia).
    rewrite (count_below_perm (cut k) _ _ (np_sort_perm pvalues)). lia. }
  unfold fdr. fold n. fold cut.
  set (b := map (fun pq : Q * Q => Qltb (fst pq) (snd pq))
                (combine (rev (np_sort pvalues)) (map cut (rev (seq 1 n))))).
  assert (Hb : length b = n).
  { subst b. rewrite length_map, length_combine, length_map, !length_rev,
      length_seq, Hn. apply Nat.min_id. }
  assert (Hnth : forall j, (j < n)%nat ->
            nth j b false = Qltb (nth (n - 1 - j) (np_sort pvalues) 0) (cut (n - j)%nat)).
  { intros j Hj. subst b. rewrite <- Hn in *. apply fdr_search_nth. exact Hj. }
  pose proof (np_where_spec b) as Hw.
  destruct (np_where b) as [|i r].
  - right. split.
    + intros k Hk Hc. apply Hrank in Hc; [|exact Hk].
      specialize (Hw (n - k)%nat). rewrite Hb in Hw.
      rewrite Hnth in Hw by lia.
      replace (n - 1 - (n - k))%nat with (k - 1)%nat in Hw by lia.
      replace (n - (n - k))%nat with k in Hw by lia.
      rewrite Hw in Hc by lia. discriminate.
    + destruct (Nat.eqb_spec n 0); [lia | reflexivity].
  - left. destruct Hw as (Hi & Htrue & Hfalse). rewrite Hb in Hi.
    exists (n - i)%nat. split; [lia|].
    rewrite Hnth in Htrue by exact Hi.
    replace (n - 1 - i)%nat with (n - i - 1)%nat in Htrue by lia.
    split; [apply Hrank; [lia | exact Htrue]|]. split.
    + intros k' Hk' Hc. apply Hrank in Hc; [|lia].
      specialize (Hfalse (n - k')%nat). rewrite Hnth in Hfalse by lia.
      replace (n - 1 - (n - k'))%nat with (k' - 1)%nat in Hfalse by lia.
      replace (n - (n - k'))%nat with k' in Hfalse by lia.
      rewrite Hfalse in Hc by lia. discriminate.
    + rewrite fdr_cut_nth by exact Hi. reflexivity.
Qed.

Lemma Q_of_nat_le (a b : nat) : (a <= b)%nat -> Q_of_nat a <= Q_of_nat b.
Proof.
  intros H. unfold Q_of_nat. rewrite <- Zle_Qle. lia.
Qed.

Lemma cut_mono (n k k' : nat) (a a' : Q) :
  (0 < n)%nat -> (k <= k')%nat -> 0 <= a -> a <= a' ->
  Q_of_nat k * a / Q_of_nat n <= Q_of_nat k' * a' / Q_of_nat n.
Proof.
  intros Hn Hk Ha Haa.
  pose proof (Q_of_nat_pos n Hn) as Hpos.
  pose proof (Q_of_nat_le k k' Hk) as Hkk.
  assert (H0 : 0 <= Q_of_nat k) by (apply (Q_of_nat_le 0 k); lia).
  apply Qle_shift_div_l; [exact Hpos|].
  setoid_replace (Q_of_nat k * a / Q_of_nat n * Q_of_nat n) with (Q_of_nat k * a)
    by (field; lra).
  nra.
Qed.

Lemma cut_one (n : nat) (a : Q) :
  (0 < n)%nat -> Q_of_nat 1 * a / Q_of_nat n == a / Q_of_nat n.
Proof.
  intros Hn. pose proof (Q_of_nat_pos n Hn).
  unfold Q_of_nat at 1. simpl. field. lra.
Qed.

Lemma fdr_inr_nonempty (pvalues : list Q) (alpha c : Q) :
  fdr pvalues alpha = inr c -> pvalues <> [] /\ (0 < length pvalues)%nat.
Proof.
  intros H. destruct pvalues; [discriminate H|]. split; [discriminate | simpl; lia].
Qed.

(** [fdr] raises on the empty list of p-values, where [alpha / n] divides by
    zero, and on no other input. *)
Theorem fdr_raises_only_on_empty (pvalues : list Q) (alpha : Q) (e : exn) :
  fdr pvalues alpha = inl e <-> pvalues = [] /\ e = ZeroDivisionError.
Proof.
  split.
  - intros H. destruct pvalues as [|p l].
    + split; [reflexivity|]. cbv in H. congruence.
    + exfalso.
      destruct (fdr_rank_count (p :: l) alpha ltac:(discriminate))
        as [(k & _ & _ & _ & E)|(_ & E)]; rewrite E in H; discriminate.
  - intros (-> & ->). reflexivity.
Qed.

Lemma count_below_proper (c c' : Q) (l : list Q) :
  c == c' -> count_below c l = count_below c' l.
Proof.
  intros Hc. apply Nat.le_antisymm; apply count_below_mono; lra.
Qed.

(** The cut-off is consistent with the rejections it causes: for
    [alpha >= 0], when [m] p-values lie strictly below the returned
    cut-off, the cut-off is [max(1, m) * alpha / n]. *)
Theorem fdr_rejections_match_rank (pvalues : list Q) (alpha c : Q) :
  0 <= alpha ->
  fdr pvalues alpha = inr c ->
  c == Q_of_nat (Nat.max 1 (count_below c pvalues)) * alpha
       / Q_of_nat (length pvalues).
Proof.
  intros Ha H.
  destruct (fdr_inr_nonempty _ _ _ H) as (Hne & Hn).
  pose proof (fdr_rank_count pvalues alpha Hne) as HR. cbv zeta in HR.
  set (n := length pvalues) in *.
  assert (Hup : forall k, (1 <= k <= n)%nat ->
            (forall k', (k < k' <= n)%nat ->
               ~ (k' <= count_below (Q_of_nat k' * alpha / Q_of_nat n) pvalues)%nat) ->
            (count_below (Q_of_nat k * alpha / Q_of_nat n) pvalues <= k)%nat).
  { intros k Hk Hmax.
    destruct (Nat.le_gt_cases (count_below (Q_of_nat k * alpha / Q_of_nat n) pvalues) k)
      as [Hle|Hgt]; [exact Hle|].
    exfalso.
    set (m := count_below (Q_of_nat k * alpha / Q_of_nat n) pvalues) in *.
    assert (Hm : (m <= n)%nat) by apply count_below_le.
    apply (Hmax m); [lia|].
    apply (count_below_mono (Q_of_nat k * alpha / Q_of_nat n)).
    apply cut_mono; [exact Hn | lia | exact Ha | lra]. }
  destruct HR as [(k & Hk & Hc & Hmax & E)|(Hnone & E)];
    rewrite E in H; injection H as <-.
  - pose proof (Hup k Hk Hmax) as Hle.
    replace (count_below (Q_of_nat k * alpha / Q_of_nat n) pvalues) with k by lia.
    replace (Nat.max 1 k) with k by lia. reflexivity.
  - pose proof (cut_one n alpha Hn) as H1.
    rewrite <- (count_below_proper _ _ pvalues H1).
    assert (Hz : count_below (Q_of_nat 1 * alpha / Q_of_nat n) pvalues = 0%nat).
    { destruct (count_below (Q_of_nat 1 * alpha / Q_of_nat n) pvalues) eqn:Ec;
        [reflexivity|].
      exfalso. apply (Hnone 1%nat); [lia|]. rewrite Ec. lia. }
    rewrite Hz. simpl Nat.max. symmetry. exact H1.
Qed.

Lemma fdr_rejections_match_rank_witness :
  let pvalues := [1 # 100; 2 # 100; 9 # 10; 3 # 100] in
  0 <= (5 # 100) /\
  fdr pvalues (5 # 100) = inr (Q_of_nat 3 * (5 # 100) / Q_of_nat 4) /\
  count_below (Q_of_nat 3 * (5 # 100) / Q_of_nat 4) pvalues = 3%nat /\
  Q_of_nat 3 * (5 # 100) / Q_of_nat 4
  == Q_of_nat (Nat.max 1 (count_below (Q_of_nat 3 * (5 # 100) / Q_of_nat 4) pvalues))
     * (5 # 100) / Q_of_nat (length pvalues).
Proof.
  split; [discriminate|]. split; [reflexivity|]. split; [reflexivity|].
  apply (fdr_rejections_match_rank [1 # 100; 2 # 100; 9 # 10; 3 # 100] (5 # 100));
    [discriminate | reflexivity].
Defined.

(** The cut-off grows with the significance level: for
    [0 <= alpha1 <= alpha2], [fdr] at [alpha1] is at most [fdr] at
    [alpha2]. *)
Theorem fdr_monotone_in_alpha (pvalues : list Q) (alpha1 alpha2 c1 c2 : Q) :
  0 <= alpha1 -> alpha1 <= alpha2 ->
  fdr pvalues alpha1 = inr c1 -> fdr pvalues alpha2 = inr c2 ->
  c1 <= c2.
Proof.
  intros Ha Haa H1 H2.
  destruct (fdr_inr_nonempty _ _ _ H1) as (Hne & Hn).
  pose proof (fdr_rank_count pvalues alpha1 Hne) as HR1. cbv zeta in HR1.
  pose proof (fdr_rank_count pvalues alpha2 Hne) as HR2. cbv zeta in HR2.
  set (n := length pvalues) in *.
  assert (Ha2 : 0 <= alpha2) by lra.
  assert (Hlow : alpha1 / Q_of_nat n <= c2).
  { apply Qle_trans with (alpha2 / Q_of_nat n).
    - pose proof (Q_of_nat_pos n Hn). apply Qle_shift_div_l; [lra|].
      setoid_replace (alpha1 / Q_of_nat n * Q_of_nat n) with alpha1 by (field; lra).
      exact Haa.
    - pose proof (cut_one n alpha2 Hn) as E1.
      destruct HR2 as [(k & Hk & _ & _ & E)|(_ & E)];
        rewrite E in H2; injection H2 as <-; [|lra].
      rewrite <- E1. apply cut_mono; [exact Hn | lia | exact Ha2 | lra]. }
  destruct HR1 as [(k & Hk & Hc & _ & E)|(_ & E)];
    rewrite E in H1; injection H1 as <-; [|exact Hlow].
  assert (Hc2 : (k <= count_below (Q_of_nat k * alpha2 / Q_of_nat n) pvalues)%nat).
  { eapply Nat.le_trans; [exact Hc|]. apply count_below_mono.
    apply cut_mono; [exact Hn | lia | exact Ha | exact Haa]. }
  destruct HR2 as [(k2 & Hk2 & _ & Hmax & E2)|(Hnone & _)].
  - rewrite E2 in H2. injection H2 as <-.
    destruct (Nat.le_gt_cases k k2) as [Hle|Hgt].
    + apply cut_mono; [exact Hn | exact Hle | exact Ha | exact Haa].
    + exfalso. apply (Hmax k); [lia | exact Hc2].
  - exfalso. apply (Hnone k Hk). exact Hc2.
Qed.

Lemma fdr_monotone_in_alpha_witness :
  let pvalues := [4 # 100; 1 # 100; 9 # 10] in
  0 <= (5 # 100) /\ (5 # 100) <= (1 # 10) /\
  fdr pvalues (5 # 100) = inr (Q_of_nat 1 * (5 # 100) / Q_of_nat 3) /\
  fdr pvalues (1 # 10) = inr (Q_of_nat 2 * (1 # 10) / Q_of_nat 3) /\
  Q_of_nat 1 * (5 # 100) / Q_of_nat 3 <= Q_of_nat 2 * (1 # 10) / Q_of_nat 3.
Proof.
  split; [discriminate|]. split; [discriminate|].
  split; [reflexivity|]. split; [reflexivity|].
  apply (fdr_monotone_in_alpha [4 # 100; 1 # 100; 9 # 10] (5 # 100) (1 # 10));
    [discriminate | discriminate | reflexivity | reflexivity].
Defined.

(** The cut-off does not depend on the order of the p-values. *)
Theorem fdr_permutation_invariant (pvalues pvalues' : list Q) (alpha : Q) :
  Permutation pvalues pvalues' ->
  fdr pvalues alpha = fdr pvalues' alpha.
Proof.
  intros HP.
  destruct pvalues as [|p l].
  - apply Permutation_nil in HP. subst. reflexivity.
  - assert (Hne : p :: l <> []) by discriminate.
    assert (Hne' : pvalues' <> []).
    { intros ->. apply Permutation_sym, Permutation_nil in HP. discriminate. }
    pose proof (Permutation_length HP) as Hlen.
    assert (Hcount : forall c, count_below c (p :: l) = count_below c pvalues')
      by (intros c; apply count_below_perm; exact HP).
    destruct (fdr_rank_count (p :: l) alpha Hne)
      as [(k & Hk & Hc & Hmax & E)|(Hnone & E)];
    destruct (fdr_rank_count pvalues' alpha Hne')
      as [(k' & Hk' & Hc' & Hmax' & E')|(Hnone' & E')];
    rewrite E, E'; rewrite <- Hlen in *.
    + assert (k = k').
      { destruct (Nat.lt_trichotomy k k') as [Hlt|[Heq|Hgt]]; [|exact Heq|]; exfalso.
        - apply (Hmax k'); [lia|]. rewrite Hcount. exact Hc'.
        - apply (Hmax' k); [lia|]. rewrite <- Hcount. exact Hc. }
      subst. reflexivity.
    + exfalso. apply (Hnone' k Hk). rewrite <- Hcount. exact Hc.
    + exfalso. apply (Hnone k' Hk'). rewrite Hcount. exact Hc'.
    + reflexivity.
Qed.

Lemma fdr_permutation_invariant_witness :
  Permutation [4 # 100; 1 # 100; 9 # 10] [9 # 10; 4 # 100; 1 # 100] /\
  fdr [4 # 100; 1 # 100; 9 # 10] (5 # 100) = fdr [9 # 10; 4 # 100; 1 # 100] (5 # 100).
Proof.
  assert (HP : Permutation [4 # 100; 1 # 100; 9 # 10] [9 # 10; 4 # 100; 1 # 100]).
  { apply Permutation_sym. apply (Permutation_cons_app [4 # 100; 1 # 100] []).
    apply Permutation_refl. }
  split; [exact HP|].
  apply (fdr_permutation_invariant _ _ (5 # 100) HP).
Defined.

(** ** [ensemble]: the order of the runs *)

Section VoteOrder.
Context {label : Type} {L : LabelRep label}.

(** The vote on a table with rows and columns, row by row. *)
Lemma ensemble_rows (df : DataFrame label) :
  wf_frame df -> (1 <= shape1 df)%nat -> (1 <= nrows df)%nat ->
  exists v : Votes,
    ensemble df = inr v /\
    length (lbls v) = nrows df /\ length (pct v) = nrows df /\
    forall i, (i < nrows df)%nat ->
      exists w,
        nth_error (lbls v) i = Some w /\
        nth_error (pct v) i
          = Some (Q_of_nat (count_occ lbl_eq_dec (row_at (cols df) i) w)
                  / Q_of_nat (shape1 df)) /\
        (forall l, (count_occ lbl_eq_dec (row_at (cols df) i) l
                    <= count_occ lbl_eq_dec (row_at (cols df) i) w)%nat) /\
        (1 <= count_occ lbl_eq_dec (row_at (cols df) i) w <= shape1 df)%nat.
Proof.
  intros Hwf HR Hn.
  set (g := fun a : list label =>
              match most_common_1 (Counter a) with
              | [] => (lbl_zero, 0%nat)
              | x :: _ => x
              end).
  assert (Hrows : forall a, In a (values df) -> length a = shape1 df).
  { intros a Ha. unfold values in Ha. apply in_map_iff in Ha.
    destruct Ha as (j & <- & Hj). apply in_seq in Hj.
    apply row_at_length with (n := nrows df); [exact Hwf | lia]. }
  assert (Hok : rmap_list (fun a => match most_common_1 (Counter a) with
                                    | [] => inl IndexError
                                    | x :: _ => inr x
                                    end) (values df) = inr (map g (values df))).
  { apply rmap_list_ok. intros a Ha.
    destruct (most_common_row a) as (w & Ew & _).
    - intros ->. specialize (Hrows [] Ha). simpl in Hrows. lia.
    - unfold g. rewrite Ew. reflexivity. }
  assert (Hvlen : length (values df) = nrows df)
    by (unfold values; rewrite length_map, length_seq; reflexivity).
  unfold ensemble. rewrite Hok. simpl.
  destruct (map g (values df)) as [|c0 cs] eqn:Ec.
  { apply (f_equal (@length _)) in Ec. rewrite length_map, Hvlen in Ec. simpl in Ec. lia. }
  rewrite <- Ec. eexists. split; [reflexivity|]. simpl.
  rewrite !length_map, Hvlen. split; [reflexivity|]. split; [reflexivity|].
  intros i Hi.
  assert (Hrow : nth_error (values df) i = Some (row_at (cols df) i)).
  { unfold values. rewrite nth_error_map, nth_error_seq.
    destruct (Nat.ltb_spec i (nrows df)); [reflexivity | lia]. }
  set (row := row_at (cols df) i) in *.
  assert (Hin : In row (values df)) by (eapply nth_error_In; exact Hrow).
  destruct (most_common_row row) as (w & Ew & Hmax & _ & Hc).
  { intros E. specialize (Hrows row Hin). rewrite E in Hrows. simpl in Hrows. lia. }
  assert (Hg : g row = (w, count_occ lbl_eq_dec row w)) by (unfold g; rewrite Ew; reflexivity).
  exists w.
  split; [rewrite !nth_error_map, Hrow; simpl; rewrite Hg; reflexivity|].
  split; [rewrite !nth_error_map, Hrow; simpl; rewrite Hg; reflexivity|].
  split; [exact Hmax|]. rewrite <- (Hrows row Hin). exact Hc.
Qed.

Lemma row_at_perm (cs cs' : list (list label)) (i : nat) :
  Permutation cs cs' -> Permutation (row_at cs i) (row_at cs' i).
Proof.
  intros HP. unfold row_at.
  induction HP as [|c cs cs' _ IH|c d cs|cs cs' cs'' _ IH1 _ IH2]; simpl.
  - apply Permutation_refl.
  - apply Permutation_app_head. exact IH.
  - rewrite !app_assoc. apply Permutation_app_tail. apply Permutation_app_comm.
  - eapply Permutation_trans; eassumption.
Qed.

Lemma count_occ_two (row : list label) (a b : label) :
  a <> b ->
  (count_occ lbl_eq_dec row a + count_occ lbl_eq_dec row b <= length row)%nat.
Proof.
  intros Hab. induction row as [|x t IH]; simpl; [lia|].
  destruct (lbl_eq_dec x a), (lbl_eq_dec x b); subst; try congruence; lia.
Qed.

Lemma share_above_half (c r : nat) :
  (0 < r)%nat -> (1 # 2) < Q_of_nat c / Q_of_nat r -> (r < 2 * c)%nat.
Proof.
  intros Hr H.
  pose proof (Q_of_nat_pos r Hr) as Hpos.
  assert (H2 : Q_of_nat r < Q_of_nat (2 * c)).
  { assert (E : Q_of_nat (2 * c) == 2 * (Q_of_nat c / Q_of_nat r) * Q_of_nat r).
    { unfold Q_of_nat at 1. rewrite Nat2Z.inj_mul, inject_Z_mult.
      change (inject_Z (Z.of_nat 2)) with 2. fold (Q_of_nat c). field. lra. }
    rewrite E. nra. }
  unfold Q_of_nat in H2. rewrite <- Zlt_Qlt in H2. lia.
Qed.

(** The vote does not depend on the order of the runs as far as the shares
    go: on a table with the same columns in another order every row keeps its
    share, and it keeps its winning label wherever the share exceeds one
    half. *)
Theorem ensemble_order_of_runs (df df' : DataFrame label) :
  wf_frame df -> (1 <= shape1 df)%nat -> (1 <= nrows df)%nat ->
  nrows df' = nrows df -> Permutation (cols df) (cols df') ->
  exists v v' : Votes,
    ensemble df = inr v /\ ensemble df' = inr v' /\
    pct v = pct v' /\
    forall i w p,
      nth_error (lbls v) i = Some w -> nth_error (pct v) i = Some p ->
      (1 # 2) < p -> nth_error (lbls v') i = Some w.
Proof.
  intros Hwf HR Hn Hrows HP.
  assert (Hwf' : wf_frame df').
  { unfold wf_frame in *. rewrite Hrows. eapply Permutation_Forall; eassumption. }
  assert (HR' : shape1 df' = shape1 df)
    by (unfold shape1; symmetry; apply Permutation_length; exact HP).
  destruct (ensemble_rows df Hwf HR Hn) as (v & Ev & Hl & Hp & Hv).
  destruct (ensemble_rows df' Hwf') as (v' & Ev' & Hl' & Hp' & Hv'); try lia.
  exists v, v'. split; [exact Ev|]. split; [exact Ev'|].
  assert (Hsame : forall i, (i < nrows df)%nat ->
            exists w w',
              nth_error (lbls v) i = Some w /\ nth_error (lbls v') i = Some w' /\
              nth_error (pct v) i
              = Some (Q_of_nat (count_occ lbl_eq_dec (row_at (cols df) i) w)
                      / Q_of_nat (shape1 df)) /\
              nth_error (pct v') i = nth_error (pct v) i /\
              count_occ lbl_eq_dec (row_at (cols df) i) w'
              = count_occ lbl_eq_dec (row_at (cols df) i) w /\
              length (row_at (cols df) i) = shape1 df).
  { intros i Hi.
    destruct (Hv i Hi) as (w & Ew & Epw & Hmax & _).
    destruct (Hv' i) as (w' & Ew' & Epw' & Hmax' & _); [lia|].
    exists w, w'. split; [exact Ew|]. split; [exact Ew'|]. split; [exact Epw|].
    pose proof (row_at_perm _ _ i HP) as HPr.
    assert (Hc : forall l, count_occ lbl_eq_dec (row_at (cols df') i) l
                           = count_occ lbl_eq_dec (row_at (cols df) i) l).
    { intros l. symmetry. revert l.
      apply (proj1 (Permutation_count_occ lbl_eq_dec _ _)). exact HPr. }
    assert (Heq : count_occ lbl_eq_dec (row_at (cols df) i) w'
                  = count_occ lbl_eq_dec (row_at (cols df) i) w).
    { apply Nat.le_antisymm; [apply Hmax|].
      rewrite <- (Hc w'), <- (Hc w). apply Hmax'. }
    split; [rewrite Epw', Epw, HR', (Hc w'), Heq; reflexivity|].
    split; [exact Heq|].
    apply row_at_length with (n := nrows df); [exact Hwf | exact Hi]. }
  split.
  - apply nth_error_ext. intros i.
    destruct (Nat.lt_ge_cases i (nrows df)) as [Hi|Hi].
    + destruct (Hsame i Hi) as (_ & _ & _ & _ & _ & E & _). symmetry. exact E.
    + rewrite (proj2 (nth_error_None _ _)) by lia.
      rewrite (proj2 (nth_error_None _ _)) by lia. reflexivity.
  - intros i w p Ew Ep Hhalf.
    assert (Hi : (i < nrows df)%nat).
    { rewrite <- Hl. apply nth_error_Some. rewrite Ew. discriminate. }
    destruct (Hsame i Hi) as (w0 & w' & Ew0 & Ew' & Ep0 & _ & Hc & Hlen).
    rewrite Ew in Ew0. injection Ew0 as <-.
    rewrite Ep in Ep0. injection Ep0 as ->.
    apply share_above_half in Hhalf; [|lia].
    destruct (lbl_eq_dec w w') as [->|Hne]; [exact Ew'|].
    exfalso. pose proof (count_occ_two (row_at (cols df) i) w w' Hne) as H2. lia.
Qed.

End VoteOrder.

Lemma ensemble_order_of_runs_witness :
  let df := mkDF 3 [[0; 0; 7]; [0; 7; 7]; [0; 7; -1]]%Z in
  let df' := mkDF 3 [[0; 7; -1]; [0; 7; 7]; [0; 0; 7]]%Z in
  ensemble df = inr (mkVotes [0; 7; 7]%Z [3 # 3; 2 # 3; 2 # 3]) /\
  ensemble df' = inr (mkVotes [0; 7; 7]%Z [3 # 3; 2 # 3; 2 # 3]) /\
  exists v v' : Votes,
    ensemble df = inr v /\ ensemble df' = inr v' /\
    pct v = pct v' /\
    forall i w p,
      nth_error (lbls v) i = Some w -> nth_error (pct v) i = Some p ->
      (1 # 2) < p -> nth_error (lbls v') i = Some w.
Proof.
  cbv zeta. split; [reflexivity|]. split; [reflexivity|].
  apply (ensemble_order_of_runs
           (mkDF 3 [[0; 0; 7]; [0; 7; 7]; [0; 7; -1]]%Z)
           (mkDF 3 [[0; 7; -1]; [0; 7; 7]; [0; 0; 7]]%Z)).
  - repeat constructor.
  - vm_compute; lia.
  - vm_compute; lia.
  - reflexivity.
  - simpl. apply Permutation_rev with (l := [[0; 0; 7]; [0; 7; 7]; [0; 7; -1]]%Z).
Defined.

(** ** [remap_lbls]: what the alignment does to one run *)

Section AlignedRuns.
Context {label : Type} {L : LabelRep label}.

(** A successful alignment rewrites every column cell by cell, by a function
    of the cell's label that fixes the noise sentinel and sends a cluster
    label to a cluster label. *)
Lemma remap_lbls_columns (solus rel : DataFrame label) (xys : list point)
    (n_jobs : Z) (log : list event) (s : nat) (c c' : list label) :
  remap_lbls solus xys n_jobs = (log, inr rel) ->
  nth_error (cols solus) s = Some c -> nth_error (cols rel) s = Some c' ->
  exists f : label -> label,
    c' = map f c /\
    forall l, In l c -> (f l = lbl_noise <-> l = lbl_noise).
Proof.
  intros H Hc Hc'.
  destruct (remap_lbls_inr _ _ _ _ _ H)
    as (ref & Href & Hcol & [(_ & -> & _)|(Hrc & _ & -> & _)]).
  - rewrite Hc in Hc'. injection Hc' as <-.
    exists (fun l => l). split; [symmetry; apply map_id | intros; reflexivity].
  - simpl in Hc'. rewrite nth_error_aligned_cols, Hc in Hc'. simpl in Hc'.
    injection Hc' as <-.
    destruct (s =? ref)%nat.
    + exists (fun l => l). split; [symmetry; apply map_id | intros; reflexivity].
    + set (rc := drop_label lbl_noise (groupby_mean (column solus ref) xys)) in *.
      exists (relabel rc xys c). split; [reflexivity|].
      intros l Hl. split.
      * intros E. destruct (lbl_eq_dec l lbl_noise) as [En|En]; [exact En|].
        exfalso.
        pose proof (relabel_cluster rc xys c l Hrc Hl En) as Hk.
        apply nth_error_In in Hk. rewrite E in Hk.
        apply centroid_keys in Hk. destruct Hk as (_ & Hk). apply Hk. reflexivity.
      * intros ->. unfold relabel. rewrite series_map_noise. reflexivity.
Qed.

(** The alignment keeps the clusters of every run apart from merging them:
    a cell is noise after the step exactly when it was noise before, and two
    points that shared a label in a run share a label in the aligned run. *)
Theorem remap_lbls_keeps_clusters (solus rel : DataFrame label) (xys : list point)
    (n_jobs : Z) (log : list event) (s : nat) (c c' : list label) :
  remap_lbls solus xys n_jobs = (log, inr rel) ->
  nth_error (cols solus) s = Some c -> nth_error (cols rel) s = Some c' ->
  length c' = length c /\
  (forall i l l',
      nth_error c i = Some l -> nth_error c' i = Some l' ->
      (l' = lbl_noise <-> l = lbl_noise)) /\
  (forall i j l l' m',
      nth_error c i = Some l -> nth_error c j = Some l ->
      nth_error c' i = Some l' -> nth_error c' j = Some m' -> l' = m').
Proof.
  intros H Hc Hc'.
  destruct (remap_lbls_columns _ _ _ _ _ _ _ _ H Hc Hc') as (f & -> & Hf).
  split; [apply length_map|]. split.
  - intros i l l' Hl Hl'. rewrite nth_error_map, Hl in Hl'. injection Hl' as <-.
    apply Hf. eapply nth_error_In. exact Hl.
  - intros i j l l' m' Hi Hj Hi' Hj'.
    rewrite nth_error_map, Hi in Hi'. rewrite nth_error_map, Hj in Hj'.
    simpl in Hi', Hj'. congruence.
Qed.

(** The alignment adds no label to a run: no column has more distinct labels
    after the step than before, and the Reference Run of the aligned table is
    the Reference Run of the table it came from. *)
Theorem remap_lbls_never_adds_labels (solus rel : DataFrame label) (xys : list point)
    (n_jobs : Z) (log : list event) :
  remap_lbls solus xys n_jobs = (log, inr rel) ->
  reference_run rel = reference_run solus /\
  shape1 rel = shape1 solus /\
  forall s c c',
    nth_error (cols solus) s = Some c -> nth_error (cols rel) s = Some c' ->
    (n_unique c' <= n_unique c)%nat.
Proof.
  intros H. split; [|split].
  - destruct (remap_lbls_inr _ _ _ _ _ H)
      as (ref & Href & _ & [(_ & -> & _)|(_ & _ & -> & _)]); [reflexivity|].
    rewrite Href. apply reference_run_aligned. exact Href.
  - destruct (remap_lbls_inr _ _ _ _ _ H)
      as (ref & _ & _ & [(_ & -> & _)|(_ & _ & -> & _)]); [reflexivity|].
    unfold shape1. simpl. apply aligned_cols_length.
  - intros s c c' Hc Hc'.
    destruct (remap_lbls_columns _ _ _ _ _ _ _ _ H Hc Hc') as (f & -> & _).
    apply n_unique_map_le.
Qed.

End AlignedRuns.

Lemma remap_lbls_keeps_clusters_witness :
  let solus := mkDF 5 [[0; 0; 7; 7; -1]; [4; 4; -1; 6; 6]; [5; 5; 8; 8; 8]]%Z in
  let aligned := mkDF 5 [[0; 0; 7; 7; -1]; [0; 0; -1; 7; 7]; [0; 0; 7; 7; 7]]%Z in
  let db := [(0, 0); (1 # 10, 2 # 10); (4, 5); (6, 7); (5, 5)] in
  let c := [4; 4; -1; 6; 6]%Z in
  let c' := [0; 0; -1; 7; 7]%Z in
  remap_lbls solus db 1 = ([], inr aligned) /\
  length c' = length c /\
  (forall i l l',
      nth_error c i = Some l -> nth_error c' i = Some l' ->
      (l' = lbl_noise <-> l = lbl_noise)) /\
  (forall i j l l' m',
      nth_error c i = Some l -> nth_error c j = Some l ->
      nth_error c' i = Some l' -> nth_error c' j = Some m' -> l' = m').
Proof.
  cbv zeta. split; [reflexivity|].
  apply (remap_lbls_keeps_clusters
           (mkDF 5 [[0; 0; 7; 7; -1]; [4; 4; -1; 6; 6]; [5; 5; 8; 8; 8]]%Z)
           (mkDF 5 [[0; 0; 7; 7; -1]; [0; 0; -1; 7; 7]; [0; 0; 7; 7; 7]]%Z)
           [(0, 0); (1 # 10, 2 # 10); (4, 5); (6, 7); (5, 5)] 1 [] 1);
    reflexivity.
Defined.

Lemma remap_lbls_never_adds_labels_witness :
  let solus := mkDF 5 [[0; 0; 7; 7; -1]; [4; 4; -1; 6; 6]; [5; 5; 8; 8; 8]]%Z in
  let aligned := mkDF 5 [[0; 0; 7; 7; -1]; [0; 0; -1; 7; 7]; [0; 0; 7; 7; 7]]%Z in
  let db := [(0, 0); (1 # 10, 2 # 10); (4, 5); (6, 7); (5, 5)] in
  remap_lbls solus db 1 = ([], inr aligned) /\
  reference_run aligned = reference_run solus /\
  shape1 aligned = shape1 solus /\
  forall s c c',
    nth_error (cols solus) s = Some c -> nth_error (cols aligned) s = Some c' ->
    (n_unique c' <= n_unique c)%nat.
Proof.
  cbv zeta. split; [reflexivity|].
  apply (remap_lbls_never_adds_labels
           (mkDF 5 [[0; 0; 7; 7; -1]; [4; 4; -1; 6; 6]; [5; 5; 8; 8; 8]]%Z)
           (mkDF 5 [[0; 0; 7; 7; -1]; [0; 0; -1; 7; 7]; [0; 0; 7; 7; 7]]%Z)
           [(0, 0); (1 # 10, 2 # 10); (4, 5); (6, 7); (5, 5)] 1 []).
  reflexivity.
Defined.

(** ** [_one_draw]: the sample and its extension to the point set *)

Lemma iloc_inr {A} (l : list A) (d : A) (rids : list nat) (r : list A) :
  iloc l rids = inr r ->
  Forall (fun i => (i < length l)%nat) rids /\ r = map (fun i => nth i l d) rids.
Proof.
  unfold iloc. revert r. induction rids as [|i rids IH]; intros r H; simpl in H.
  - injection H as <-. split; [constructor | reflexivity].
  - destruct (nth_error l i) as [a|] eqn:E; [|discriminate H]. cbn [rbind] in H.
    destruct (rmap_list _ rids) as [err|bs] eqn:Er; [discriminate H|].
    cbn [rbind] in H. injection H as <-.
    destruct (IH bs eq_refl) as (Hr & ->).
    split.
    + constructor; [|exact Hr]. apply nth_error_Some. rewrite E. discriminate.
    + simpl. f_equal. symmetry. apply nth_error_nth. exact E.
Qed.

Lemma py_int_small (q : Q) : -1 < q -> q < 1 -> py_int q = 0%Z.
Proof.
  intros Hlo Hhi. unfold py_int.
  destruct (Qle_bool 0 q) eqn:E.
  - apply Qle_bool_iff in E.
    pose proof (Qfloor_le q) as H1. pose proof (Qlt_floor q) as H2.
    assert (Ha : inject_Z (Qfloor q) < inject_Z 1) by (change (inject_Z 1) with 1; lra).
    assert (Hb : inject_Z 0 < inject_Z (Qfloor q + 1)) by (change (inject_Z 0) with 0; lra).
    rewrite <- Zlt_Qlt in Ha, Hb. lia.
  - assert (Hneg : q < 0).
    { destruct (Qlt_le_dec q 0) as [Hq|Hq]; [exact Hq|].
      apply Qle_bool_iff in Hq. congruence. }
    unfold Qceiling.
    pose proof (Qfloor_le (- q)) as H1. pose proof (Qlt_floor (- q)) as H2.
    assert (Ha : inject_Z (Qfloor (- q)) < inject_Z 1) by (change (inject_Z 1) with 1; lra).
    assert (Hb : inject_Z 0 < inject_Z (Qfloor (- q) + 1))
      by (change (inject_Z 0) with 0; lra).
    rewrite <- Zlt_Qlt in Ha, Hb. lia.
Qed.

Section DrawFacts.
Variable rng : Type.
Variable shuffle : rng -> nat -> list nat * rng.
Variable DBSCAN :
  Q -> Z -> string -> Z -> list point -> option (list Q) -> result (list Z).

(** A draw whose sample is empty raises: the density primitive refuses the
    empty sample, or the classifier does. *)
Lemma one_draw_no_sample (n : nat) (X : list point) (sw : option (list Q))
    (pct e : Q) (ms : Z) (alg : string) (nj : Z) (g : rng) :
  py_int (Q_of_nat n * pct) = 0%Z ->
  exists err, _one_draw shuffle DBSCAN n X sw pct e ms alg nj g
              = (snd (shuffle g n), [], inl err).
Proof.
  intros Hz.
  unfold _one_draw. destruct (shuffle g n) as [rids g1]. cbn [snd].
  rewrite Hz. unfold py_slice_to. cbn [Z.ltb Z.compare Z.to_nat firstn].
  destruct sw as [w|]; cbn [iloc rmap_list rbind];
    (destruct (DBSCAN _ _ _ _ _ _) as [err|lab]; cbn [rbind]; [eexists; reflexivity|];
     unfold Series; rewrite length_map;
     destruct lab; cbn [length Nat.eqb rbind KNeighborsClassifier_1];
     eexists; reflexivity).
Qed.

(** The sample of a draw has [int(n * pct_exact)] points.  When the product
    stays below one by more than the rounding of one multiplication (it is at
    most [1 - 2^-53], the binary64 number before one), the sample is empty,
    and [fit] with [reps >= 1] raises inside its first draw, whatever the
    density primitive does with the empty sample. *)
Theorem fit_raises_on_small_sample (self : ADBSCAN) (X : list point)
    (sw : option (list Q)) (g : rng) :
  (1 <= reps self)%Z ->
  0 <= pct_exact self ->
  Q_of_nat (length X) * pct_exact self <= 1 - (1 # 9007199254740992) ->
  exists (log : list event) (e : exn),
    fit shuffle DBSCAN self X sw g = (snd (shuffle g (length X)), log, inl e) /\
    filter is_enter log = [Enter "_one_draw"].
Proof.
  intros Hreps Hpct Hhi.
  assert (Hlo : -1 < Q_of_nat (length X) * pct_exact self).
  { assert (H0 : 0 <= Q_of_nat (length X)) by (apply (Q_of_nat_le 0); lia).
    assert (0 <= Q_of_nat (length X) * pct_exact self) by (apply Qmult_le_0_compat; assumption).
    lra. }
  assert (Hlt : Q_of_nat (length X) * pct_exact self < 1).
  { assert (0 < (1 # 9007199254740992)) by reflexivity. lra. }
  destruct (one_draw_no_sample (length X) X sw (pct_exact self) (eps self)
              (min_samples self) (algorithm self) (n_jobs self) g
              (py_int_small _ Hlo Hlt)) as (err & Herr).
  unfold fit, fit_consensus, draws.
  destruct (Z.ltb_spec (reps self) 0) as [Hneg|_]; [lia|].
  destruct (Z.to_nat (reps self)) as [|k] eqn:Ek; [lia|].
  cbn [seq for_each].
  destruct (multi_core (n_jobs self));
    unfold bind at 1; unfold bind at 1; unfold bind at 1;
    cbn [emit]; rewrite ?Herr;
    (eexists; exists err; split; [unfold bind; cbn [emit]; rewrite ?Herr; reflexivity|];
     reflexivity).
Qed.

(** The labels of a draw are the labels the density primitive gave a sample,
    carried to every point by its nearest sampled point.  The sample is a
    non-empty front part of the shuffled indices, and the primitive is asked
    for at least one neighbour.  No label appears that the primitive did not
    return; when the primitive labels coincident sample points alike, each
    sampled point keeps the label of its own position in the sample; and
    when, besides, its cluster numbers have no gap, the run is numbered from
    zero without a gap. *)
Theorem one_draw_keeps_sampled_labels (X : list point) (sw : option (list Q))
    (pct e : Q) (ms : Z) (alg : string) (nj : Z) (g g' : rng) (log : list event)
    (pred : list string) :
  _one_draw shuffle DBSCAN (length X) X sw pct e ms alg nj g = (g', log, inr pred) ->
  exists (k : nat) (ms' : Z) (rids : list nat) (w_thin : option (list Q))
         (lab : list Z),
    rids = firstn k (fst (shuffle g (length X))) /\
    rids <> [] /\ Forall (fun i => (i < length X)%nat) rids /\
    (1 <= ms')%Z /\
    DBSCAN e ms' alg nj (shuffled X rids) w_thin = inr lab /\
    length lab = length rids /\ length pred = length X /\
    Forall (fun s => exists j, (j < length lab)%nat /\ s = str (nth j lab 0%Z)) pred /\
    ((forall j j', (j < length lab)%nat -> (j' < length lab)%nat ->
        dist2 (nth j (shuffled X rids) (0, 0)) (nth j' (shuffled X rids) (0, 0)) == 0 ->
        nth j lab 0%Z = nth j' lab 0%Z) ->
     forall j, (j < length rids)%nat ->
       nth (nth j rids 0%nat) pred EmptyString = str (nth j lab 0%Z)) /\
    (dbscan_labels (shuffled X rids) lab -> numbered pred).
Proof.
  intros H.
  destruct (one_draw_inr rng shuffle DBSCAN _ _ _ _ _ _ _ _ _ _ _ _ H)
    as (X_thin & w_thin & lab & Hiloc & Hdb & Hne & Hlab & Hpred & _ & _).
  assert (Hk : exists k, py_slice_to (py_int (Q_of_nat (length X) * pct))
                                     (fst (shuffle g (length X)))
                         = firstn k (fst (shuffle g (length X)))).
  { unfold py_slice_to. destruct (_ <? 0)%Z; eexists; reflexivity. }
  destruct Hk as (k & Hk). rewrite Hk in Hiloc.
  set (rids := firstn k (fst (shuffle g (length X)))) in *.
  destruct (iloc_inr X (0, 0) rids X_thin Hiloc) as (Hrange & Hthin).
  fold (shuffled X rids) in Hthin. subst X_thin.
  assert (Hlen : length (shuffled X rids) = length rids)
    by (unfold shuffled; apply length_map).
  assert (Hkeep : (forall j j', (j < length lab)%nat -> (j' < length lab)%nat ->
              dist2 (nth j (shuffled X rids) (0, 0)) (nth j' (shuffled X rids) (0, 0)) == 0 ->
              nth j lab 0%Z = nth j' lab 0%Z) ->
            forall j, (j < length rids)%nat ->
              nth (nth j rids 0%nat) pred EmptyString = str (nth j lab 0%Z)).
  { intros Hco j Hj.
    assert (Hi : (nth j rids 0 < length X)%nat).
    { rewrite Forall_forall in Hrange. apply Hrange. apply nth_In. exact Hj. }
    rewrite Hpred. rewrite (nth_map_in _ X _ _ (0, 0) Hi).
    assert (Eq : nth (nth j rids 0%nat) X (0, 0) = nth j (shuffled X rids) (0, 0)).
    { unfold shuffled. symmetry.
      apply (nth_map_in (fun i => nth i X (0, 0)) rids j (0, 0) 0%nat). exact Hj. }
    rewrite Eq.
    set (q := nth j (shuffled X rids) (0, 0)).
    destruct (nearest_spec (shuffled X rids) q (0, 0) Hne) as (Hn & Hmin & _).
    rewrite (nth_map_in str lab _ _ 0%Z) by (rewrite Hlab; exact Hn).
    f_equal. symmetry. apply Hco; [rewrite Hlab, Hlen; exact Hj | rewrite Hlab; exact Hn |].
    specialize (Hmin j ltac:(lia)). fold q in Hmin. fold q.
    pose proof (dist2_refl q) as H0.
    pose proof (dist2_nonneg q (nth (nearest (shuffled X rids) q) (shuffled X rids) (0, 0))).
    lra. }
  assert (Hfrom : Forall (fun s => exists j, (j < length lab)%nat /\
                                             s = str (nth j lab 0%Z)) pred).
  { rewrite Hpred. apply Forall_forall. intros s Hs. apply in_map_iff in Hs.
    destruct Hs as (x & <- & _).
    pose proof (nearest_lt (shuffled X rids) x Hne) as Hn.
    exists (nearest (shuffled X rids) x). split; [rewrite Hlab; exact Hn|].
    apply (nth_map_in str lab _ _ 0%Z). rewrite Hlab. exact Hn. }
  assert (Hplen : length pred = length X) by (rewrite Hpred; apply length_map).
  exists k, (if Qltb (inject_Z ms * pct) 1 then 1%Z else Qfloor (inject_Z ms * pct)),
         rids, w_thin, lab.
  split; [reflexivity|].
  split; [intros E; apply Hne; rewrite E; reflexivity|].
  split; [exact Hrange|]. split.
  { destruct (Qltb (inject_Z ms * pct) 1) eqn:E; [lia|].
    apply Qltb_nlt in E. apply Qnot_lt_le in E.
    apply Qfloor_resp_le in E. exact E. }
  split; [exact Hdb|].
  split; [rewrite Hlab; exact Hlen|].
  split; [exact Hplen|]. split; [exact Hfrom|]. split; [exact Hkeep|].
  intros (Hnum & Hco).
  exists (Z.to_nat (fold_right Z.max (-1)%Z lab + 1)).
  assert (Hmax : forall z, In z lab -> (z <= fold_right Z.max (-1) lab)%Z).
  { clear. induction lab as [|y l IH]; intros z Hz; [destruct Hz|].
    simpl. destruct Hz as [->|Hz]; [lia|]. specialize (IH z Hz). lia. }
  assert (Hatt : (0 <= fold_right Z.max (-1) lab)%Z -> In (fold_right Z.max (-1)%Z lab) lab).
  { clear. induction lab as [|y l IH]; simpl; [lia|]. intros H0.
    destruct (Z.max_spec y (fold_right Z.max (-1)%Z l)) as [(_ & E)|(_ & E)];
      rewrite E in *; [right; apply IH; exact H0 | left; reflexivity]. }
  intros s Hs. split.
  - intros Hin. rewrite Forall_forall in Hfrom.
    destruct (Hfrom s Hin) as (j & Hj & ->).
    assert (Hz : In (nth j lab 0%Z) lab) by (apply nth_In; exact Hj).
    destruct (Hnum _ Hz) as (Hge & _).
    assert (Hnn : nth j lab 0%Z <> (-1)%Z) by (intros E; apply Hs; rewrite E; reflexivity).
    exists (Z.to_nat (nth j lab 0%Z)). specialize (Hmax _ Hz).
    split; [lia|]. f_equal. lia.
  - intros (i & Hi & ->).
    assert (H0 : (0 <= fold_right Z.max (-1) lab)%Z) by lia.
    assert (Hz : In (Z.of_nat i) lab).
    { specialize (Hatt H0). destruct (Hnum _ Hatt) as (_ & Hdown).
      destruct (Z.eq_dec (Z.of_nat i) (fold_right Z.max (-1)%Z lab)) as [->|Hne'];
        [exact Hatt|].
      apply Hdown. lia. }
    apply In_nth with (d := 0%Z) in Hz. destruct Hz as (j & Hj & Ej).
    rewrite <- Ej, <- (Hkeep Hco j) by (rewrite <- Hlen, <- Hlab; exact Hj).
    apply nth_In. rewrite Hplen.
    rewrite Forall_forall in Hrange. apply Hrange. apply nth_In.
    rewrite <- Hlen, <- Hlab. exact Hj.
Qed.

End DrawFacts.

Lemma fit_raises_on_small_sample_witness :
  let self := mkADBSCAN 1 4 "auto" 1 (1 # 10) 3 false (9 # 10) in
  (1 <= reps self)%Z /\
  0 <= pct_exact self /\
  Q_of_nat (length four_points) * pct_exact self <= 1 - (1 # 9007199254740992) /\
  fit scripted_shuffle sklearn_DBSCAN self four_points None []
  = ([], [Enter "_one_draw"], inl ValueError) /\
  exists (log : list event) (e : exn),
    fit scripted_shuffle sklearn_DBSCAN self four_points None []
    = (snd (scripted_shuffle [] (length four_points)), log, inl e) /\
    filter is_enter log = [Enter "_one_draw"].
Proof.
  cbv zeta. split; [vm_compute; discriminate|].
  split; [vm_compute; discriminate|]. split; [vm_compute; discriminate|].
  split; [vm_compute; reflexivity|].
  apply (fit_raises_on_small_sample script scripted_shuffle sklearn_DBSCAN
           (mkADBSCAN 1 4 "auto" 1 (1 # 10) 3 false (9 # 10)) four_points None []).
  - vm_compute; discriminate.
  - vm_compute; discriminate.
  - vm_compute; discriminate.
Defined.

(** A draw over [four_points] that samples the points 1, 2 and 0: the
    primitive puts the points 1 and 0 in cluster 0 and the point 2 in
    cluster 1, and the last point takes the label of the point 2. *)
Lemma one_draw_keeps_sampled_labels_witness :
  let pred := ["0"; "0"; "1"; "1"]%string in
  let rids := [1; 2; 0]%nat in
  let lab := [0; 1; 0]%Z in
  _one_draw scripted_shuffle sklearn_DBSCAN (length four_points) four_points None
            (3 # 4) 1 2 "auto" 1 [[1; 2; 0; 3]%nat]
  = ([], [], inr pred) /\
  sklearn_DBSCAN 1 1 "auto" 1 (shuffled four_points rids) None = inr lab /\
  dbscan_labels (shuffled four_points rids) lab /\
  numbered pred /\
  exists (k : nat) (ms' : Z) (rids : list nat) (w_thin : option (list Q))
         (lab : list Z),
    rids = firstn k (fst (scripted_shuffle [[1; 2; 0; 3]%nat] (length four_points))) /\
    rids <> [] /\ Forall (fun i => (i < length four_points)%nat) rids /\
    (1 <= ms')%Z /\
    sklearn_DBSCAN 1 ms' "auto" 1 (shuffled four_points rids) w_thin = inr lab /\
    length lab = length rids /\ length pred = length four_points /\
    Forall (fun s => exists j, (j < length lab)%nat /\ s = str (nth j lab 0%Z)) pred /\
    ((forall j j', (j < length lab)%nat -> (j' < length lab)%nat ->
        dist2 (nth j (shuffled four_points rids) (0, 0))
              (nth j' (shuffled four_points rids) (0, 0)) == 0 ->
        nth j lab 0%Z = nth j' lab 0%Z) ->
     forall j, (j < length rids)%nat ->
       nth (nth j rids 0%nat) pred EmptyString = str (nth j lab 0%Z)) /\
    (dbscan_labels (shuffled four_points rids) lab -> numbered pred).
Proof.
  cbv zeta. split; [vm_compute; reflexivity|]. split; [vm_compute; reflexivity|].
  split.
  { split.
    - intros z Hz. cbn [In] in Hz.
      repeat (destruct Hz as [<-|Hz];
              [split; [lia|]; intros z' Hz'; cbn [In];
               assert (z' = 0%Z) as -> by lia; auto|]).
      contradiction.
    - intros j j' Hj Hj' Hd. cbn [length] in Hj, Hj'.
      destruct j as [|[|[|j]]]; [| | |lia];
        (destruct j' as [|[|[|j']]]; [| | |lia]);
        try reflexivity; vm_compute in Hd; discriminate Hd. }
  split.
  { exists 2%nat. intros s Hs. split.
    - intros Hin. cbn [In] in Hin.
      destruct Hin as [<-|[<-|[<-|[<-|[]]]]];
        [exists 0%nat | exists 0%nat | exists 1%nat | exists 1%nat];
        (split; [lia | reflexivity]).
    - intros (i & Hi & ->).
      destruct i as [|[|i]]; [| |lia]; cbn [In]; vm_compute; auto. }
  apply (one_draw_keeps_sampled_labels script scripted_shuffle sklearn_DBSCAN
           four_points None (3 # 4) 1 2 "auto" 1 [[1; 2; 0; 3]%nat] [] []).
  vm_compute. reflexivity.
Defined.

(** ** [fit]: the stages, the random state and the number of jobs *)

Section FitStages.
Variable rng : Type.
Variable shuffle : rng -> nat -> list nat * rng.
Variable DBSCAN :
  Q -> Z -> string -> Z -> list point -> option (list Q) -> result (list Z).

Lemma for_each_ext {S} (body body' : nat -> S -> M rng S) (l : list nat) :
  (forall i s g, body i s g = body' i s g) ->
  forall s g, for_each l body s g = for_each l body' s g.
Proof.
  intros Hb. induction l as [|i l IH]; intros s g; simpl; [reflexivity|].
  unfold bind. rewrite Hb.
  destruct (body' i s g) as [[g1 l1] [e|s1]]; [reflexivity|].
  rewrite IH. reflexivity.
Qed.

(** Every draw shuffles once and logs nothing but its own entry. *)
Lemma draws_trace (self : ADBSCAN) (n : nat) (X : list point) (sw : option (list Q)) :
  forall (k a : nat) (s s' : DataFrame string) (g g' : rng) (log : list event),
    for_each (seq a k)
      (fun i solus =>
         bind (emit (Enter "_one_draw")) (fun _ =>
         bind (_one_draw shuffle DBSCAN n X sw (pct_exact self) (eps self)
                 (min_samples self) (algorithm self) (n_jobs self))
              (fun lbls_pred => ret (set_col solus i lbls_pred))))
      s g = (g', log, inr s') ->
    g' = after_shuffles shuffle n k g /\ log = repeat (Enter "_one_draw") k.
Proof.
  induction k as [|k IH]; intros a s s' g g' log H; simpl in H.
  - unfold ret in H. injection H as <- <- _. split; reflexivity.
  - apply bind_inr in H. destruct H as (g1 & l1 & s1 & l2 & Hb & Hrest & ->).
    apply bind_inr in Hb. destruct Hb as (g2 & l3 & [] & l4 & He & Hb & ->).
    unfold emit in He. injection He as <- <-.
    apply bind_inr in Hb. destruct Hb as (g3 & l5 & pred & l6 & Hd & Hret & ->).
    unfold ret in Hret. injection Hret as <- <- _.
    apply one_draw_inr in Hd.
    destruct Hd as (_ & _ & _ & _ & _ & _ & _ & _ & -> & ->).
    destruct (IH _ _ _ _ _ _ Hrest) as (-> & ->).
    split; [|reflexivity].
    unfold after_shuffles. rewrite Nat.iter_succ_r. reflexivity.
Qed.

(** The stages a successful [fit] went through, with what each logged. *)
Lemma fit_stages (self : ADBSCAN) (X : list point) (sw : option (list Q))
    (g g' : rng) (log : list event) (est : Fitted) :
  fit shuffle DBSCAN self X sw g = (g', log, inr est) ->
  exists (ld lw : list event) (solus rel : DataFrame string) (votes : @Votes string),
    draws shuffle DBSCAN self (length X) X sw
      (mkDF (length X) (repeat (repeat EmptyString (length X)) (Z.to_nat (reps self)))) g
    = (g', ld, inr solus) /\
    remap_lbls solus X (n_jobs self) = (lw, inr rel) /\
    ensemble rel = inr votes /\
    log = (if multi_core (n_jobs self) then [UserWarning multi_core_warning] else [])
          ++ ld ++ Enter "remap_lbls" :: lw ++ [Enter "ensemble"] /\
    est = mkFitted
            (mkVotes (threshold (str (-1)) (pct_thr self) (lbls votes) (pct votes))
                     (pct votes))
            (threshold (str (-1)) (pct_thr self) (lbls votes) (pct votes))
            (if keep_solus self then Some solus else None)
            (if keep_solus self then Some rel else None) /\
    (1 <= shape1 solus)%nat /\ (1 <= length X)%nat /\ (0 <= reps self)%Z.
Proof.
  intros H. unfold fit in H.
  apply bind_inr in H. destruct H as (g1 & l1 & [[solus rel] votes] & l2 & Hc & H & ->).
  assert (Hshape : (1 <= shape1 solus)%nat /\ exists c0, nth_error (cols solus) 0 = Some c0
                                                         /\ c0 <> []).
  { unfold shape1. destruct (cols solus) as [|[|x c0] cs];
      try (unfold raise in H; discriminate).
    split; [simpl; lia|]. exists (x :: c0). split; [reflexivity | discriminate]. }
  assert (Hest : g' = g1 /\ l2 = [] /\
                 est = mkFitted
                         (mkVotes (threshold (str (-1)) (pct_thr self) (lbls votes) (pct votes))
                                  (pct votes))
                         (threshold (str (-1)) (pct_thr self) (lbls votes) (pct votes))
                         (if keep_solus self then Some solus else None)
                         (if keep_solus self then Some rel else None)).
  { destruct (cols solus) as [|[|x c0] cs];
      try (unfold raise in H; discriminate).
    unfold ret in H. injection H as <- <- <-. repeat split. }
  destruct Hest as (-> & -> & ->). clear H.
  destruct Hshape as (Hshape & c0 & Hc0 & Hne).
  unfold fit_consensus in Hc.
  destruct (Z.ltb_spec (reps self) 0) as [|Hreps]; [discriminate|].
  apply bind_inr in Hc. destruct Hc as (g2 & la & s & lb & Hd & Hc & ->).
  apply bind_inr in Hc. destruct Hc as (g3 & l3 & [] & l4 & He & Hc & ->).
  unfold emit in He. injection He as <- <-.
  apply bind_inr in Hc. destruct Hc as (g4 & l5 & r & l6 & Hr & Hc & ->).
  unfold lift_log in Hr. injection Hr as <- <- Hr.
  apply bind_inr in Hc. destruct Hc as (g5 & l7 & [] & l8 & He & Hc & ->).
  unfold emit in He. injection He as <- <-.
  apply bind_inr in Hc. destruct Hc as (g6 & l9 & v & l10 & Hv & Hc & ->).
  unfold lift in Hv. injection Hv as <- <- Hv.
  unfold ret in Hc. injection Hc as <- <- <- <- <-.
  assert (Hdraws : exists ld,
            draws shuffle DBSCAN self (length X) X sw
              (mkDF (length X) (repeat (repeat EmptyString (length X))
                                       (Z.to_nat (reps self)))) g
            = (g2, ld, inr s) /\
            la = (if multi_core (n_jobs self)
                  then [UserWarning multi_core_warning] else []) ++ ld).
  { destruct (multi_core (n_jobs self)).
    - apply bind_inr in Hd. destruct Hd as (g0 & l0 & [] & l0' & He & Hd & ->).
      unfold emit in He. injection He as <- <-. eexists; split; [exact Hd | reflexivity].
    - eexists; split; [exact Hd | reflexivity]. }
  destruct Hdraws as (ld & Hld & ->).
  exists ld, (fst (remap_lbls s X (n_jobs self))), s, r, v.
  split; [exact Hld|].
  split; [destruct (remap_lbls s X (n_jobs self)) as [lw rr]; simpl in *;
          subst rr; reflexivity|].
  split; [exact Hv|].
  split; [rewrite !app_nil_r, <- !app_assoc; reflexivity|].
  split; [reflexivity|]. split; [exact Hshape|]. split; [|exact Hreps].
  apply draws_columns in Hld. destruct Hld as (_ & _ & Hcols).
  rewrite Forall_forall in Hcols.
  destruct (Hcols c0 (nth_error_In _ _ Hc0)) as (Hlen & _).
  rewrite <- Hlen. destruct c0; [congruence | simpl; lia].
Qed.

(** [fit] draws exactly [reps] times: a successful call leaves the random
    state that [reps] shuffles of the [n] indices leave, and it enters the
    draws first, then the alignment once, then the vote once. *)
Theorem fit_draws_reps_times (self : ADBSCAN) (X : list point)
    (sw : option (list Q)) (g g' : rng) (log : list event) (est : Fitted) :
  fit shuffle DBSCAN self X sw g = (g', log, inr est) ->
  (1 <= reps self)%Z /\
  g' = after_shuffles shuffle (length X) (Z.to_nat (reps self)) g /\
  filter is_enter log
  = repeat (Enter "_one_draw") (Z.to_nat (reps self))
    ++ [Enter "remap_lbls"; Enter "ensemble"].
Proof.
  intros H.
  destruct (fit_stages _ _ _ _ _ _ _ H)
    as (ld & lw & solus & rel & votes & Hd & Hr & _ & -> & _ & Hshape & _ & Hreps).
  pose proof (draws_columns _ _ _ _ _ _ _ _ _ _ Hd) as (_ & HR & _).
  unfold draws in Hd. apply draws_trace in Hd. destruct Hd as (-> & ->).
  split; [unfold shape1 in Hshape; lia|]. split; [reflexivity|].
  assert (Hlw : filter is_enter lw = []).
  { destruct (remap_lbls_inr _ _ _ _ _ Hr)
      as (ref & _ & _ & [(_ & _ & ->)|(_ & -> & _)]); reflexivity. }
  rewrite !filter_app. cbn [filter is_enter]. rewrite filter_app, Hlw.
  assert (Hrep : forall k, filter is_enter (repeat (Enter "_one_draw") k)
                           = repeat (Enter "_one_draw") k).
  { induction k as [|k IH]; simpl; [reflexivity | rewrite IH; reflexivity]. }
  rewrite Hrep. destruct (multi_core (n_jobs self)); reflexivity.
Qed.

End FitStages.

(** ** [fit]: the number of jobs and the threshold *)

Section AnyJobs.
Context {label : Type} {L : LabelRep label}.

Lemma remap_lbls_any_jobs (solus : DataFrame label) (xys : list point) (nj nj' : Z) :
  (2 <= shape1 solus)%nat ->
  remap_lbls solus xys nj = remap_lbls solus xys nj'.
Proof.
  intros HR. unfold remap_lbls.
  destruct (reference_run solus) as [ref|]; [|reflexivity].
  destruct (column solus ref) as [|x t] eqn:Ecol; [reflexivity|]. rewrite <- Ecol.
  remember (drop_label lbl_noise (groupby_mean (column solus ref) xys)) as rc eqn:Erc.
  destruct rc as [|r0 rc']; [reflexivity|].
  cbn [length Nat.ltb Nat.leb].
  destruct (multi_core nj), (multi_core nj');
    rewrite ?remap_parallel_ok, ?remap_sequential_ok;
    try reflexivity; try discriminate; apply other_columns_nonempty, HR.
Qed.

Lemma remap_lbls_wf (solus rel : DataFrame label) (xys : list point) (nj : Z)
    (log : list event) :
  remap_lbls solus xys nj = (log, inr rel) ->
  wf_frame solus ->
  wf_frame rel /\ nrows rel = nrows solus /\ shape1 rel = shape1 solus.
Proof.
  intros H Hwf.
  destruct (remap_lbls_inr _ _ _ _ _ H)
    as (ref & _ & _ & [(_ & -> & _)|(_ & _ & -> & _)]); [auto|].
  split; [|split; [reflexivity | unfold shape1; simpl; apply aligned_cols_length]].
  unfold wf_frame in *. simpl. apply Forall_forall. intros col Hcol.
  rewrite Forall_forall in Hwf.
  apply aligned_cols_in in Hcol. destruct Hcol as [Hcol|(c & Hc & ->)].
  - apply Hwf. eapply nth_error_In. exact Hcol.
  - unfold aligned_column. rewrite length_map. apply Hwf, Hc.
Qed.

End AnyJobs.

Lemma threshold_low (noise : string) (thr : Q) (ls : list string) (ps : list Q) :
  length ls = length ps -> Forall (fun p => ~ p < thr) ps ->
  threshold noise thr ls ps = ls.
Proof.
  unfold threshold. revert ps.
  induction ls as [|l ls IH]; intros [|p ps] Hlen Hps;
    simpl in Hlen; try discriminate; [reflexivity|].
  inversion Hps as [|? ? Hp0 Hps']; subst. simpl.
  rewrite (proj2 (Qltb_nlt p thr) Hp0). f_equal. apply IH; [lia | exact Hps'].
Qed.

Section FitJobs.
Variable rng : Type.
Variable shuffle : rng -> nat -> list nat * rng.
Variable DBSCAN :
  Q -> Z -> string -> Z -> list point -> option (list Q) -> result (list Z).

Lemma one_draw_jobs (n : nat) (X : list point) (sw : option (list Q)) (pct e : Q)
    (ms : Z) (alg : string) (nj nj' : Z) (g : rng) :
  (forall e m a j j' pts w, DBSCAN e m a j pts w = DBSCAN e m a j' pts w) ->
  _one_draw shuffle DBSCAN n X sw pct e ms alg nj g
  = _one_draw shuffle DBSCAN n X sw pct e ms alg nj' g.
Proof.
  intros Hdb. unfold _one_draw. destruct (shuffle g n) as [rids g1].
  f_equal.
  destruct (iloc X _) as [err|X_thin]; [reflexivity|]. cbn [rbind].
  destruct (match sw with
            | Some w => rbind (iloc w _) (fun tw => inr (Some tw))
            | None => inr None
            end) as [err|tw]; [reflexivity|]. cbn [rbind].
  rewrite (Hdb _ _ _ nj nj'). reflexivity.
Qed.

Lemma draws_jobs (self : ADBSCAN) (n : nat) (X : list point) (sw : option (list Q))
    (nj nj' : Z) (s : DataFrame string) (g : rng) :
  (forall e m a j j' pts w, DBSCAN e m a j pts w = DBSCAN e m a j' pts w) ->
  draws shuffle DBSCAN (with_n_jobs self nj) n X sw s g
  = draws shuffle DBSCAN (with_n_jobs self nj') n X sw s g.
Proof.
  intros Hdb. unfold draws. cbn [with_n_jobs reps pct_exact eps min_samples algorithm n_jobs].
  apply for_each_ext. intros i s0 g0. unfold bind, emit.
  rewrite (one_draw_jobs n X sw _ _ _ _ nj nj' g0 Hdb). reflexivity.
Qed.

(** Asking for several jobs changes nothing but a warning: with two or more
    draws and a density primitive whose labels do not depend on its own
    [n_jobs], [fit] with [n_jobs = -1] or [n_jobs > 1] has the outcome of the
    sequential [fit] (the same estimator or the same exception, the same
    random state), after the warning that the draws stay sequential. *)
Theorem fit_n_jobs_only_warns (self : ADBSCAN) (X : list point)
    (sw : option (list Q)) (g g1 : rng) (nj_seq nj_par : Z) (log : list event)
    (r : result Fitted) :
  (forall e m a j j' pts w, DBSCAN e m a j pts w = DBSCAN e m a j' pts w) ->
  (2 <= reps self)%Z ->
  multi_core nj_seq = false -> multi_core nj_par = true ->
  fit shuffle DBSCAN (with_n_jobs self nj_seq) X sw g = (g1, log, r) ->
  fit shuffle DBSCAN (with_n_jobs self nj_par) X sw g
  = (g1, UserWarning multi_core_warning :: log, r).
Proof.
  intros Hdb Hreps Hseq Hpar H.
  unfold fit in *. unfold bind at 1. unfold bind at 1 in H.
  unfold fit_consensus in *.
  change (reps (with_n_jobs self nj_par)) with (reps self) in *.
  change (reps (with_n_jobs self nj_seq)) with (reps self) in *.
  change (n_jobs (with_n_jobs self nj_par)) with nj_par in *.
  change (n_jobs (with_n_jobs self nj_seq)) with nj_seq in *.
  change (pct_thr (with_n_jobs self nj_par)) with (pct_thr self) in *.
  change (pct_thr (with_n_jobs self nj_seq)) with (pct_thr self) in *.
  change (keep_solus (with_n_jobs self nj_par)) with (keep_solus self) in *.
  change (keep_solus (with_n_jobs self nj_seq)) with (keep_solus self) in *.
  rewrite Hseq in H. rewrite Hpar.
  destruct (Z.ltb_spec (reps self) 0) as [|_]; [lia|].
  unfold bind at 1 in H. unfold bind at 1. unfold bind at 1. cbn [emit].
  rewrite (draws_jobs self (length X) X sw nj_par nj_seq _ _ Hdb).
  destruct (draws shuffle DBSCAN (with_n_jobs self nj_seq) (length X) X sw _ g)
    as [[g2 ld] [err|solus]] eqn:Hd.
  - injection H as <- <- <-. reflexivity.
  - pose proof (draws_columns _ _ _ _ _ _ _ _ _ _ Hd) as (_ & HR & _).
    change (reps (with_n_jobs self nj_seq)) with (reps self) in HR.
    rewrite (remap_lbls_any_jobs solus X nj_par nj_seq)
      by (unfold shape1; rewrite HR; lia).
    destruct (bind (emit (Enter "remap_lbls")) _ g2) as [[g3 l3] [err|[[s1 r1] v1]]].
    + injection H as <- <- <-. reflexivity.
    + destruct (cols s1) as [|[|x c0] cs]; cbn [raise ret] in *;
        injection H as <- <- <-; reflexivity.
Qed.

(** The vote shares [fit] leaves in [votes] lie in (0, 1].  So a threshold
    [pct_thr > 1] turns every label into the noise sentinel, and with
    [pct_thr <= 0] the labels are the plain majority vote over the aligned
    table. *)
Theorem fit_threshold_extremes (self : ADBSCAN) (X : list point)
    (sw : option (list Q)) (g g' : rng) (log : list event) (est : Fitted) :
  fit shuffle DBSCAN self X sw g = (g', log, inr est) ->
  Forall (fun p => 0 < p /\ p <= 1) (pct (votes_ est)) /\
  (1 < pct_thr self -> Forall (eq "-1"%string) (labels_ est)) /\
  (pct_thr self <= 0 ->
   exists (rel : DataFrame string) (votes : @Votes string),
     ensemble rel = inr votes /\ labels_ est = lbls votes /\
     (keep_solus self = true -> solus_relabelled_ est = Some rel)).
Proof.
  intros H.
  destruct (fit_stages _ _ _ _ _ _ _ _ _ _ H)
    as (ld & lw & solus & rel & votes & Hd & Hr & Hv & _ & -> & Hshape & HX & _).
  pose proof (draws_columns _ _ _ _ _ _ _ _ _ _ Hd) as (Hn & _ & Hcols).
  assert (Hwf : wf_frame solus).
  { unfold wf_frame. rewrite Hn. eapply Forall_impl; [|exact Hcols].
    intros c Hc. apply Hc. }
  destruct (remap_lbls_wf _ _ _ _ _ Hr Hwf) as (Hwfr & Hnr & Hsr).
  destruct (ensemble_rows rel Hwfr) as (v & Ev & Hl & Hp & Hrows); try lia.
  rewrite Hv in Ev. injection Ev as <-.
  assert (Hpct : Forall (fun p => 0 < p /\ p <= 1) (pct votes)).
  { apply Forall_forall. intros p Hin. apply In_nth_error in Hin.
    destruct Hin as (i & Hi).
    assert (Hlt : (i < nrows rel)%nat).
    { rewrite <- Hp. apply nth_error_Some. rewrite Hi. discriminate. }
    destruct (Hrows i Hlt) as (w & _ & Epw & _ & Hc).
    rewrite Hi in Epw. injection Epw as ->. apply share_bounds. exact Hc. }
  cbn [votes_ labels_ solus_relabelled_ pct].
  split; [exact Hpct|]. split.
  - intros Hthr. unfold threshold. apply Forall_forall. intros y Hy.
    apply in_map_iff in Hy. destruct Hy as ((l, p) & <- & Hin). cbn [fst snd].
    apply in_combine_r in Hin. rewrite Forall_forall in Hpct.
    destruct (Hpct p Hin) as (_ & Hle).
    assert (E : Qltb p (pct_thr self) = true) by (apply Qltb_lt; lra).
    rewrite E. reflexivity.
  - intros Hthr. exists rel, votes. split; [exact Hv|]. split.
    + apply threshold_low; [congruence|].
      eapply Forall_impl; [|exact Hpct]. intros p (Hpos & _). lra.
    + intros ->. reflexivity.
Qed.

End FitJobs.

Lemma fit_draws_reps_times_witness :
  let self := mkADBSCAN 1 4 "auto" 1 (1 # 2) 3 true (9 # 10) in
  exists (g' : script) (log : list event) (est : Fitted),
    fit scripted_shuffle sklearn_DBSCAN self four_points None three_draws
    = (g', log, inr est) /\
    (1 <= reps self)%Z /\
    g' = after_shuffles scripted_shuffle (length four_points) (Z.to_nat (reps self))
                        three_draws /\
    filter is_enter log
    = repeat (Enter "_one_draw") (Z.to_nat (reps self))
      ++ [Enter "remap_lbls"; Enter "ensemble"].
Proof.
  cbv zeta. eexists. eexists. eexists. split; [vm_compute; reflexivity|].
  eapply (fit_draws_reps_times script scripted_shuffle sklearn_DBSCAN
            (mkADBSCAN 1 4 "auto" 1 (1 # 2) 3 true (9 # 10)) four_points None three_draws).
  vm_compute. reflexivity.
Defined.

Lemma fit_n_jobs_only_warns_witness :
  let self := mkADBSCAN 1 4 "auto" 1 (1 # 2) 3 true (1 # 2) in
  (forall e m a j j' pts w, sklearn_DBSCAN e m a j pts w = sklearn_DBSCAN e m a j' pts w) /\
  (2 <= reps self)%Z /\ multi_core 1 = false /\ multi_core (-1) = true /\
  exists (g1 : script) (log : list event) (r : result Fitted),
    fit scripted_shuffle sklearn_DBSCAN (with_n_jobs self 1) four_points None three_draws
    = (g1, log, r) /\
    fit scripted_shuffle sklearn_DBSCAN (with_n_jobs self (-1)) four_points None three_draws
    = (g1, UserWarning multi_core_warning :: log, r).
Proof.
  assert (Hdb : forall e m a j j' pts w,
            sklearn_DBSCAN e m a j pts w = sklearn_DBSCAN e m a j' pts w)
    by (intros; reflexivity).
  cbv zeta. split; [exact Hdb|]. split; [vm_compute; discriminate|].
  split; [reflexivity|]. split; [reflexivity|].
  eexists. eexists. eexists. split; [vm_compute; reflexivity|].
  apply (fit_n_jobs_only_warns script scripted_shuffle sklearn_DBSCAN
           (mkADBSCAN 1 4 "auto" 1 (1 # 2) 3 true (1 # 2)) four_points None
           three_draws [] 1 (-1) _ _ Hdb);
    [vm_compute; discriminate | reflexivity | reflexivity | vm_compute; reflexivity].
Defined.

Lemma fit_threshold_extremes_witness :
  let self := mkADBSCAN 1 4 "auto" 1 (1 # 2) 3 true (11 # 10) in
  exists (g' : script) (log : list event) (est : Fitted),
    fit scripted_shuffle sklearn_DBSCAN self four_points None three_draws
    = (g', log, inr est) /\
    labels_ est = ["-1"; "-1"; "-1"; "-1"]%string /\
    Forall (fun p => 0 < p /\ p <= 1) (pct (votes_ est)) /\
    (1 < pct_thr self -> Forall (eq "-1"%string) (labels_ est)) /\
    (pct_thr self <= 0 ->
     exists (rel : DataFrame string) (votes : @Votes string),
       ensemble rel = inr votes /\ labels_ est = lbls votes /\
       (keep_solus self = true -> solus_relabelled_ est = Some rel)).
Proof.
  cbv zeta. eexists. eexists. eexists. split; [vm_compute; reflexivity|].
  split; [reflexivity|].
  eapply (fit_threshold_extremes script scripted_shuffle sklearn_DBSCAN
            (mkADBSCAN 1 4 "auto" 1 (1 # 2) 3 true (11 # 10)) four_points None
            three_draws).
  vm_compute. reflexivity.
Defined.

(** ** [get_cluster_boundary]: one alpha shape per cluster *)

Lemma emap_list_ok {E A B} (f : A -> E + B) (g : A -> B) (l : list A) :
  (forall a, In a l -> f a = inr (g a)) -> emap_list f l = inr (map g l).
Proof.
  induction l as [|a l IH]; intros H; simpl; [reflexivity|].
  rewrite (H a (or_introl eq_refl)). simpl.
  rewrite IH by (intros b Hb; apply H; right; exact Hb). reflexivity.
Qed.

Lemma emap_list_map {E A B C} (f : B -> E + C) (h : A -> B) (l : list A) :
  emap_list f (map h l) = emap_list (fun a => f (h a)) l.
Proof.
  induction l as [|a l IH]; simpl; [reflexivity|]. rewrite IH. reflexivity.
Qed.

Lemma emap_list_inr {E A B} (f : A -> E + B) (l : list A) (bs : list B) :
  emap_list f l = inr bs -> Forall2 (fun a b => f a = inr b) l bs.
Proof.
  revert bs. induction l as [|a l IH]; intros bs H; simpl in H.
  - injection H as <-. constructor.
  - destruct (f a) as [e|b] eqn:Ea; [discriminate H|]. cbn [ebind] in H.
    destruct (emap_list f l) as [e|bs'] eqn:El; [discriminate H|]. cbn [ebind] in H.
    injection H as <-. constructor; [exact Ea | apply IH; reflexivity].
Qed.

Lemma loc_ok {A} (xys : list A) (d : A) (ids : list nat) :
  Forall (fun i => (i < length xys)%nat) ids ->
  loc xys ids = inr (map (fun i => nth i xys d) ids).
Proof.
  intros H. unfold loc. apply emap_list_ok. intros i Hi.
  rewrite Forall_forall in H. specialize (H i Hi).
  destruct (nth_error xys i) as [p|] eqn:E.
  - f_equal. symmetry. apply nth_error_nth. exact E.
  - apply nth_error_None in E. lia.
Qed.

Lemma loc_missing {A} (xys : list A) (ids : list nat) :
  Exists (fun i => (length xys <= i)%nat) ids -> loc xys ids = inl KeyError.
Proof.
  unfold loc. induction ids as [|i ids IH]; intros H; inversion H as [? ? Hi|? ? Ht]; subst.
  - simpl. rewrite (proj2 (nth_error_None xys i) Hi). reflexivity.
  - simpl. destruct (nth_error xys i); [|reflexivity]. cbn [ebind].
    rewrite (IH Ht). reflexivity.
Qed.

Lemma positions_cons {A} (a : nat) (f : A -> bool) (x : A) (l : list A) :
  positions_from a f (x :: l)
  = (if f x then [a] else []) ++ positions_from (S a) f l.
Proof.
  unfold positions_from. simpl. destruct (f x); reflexivity.
Qed.

Lemma positions_in {A} (f : A -> bool) (d : A) (l : list A) :
  forall a i, In i (positions_from a f l) <->
              (a <= i < a + length l)%nat /\ f (nth (i - a) l d) = true.
Proof.
  induction l as [|x l IH]; intros a i.
  - unfold positions_from. simpl. split; [intros [] | intros (H & _); lia].
  - rewrite positions_cons, in_app_iff, IH. simpl length. split.
    + intros [H|(H & Hf)].
      * destruct (f x) eqn:E; [|destruct H]. destruct H as [<-|[]].
        rewrite Nat.sub_diag. simpl. split; [lia | exact E].
      * split; [lia|]. replace (i - a)%nat with (S (i - S a)) by lia. exact Hf.
    + intros (H & Hf). destruct (Nat.eq_dec i a) as [->|Hne].
      * left. rewrite Nat.sub_diag in Hf. simpl in Hf. rewrite Hf. left. reflexivity.
      * right. split; [lia|].
        replace (i - a)%nat with (S (i - S a)) in Hf by lia. exact Hf.
Qed.

Lemma filter_positions {A} (f h : A -> bool) (d : A) (g : nat -> bool) (l : list A) :
  forall a,
    (forall i, (a <= i < a + length l)%nat -> g i = h (nth (i - a) l d)) ->
    filter g (positions_from a f l) = positions_from a (fun x => f x && h x) l.
Proof.
  induction l as [|x l IH]; intros a Hg; [reflexivity|].
  rewrite !positions_cons, filter_app.
  rewrite (IH (S a)).
  - f_equal. specialize (Hg a). simpl length in Hg.
    rewrite Nat.sub_diag in Hg. simpl in Hg.
    destruct (f x); simpl; [|reflexivity]. rewrite Hg by lia. destruct (h x); reflexivity.
  - intros i Hi. rewrite Hg by (simpl; lia).
    replace (i - a)%nat with (S (i - S a)) by lia. reflexivity.
Qed.

Lemma map_positions {A B} (f : A -> bool) (d : B) (l : list A) :
  forall (a : nat) (xys : list B),
    (length l <= length xys)%nat ->
    map (fun i => nth (i - a) xys d) (positions_from a f l)
    = map snd (filter (fun lp => f (fst lp)) (combine l xys)).
Proof.
  induction l as [|x l IH]; intros a xys Hlen; [reflexivity|].
  destruct xys as [|p xys]; [simpl in Hlen; lia|].
  rewrite positions_cons, map_app. simpl combine. simpl filter.
  assert (Htail : map (fun i => nth (i - a) (p :: xys) d) (positions_from (S a) f l)
                  = map snd (filter (fun lp => f (fst lp)) (combine l xys))).
  { rewrite <- (IH (S a) xys) by (simpl in Hlen; lia).
    apply map_ext_in. intros i Hi. apply (positions_in f x) in Hi.
    replace (i - a)%nat with (S (i - S a)) by lia. reflexivity. }
  rewrite Htail. destruct (f x); simpl; [|reflexivity].
  rewrite Nat.sub_diag. reflexivity.
Qed.

Lemma filter_combine_self {A} (f : A -> bool) (l : list A) :
  map snd (filter (fun lp => f (fst lp)) (combine l l)) = filter f l.
Proof.
  induction l as [|x l IH]; simpl; [reflexivity|].
  destruct (f x); simpl; rewrite IH; reflexivity.
Qed.

Lemma filter_by_key_perm {A K} (key : A -> K) (eqb : K -> K -> bool) (l : list A) :
  (forall a b, eqb a b = true <-> a = b) ->
  forall ks : list K,
    NoDup ks -> (forall x, In x l -> In (key x) ks) ->
    Permutation (concat (map (fun k => filter (fun x => eqb (key x) k) l) ks)) l.
Proof.
  intros Heq ks. revert l. induction ks as [|k ks IH]; intros l Hnd Hall.
  - destruct l as [|x l]; [apply Permutation_refl|].
    destruct (Hall x (or_introl eq_refl)).
  - inversion Hnd as [|? ? Hk Hnd']; subst. simpl.
    assert (Hrest : map (fun k' => filter (fun x => eqb (key x) k') l) ks
                    = map (fun k' => filter (fun x => eqb (key x) k')
                                            (filter (fun x => negb (eqb (key x) k)) l)) ks).
    { apply map_ext_in. intros k' Hk'.
      induction l as [|x l IHl]; simpl; [reflexivity|].
      destruct (eqb (key x) k') eqn:E1; destruct (eqb (key x) k) eqn:E2; simpl;
        rewrite ?E1, IHl; try reflexivity;
        try (intros y Hy; apply Hall; right; exact Hy).
      exfalso. apply Heq in E1. apply Heq in E2. subst. contradiction. }
    rewrite Hrest.
    eapply Permutation_trans.
    + apply Permutation_app_head. apply IH; [exact Hnd'|].
      intros x Hx. apply filter_In in Hx. destruct Hx as (Hx & Hne).
      destruct (Hall x Hx) as [E|Hin]; [|exact Hin].
      exfalso. apply negb_true_iff in Hne.
      assert (Ht : eqb (key x) k = true) by (apply Heq; symmetry; exact E).
      congruence.
    + clear. induction l as [|x l IHl]; simpl; [apply Permutation_refl|].
      destruct (eqb (key x) k); simpl.
      * apply perm_skip. exact IHl.
      * eapply Permutation_trans; [apply Permutation_sym, Permutation_middle|].
        apply perm_skip. exact IHl.
Qed.

Section BoundaryFacts.
Context {label : Type} {L : LabelRep label}.
Variable polygon : Type.
Variable alpha_shape_auto : list point -> Z -> boundary_exn + polygon.
Variable cpu_count : positive.
Variable geopandas : bool.

Lemma ids_positions (labels : list label) :
  ids_in_cluster labels
  = positions_from 0 (fun l => negb (lbl_eqb l lbl_noise)) labels.
Proof. reflexivity. Qed.

Lemma ids_in_range (labels : list label) (xys : list point) :
  (length labels <= length xys)%nat ->
  Forall (fun i => (i < length xys)%nat) (ids_in_cluster labels).
Proof.
  intros Hlen. apply Forall_forall. intros i Hi. rewrite ids_positions in Hi.
  apply (positions_in _ lbl_noise labels 0 i) in Hi. lia.
Qed.

Lemma boundary_keys_in (labels : list label) (l : label) :
  In l (boundary_keys labels) <-> In l labels /\ l <> lbl_noise.
Proof.
  unfold boundary_keys. rewrite sort_labels_in, in_unique, filter_In.
  rewrite negb_true_iff, lbl_eqb_neq. reflexivity.
Qed.

Lemma boundary_keys_NoDup (labels : list label) : NoDup (boundary_keys labels).
Proof.
  unfold boundary_keys.
  eapply Permutation_NoDup; [apply Permutation_sym, sort_labels_perm|].
  apply NoDup_unique.
Qed.

(** The key and the rows of every group are those of one cluster label. *)
Lemma groups_select (labels : list label) (xys : list point) :
  (length labels <= length xys)%nat ->
  map fst (groups labels (ids_in_cluster labels)) = boundary_keys labels /\
  forall sub, In sub (groups labels (ids_in_cluster labels)) ->
              loc xys (snd sub) = inr (select labels xys (fst sub)).
Proof.
  intros Hlen.
  assert (Hkeys : map (fun i => nth i labels lbl_noise) (ids_in_cluster labels)
                  = filter (fun l => negb (lbl_eqb l lbl_noise)) labels).
  { rewrite ids_positions.
    rewrite <- filter_combine_self.
    rewrite <- (map_positions (fun l => negb (lbl_eqb l lbl_noise)) lbl_noise
                  labels 0 labels (Nat.le_refl _)).
    apply map_ext. intros i. rewrite Nat.sub_0_r. reflexivity. }
  unfold groups. rewrite Hkeys. fold (boundary_keys labels).
  split; [rewrite map_map; apply map_id|].
  intros sub Hsub. apply in_map_iff in Hsub. destruct Hsub as (k & <- & Hk).
  cbn [fst snd]. apply boundary_keys_in in Hk. destruct Hk as (_ & Hk).
  rewrite ids_positions.
  rewrite (filter_positions _ (fun x => lbl_eqb x k) lbl_noise)
    by (intros i _; rewrite Nat.sub_0_r; reflexivity).
  rewrite (loc_ok xys (0, 0)).
  - f_equal. unfold select.
    rewrite <- (filter_ext (fun lp => negb (lbl_eqb (fst lp) lbl_noise)
                                      && lbl_eqb (fst lp) k)).
    + rewrite <- (map_positions (fun x => negb (lbl_eqb x lbl_noise) && lbl_eqb x k)
                    (0, 0) labels 0 xys Hlen).
      apply map_ext. intros i. rewrite Nat.sub_0_r. reflexivity.
    + intros (x, p). cbn [fst].
      destruct (lbl_eqb x k) eqn:E; [|apply andb_false_r].
      apply lbl_eqb_eq in E. subst x.
      rewrite (proj2 (lbl_eqb_neq k lbl_noise) Hk). reflexivity.
  - apply Forall_forall. intros i Hi.
    apply (positions_in _ lbl_noise labels 0 i) in Hi. lia.
Qed.

Lemma filter_cluster_of_clustered (k : label) (t : list (label * point)) :
  k <> lbl_noise ->
  filter (fun lp : label * point => lbl_eqb (fst lp) k)
         (filter (fun lp => negb (lbl_eqb (fst lp) lbl_noise)) t)
  = filter (fun lp : label * point => lbl_eqb (fst lp) k) t.
Proof.
  intros Hk. induction t as [|(x, p) t IHt]; simpl; [reflexivity|].
  destruct (lbl_eqb x k) eqn:E1.
  - apply lbl_eqb_eq in E1. subst x.
    rewrite (proj2 (lbl_eqb_neq k lbl_noise) Hk). simpl.
    rewrite lbl_eqb_refl. f_equal. exact IHt.
  - destruct (lbl_eqb x lbl_noise); simpl; rewrite ?E1; exact IHt.
Qed.

(** The chunks handed to the alpha-shape stage. *)
Lemma boundary_chunks (labels : list label) (xys : list point) (step : Z) :
  (length labels <= length xys)%nat ->
  emap_list (fun sub => ebind (loc xys (snd sub)) (fun pts => inr (pts, step)))
            (groups labels (ids_in_cluster labels))
  = (inr (map (fun k => (select labels xys k, step)) (boundary_keys labels))
     : boundary_exn + list (list point * Z)).
Proof.
  intros Hlen. destruct (groups_select labels xys Hlen) as (Hk & Hsel).
  rewrite <- Hk, map_map. apply emap_list_ok.
  intros sub Hsub. rewrite (Hsel sub Hsub). reflexivity.
Qed.

(** For a Series of labels indexed as the coordinates and a number of jobs
    the pool accepts, the call computes one alpha shape per cluster label,
    in the sorted order of the labels, each over the points that carry the
    label, in the order of the table; the cluster labels are distinct, and
    none of them is the noise sentinel. *)
Theorem get_cluster_boundary_per_cluster (labels : list label) (xys : list point)
    (n_jobs step : Z) :
  labels <> [] -> (length labels <= length xys)%nat ->
  (n_jobs = -1 \/ 1 <= n_jobs)%Z ->
  get_cluster_boundary alpha_shape_auto cpu_count geopandas
                       labels xys n_jobs step
  = ebind (emap_list (fun k => alpha_shape_auto (select labels xys k) step)
                     (boundary_keys labels))
          (fun polys => inr (if geopandas
                             then GeoSeries polys (boundary_keys labels)
                             else polygon_list polys)) /\
  NoDup (boundary_keys labels) /\
  forall l, In l (boundary_keys labels) <-> In l labels /\ l <> lbl_noise.
Proof.
  intros Hne Hlen Hjobs.
  split; [|split; [apply boundary_keys_NoDup | apply boundary_keys_in]].
  unfold get_cluster_boundary. destruct labels as [|l0 labels']; [congruence|].
  set (labels := l0 :: labels') in *.
  rewrite (loc_ok xys (0, 0) _ (ids_in_range labels xys Hlen)). cbn [ebind].
  rewrite (boundary_chunks labels xys step Hlen). cbn [ebind].
  destruct (groups_select labels xys Hlen) as (Hk & _). rewrite Hk.
  unfold _asa. rewrite emap_list_map. cbn [fst snd].
  assert (Hpool : (n_jobs =? 1)%Z = false ->
                  exists w, _setup_pool cpu_count n_jobs = inr w).
  { intros _. unfold _setup_pool, Pool.
    destruct (Z.eqb_spec n_jobs (-1)) as [->|Hn1].
    - exists (Z.pos cpu_count).
      destruct (Z.ltb_spec (Z.pos cpu_count) 1); [lia | reflexivity].
    - destruct (Z.ltb_spec n_jobs 1); [lia|]. exists n_jobs. reflexivity. }
  destruct (n_jobs =? 1)%Z; [reflexivity|].
  destruct (Hpool eq_refl) as (w & ->). reflexivity.
Qed.

(** Every clustered point goes into exactly one alpha-shape call and no
    noise point into any: the point sets of the polygons returned are, taken
    together, a rearrangement of the points whose label is not noise. *)
Theorem get_cluster_boundary_partition (labels : list label) (xys : list point)
    (n_jobs step : Z) (b : Boundaries label polygon) :
  (length labels <= length xys)%nat ->
  get_cluster_boundary alpha_shape_auto cpu_count geopandas
                       labels xys n_jobs step = inr b ->
  exists chunks : list (list point),
    Forall2 (fun pts poly => alpha_shape_auto pts step = inr poly)
            chunks (geometries b) /\
    Permutation (concat chunks) (clustered labels xys).
Proof.
  intros Hlen H.
  exists (map (select labels xys) (boundary_keys labels)). split.
  - unfold get_cluster_boundary in H. destruct labels as [|l0 labels']; [discriminate|].
    set (labels := l0 :: labels') in *.
    rewrite (loc_ok xys (0, 0) _ (ids_in_range labels xys Hlen)) in H. cbn [ebind] in H.
    rewrite (boundary_chunks labels xys step Hlen) in H. cbn [ebind] in H.
    unfold _asa in H. rewrite emap_list_map in H. cbn [fst snd] in H.
    assert (Hm : exists polys,
              emap_list (fun k => alpha_shape_auto (select labels xys k) step)
                        (boundary_keys labels) = inr polys /\ geometries b = polys).
    { destruct (n_jobs =? 1)%Z.
      - destruct (emap_list _ (boundary_keys labels)) as [e|polys]; [discriminate|].
        cbn [ebind] in H. injection H as <-. exists polys.
        split; [reflexivity | destruct geopandas; reflexivity].
      - destruct (_setup_pool cpu_count n_jobs); [discriminate|].
        destruct (emap_list _ (boundary_keys labels)) as [e|polys]; [discriminate|].
        cbn [ebind] in H. injection H as <-. exists polys.
        split; [reflexivity | destruct geopandas; reflexivity]. }
    destruct Hm as (polys & Hm & ->).
    apply emap_list_inr in Hm. clear H.
    induction Hm as [|k poly ks polys Hk _ IH]; simpl; constructor; assumption.
  - unfold clustered.
    assert (HP : Permutation
                   (concat (map (fun k => filter (fun lp : label * point =>
                                                    lbl_eqb (fst lp) k)
                                                 (filter (fun lp => negb (lbl_eqb (fst lp) lbl_noise))
                                                         (combine labels xys)))
                                (boundary_keys labels)))
                   (filter (fun lp => negb (lbl_eqb (fst lp) lbl_noise))
                           (combine labels xys))).
    { apply (filter_by_key_perm fst lbl_eqb).
      - intros a c. apply lbl_eqb_eq.
      - apply boundary_keys_NoDup.
      - intros (x, p) Hx. apply filter_In in Hx. destruct Hx as (Hin & Hnn).
        cbn [fst] in *. apply boundary_keys_in. split.
        + eapply in_combine_l. exact Hin.
        + apply lbl_eqb_neq. apply negb_true_iff. exact Hnn. }
    apply (Permutation_map snd) in HP.
    eapply Permutation_trans; [|exact HP].
    rewrite concat_map, !map_map.
    assert (E : map (select labels xys) (boundary_keys labels)
                = map (fun k => map snd
                         (filter (fun lp : label * point => lbl_eqb (fst lp) k)
                            (filter (fun lp => negb (lbl_eqb (fst lp) lbl_noise))
                                    (combine labels xys))))
                      (boundary_keys labels)).
    { apply map_ext_in. intros k Hk. apply boundary_keys_in in Hk.
      destruct Hk as (_ & Hk). unfold select. f_equal.
      symmetry. apply filter_cluster_of_clustered. exact Hk. }
    rewrite E. apply Permutation_refl.
Qed.

Lemma boundary_any_pool (labels : list label) (xys : list point)
    (n_jobs step : Z) :
  (n_jobs = -1 \/ 2 <= n_jobs)%Z ->
  get_cluster_boundary alpha_shape_auto cpu_count geopandas
                       labels xys n_jobs step
  = get_cluster_boundary alpha_shape_auto cpu_count geopandas
                         labels xys 1 step.
Proof.
  intros Hjobs. unfold get_cluster_boundary.
  destruct labels as [|l0 labels']; [reflexivity|].
  destruct (loc xys _) as [e|pts]; [reflexivity|]. cbn [ebind].
  destruct (emap_list _ (groups _ _)) as [e|chunks]; [reflexivity|]. cbn [ebind].
  change (1 =? 1)%Z with true. cbv iota.
  destruct (Z.eqb_spec n_jobs 1) as [|_]; [reflexivity|].
  unfold _setup_pool, Pool.
  destruct (Z.eqb_spec n_jobs (-1)) as [->|Hn1].
  - destruct (Z.ltb_spec (Z.pos cpu_count) 1); [lia | reflexivity].
  - destruct (Z.ltb_spec n_jobs 1); [lia | reflexivity].
Qed.

(** The number of jobs does not change the boundaries: with [n_jobs = -1] or
    [n_jobs >= 2] the call returns what the sequential call returns, and it
    raises when the sequential call raises. *)
Theorem get_cluster_boundary_parallel (labels : list label) (xys : list point)
    (n_jobs step : Z) :
  (n_jobs = -1 \/ 2 <= n_jobs)%Z ->
  (forall b,
      get_cluster_boundary alpha_shape_auto cpu_count geopandas
                           labels xys n_jobs step = inr b
      <-> get_cluster_boundary alpha_shape_auto cpu_count geopandas
                               labels xys 1 step = inr b) /\
  ((exists e, get_cluster_boundary alpha_shape_auto cpu_count geopandas
                                   labels xys n_jobs step = inl e)
   <-> exists e, get_cluster_boundary alpha_shape_auto cpu_count geopandas
                                      labels xys 1 step = inl e).
Proof.
  intros Hjobs. rewrite (boundary_any_pool labels xys n_jobs step Hjobs).
  split; [intros b|]; reflexivity.
Qed.

(** Unlike the alignment step, which runs sequentially for every [n_jobs]
    other than -1 and those above 1, the boundary step hands every
    [n_jobs <> 1] to the pool: for [n_jobs = 0] or [n_jobs < -1] the call
    raises the pool's ValueError, before any alpha shape is computed. *)
Theorem get_cluster_boundary_rejects_jobs (labels : list label) (xys : list point)
    (n_jobs step : Z) :
  labels <> [] -> (length labels <= length xys)%nat ->
  (n_jobs = 0 \/ n_jobs < -1)%Z ->
  get_cluster_boundary alpha_shape_auto cpu_count geopandas
                       labels xys n_jobs step = inl (Raised ValueError) /\
  multi_core n_jobs = false.
Proof.
  intros Hne Hlen Hjobs. split.
  - unfold get_cluster_boundary. destruct labels as [|l0 labels']; [congruence|].
    set (labels := l0 :: labels') in *.
    rewrite (loc_ok xys (0, 0) _ (ids_in_range labels xys Hlen)). cbn [ebind].
    rewrite (boundary_chunks labels xys step Hlen). cbn [ebind].
    destruct (Z.eqb_spec n_jobs 1) as [|_]; [lia|].
    unfold _setup_pool, Pool.
    destruct (Z.eqb_spec n_jobs (-1)) as [|_]; [lia|].
    destruct (Z.ltb_spec n_jobs 1); [reflexivity | lia].
  - unfold multi_core.
    destruct (Z.eqb_spec n_jobs (-1)); [lia|].
    destruct (Z.ltb_spec 1 n_jobs); [lia | reflexivity].
Qed.

(** The failures on the labels themselves: an empty Series raises
    IndexError, and a clustered entry without a row in the coordinate table
    raises KeyError, whatever the number of jobs. *)
Theorem get_cluster_boundary_bad_labels (labels : list label) (xys : list point)
    (n_jobs step : Z) :
  (labels = [] ->
   get_cluster_boundary alpha_shape_auto cpu_count geopandas
                        labels xys n_jobs step = inl (Raised IndexError)) /\
  ((exists i l, nth_error labels i = Some l /\ l <> lbl_noise /\
                (length xys <= i)%nat) ->
   get_cluster_boundary alpha_shape_auto cpu_count geopandas
                        labels xys n_jobs step = inl KeyError).
Proof.
  split.
  - intros ->. reflexivity.
  - intros (i & l & Hi & Hl & Hout).
    unfold get_cluster_boundary. destruct labels as [|l0 labels']; [destruct i; discriminate|].
    set (labels := l0 :: labels') in *.
    rewrite loc_missing; [reflexivity|].
    apply Exists_exists. exists i. split; [|exact Hout].
    rewrite ids_positions.
    apply (positions_in _ lbl_noise labels 0 i).
    assert (Hlt : (i < length labels)%nat)
      by (apply nth_error_Some; rewrite Hi; discriminate).
    split; [lia|]. rewrite Nat.sub_0_r.
    rewrite (nth_error_nth _ _ lbl_noise Hi).
    apply negb_true_iff, lbl_eqb_neq. exact Hl.
Qed.

End BoundaryFacts.

(** The pool the alignment step asks for is always granted: its guard lets
    through [n_jobs = -1], which gives one worker per CPU, and
    [n_jobs > 1], which gives [n_jobs] workers. *)
Theorem setup_pool_accepts_alignment_jobs (cpu_count : positive) (nj : Z) :
  multi_core nj = true ->
  _setup_pool cpu_count nj
  = inr (if (nj =? -1)%Z then Z.pos cpu_count else nj).
Proof.
  unfold multi_core, _setup_pool, Pool. intros H.
  destruct (Z.eqb_spec nj (-1)) as [E|Hn].
  - destruct (Z.ltb_spec (Z.pos cpu_count) 1); [lia | reflexivity].
  - simpl in H. apply Z.ltb_lt in H.
    destruct (Z.ltb_spec nj 1); [lia | reflexivity].
Qed.

Lemma setup_pool_accepts_alignment_jobs_witness :
  multi_core (-1) = true /\
  _setup_pool 8 (-1) = inr (if (-1 =? -1)%Z then 8%Z else (-1)%Z).
Proof.
  split; [reflexivity|].
  apply (setup_pool_accepts_alignment_jobs 8 (-1)). reflexivity.
Defined.

Lemma get_cluster_boundary_per_cluster_witness :
  four_labels <> [] /\ (length four_labels <= length four_points)%nat /\
  (2 = -1 \/ 1 <= 2)%Z /\
  get_cluster_boundary shape_of_points 4 true four_labels four_points 2 1
  = inr (GeoSeries [[(0, 0); (20, 20)]; [(10, 10)]] [0; 1]%Z) /\
  get_cluster_boundary shape_of_points 4 true four_labels four_points 2 1
  = ebind (emap_list (fun k => shape_of_points (select four_labels four_points k) 1)
                     (boundary_keys four_labels))
          (fun polys => inr (if true
                             then GeoSeries polys (boundary_keys four_labels)
                             else polygon_list polys)) /\
  NoDup (boundary_keys four_labels) /\
  forall l, In l (boundary_keys four_labels) <-> In l four_labels /\ l <> lbl_noise.
Proof.
  split; [discriminate|]. split; [vm_compute; lia|]. split; [right; lia|].
  split; [reflexivity|].
  apply (get_cluster_boundary_per_cluster (list point) shape_of_points 4 true
           four_labels four_points 2 1);
    [discriminate | vm_compute; lia | right; lia].
Defined.

Lemma get_cluster_boundary_partition_witness :
  (length four_labels <= length four_points)%nat /\
  get_cluster_boundary shape_of_points 4 false four_labels four_points 1 1
  = inr (polygon_list [[(0, 0); (20, 20)]; [(10, 10)]]) /\
  clustered four_labels four_points = [(0, 0); (10, 10); (20, 20)] /\
  exists chunks : list (list point),
    Forall2 (fun pts poly => shape_of_points pts 1 = inr poly)
            chunks [[(0, 0); (20, 20)]; [(10, 10)]] /\
    Permutation (concat chunks) (clustered four_labels four_points).
Proof.
  split; [vm_compute; lia|]. split; [reflexivity|]. split; [reflexivity|].
  apply (get_cluster_boundary_partition (list point) shape_of_points 4 false
           four_labels four_points 1 1
           (polygon_list [[(0, 0); (20, 20)]; [(10, 10)]]));
    [vm_compute; lia | reflexivity].
Defined.

Lemma get_cluster_boundary_parallel_witness :
  (-1 = -1 \/ 2 <= -1)%Z /\
  get_cluster_boundary shape_of_points 4 true four_labels four_points (-1) 1
  = inr (GeoSeries [[(0, 0); (20, 20)]; [(10, 10)]] [0; 1]%Z) /\
  (forall b,
      get_cluster_boundary shape_of_points 4 true four_labels four_points (-1) 1 = inr b
      <-> get_cluster_boundary shape_of_points 4 true four_labels four_points 1 1 = inr b) /\
  ((exists e, get_cluster_boundary shape_of_points 4 true four_labels four_points (-1) 1
              = inl e)
   <-> exists e, get_cluster_boundary shape_of_points 4 true four_labels four_points 1 1
                 = inl e).
Proof.
  split; [left; reflexivity|]. split; [reflexivity|].
  apply (get_cluster_boundary_parallel (list point) shape_of_points 4 true
           four_labels four_points (-1) 1).
  left. reflexivity.
Defined.

Lemma get_cluster_boundary_rejects_jobs_witness :
  four_labels <> [] /\ (length four_labels <= length four_points)%nat /\
  (0 = 0 \/ 0 < -1)%Z /\
  get_cluster_boundary shape_of_points 4 true four_labels four_points 0 1
  = inl (Raised ValueError) /\
  multi_core 0 = false.
Proof.
  split; [discriminate|]. split; [vm_compute; lia|]. split; [left; reflexivity|].
  apply (get_cluster_boundary_rejects_jobs (list point) shape_of_points 4 true
           four_labels four_points 0 1);
    [discriminate | vm_compute; lia | left; reflexivity].
Defined.

(** ** [fit] with a single draw and several jobs; [fit] followed by
       [get_cluster_boundary] *)

Section SingleParallel.
Context {label : Type} {L : LabelRep label}.

(** A one-column table with a cluster cannot be aligned in parallel: there
    is no other column to hand to the pool, and [pandas.concat([])] raises. *)
Lemma remap_lbls_single_parallel (n : nat) (c : list label) (xys : list point)
    (nj : Z) :
  (exists l, In l c /\ l <> lbl_noise) -> multi_core nj = true ->
  remap_lbls (mkDF n [c]) xys nj = ([], inl ValueError).
Proof.
  intros (l & Hl & Hn) Hpar.
  unfold remap_lbls. rewrite reference_run_single.
  change (column (mkDF n [c]) 0) with c.
  destruct c as [|x c']; [destruct Hl|].
  destruct (drop_label lbl_noise (groupby_mean (x :: c') xys)) as [|r0 rc] eqn:Erc.
  - exfalso.
    assert (Hin : In l (map fst (drop_label lbl_noise (groupby_mean (x :: c') xys))))
      by (apply centroid_keys; auto).
    rewrite Erc in Hin. exact Hin.
  - cbn [length Nat.ltb Nat.leb]. rewrite Hpar. reflexivity.
Qed.

End SingleParallel.

Section Composition.
Variable rng : Type.
Variable shuffle : rng -> nat -> list nat * rng.
Variable DBSCAN :
  Q -> Z -> string -> Z -> list point -> option (list Q) -> result (list Z).

(** With a single draw the parallel alignment has nothing to align: [fit]
    with [reps = 1] and [n_jobs = -1] or [n_jobs > 1] raises ValueError
    inside the alignment step whenever the draw found a cluster. *)
Theorem fit_single_draw_parallel_raises (self : ADBSCAN) (X : list point)
    (sw : option (list Q)) (g g' : rng) (pred : list string) :
  reps self = 1%Z -> multi_core (n_jobs self) = true ->
  _one_draw shuffle DBSCAN (length X) X sw (pct_exact self) (eps self)
            (min_samples self) (algorithm self) (n_jobs self) g
  = (g', [], inr pred) ->
  (exists l, In l pred /\ l <> "-1"%string) ->
  fit shuffle DBSCAN self X sw g
  = (g', [UserWarning multi_core_warning; Enter "_one_draw"; Enter "remap_lbls"],
     inl ValueError).
Proof.
  intros Hreps Hpar Hd Hcl.
  unfold fit, fit_consensus, draws. rewrite Hreps, Hpar.
  change (Z.to_nat 1) with 1%nat. change (1 <? 0)%Z with false.
  cbn [seq repeat for_each].
  unfold bind, emit, ret, lift, lift_log. rewrite Hd. cbn [app].
  change (set_col (mkDF (length X) [repeat EmptyString (length X)]) 0 pred)
    with (mkDF (length X) [pred]).
  rewrite (@remap_lbls_single_parallel string str_labels (length X) pred X
             (n_jobs self) Hcl Hpar).
  reflexivity.
Qed.

Variable polygon : Type.
Variable alpha_shape_auto : list point -> Z -> boundary_exn + polygon.
Variable cpu_count : positive.
Variable geopandas : bool.

(** The labels of a successful [fit] are always fit for
    [get_cluster_boundary] over the same points: there is one label per
    point, so the call raises neither IndexError nor KeyError, and, for a
    number of jobs the pool accepts, it computes one alpha shape for every
    label that survived the threshold, none of them for the noise
    sentinel. *)
Theorem fit_labels_fit_boundary (self : ADBSCAN) (X : list point)
    (sw : option (list Q)) (g g' : rng) (log : list event) (est : Fitted)
    (nj step : Z) :
  fit shuffle DBSCAN self X sw g = (g', log, inr est) ->
  (nj = -1 \/ 1 <= nj)%Z ->
  labels_ est <> [] /\ length (labels_ est) = length X /\
  get_cluster_boundary alpha_shape_auto cpu_count geopandas (labels_ est) X nj step
  = ebind (emap_list (fun k => alpha_shape_auto (select (labels_ est) X k) step)
                     (boundary_keys (labels_ est)))
          (fun polys => inr (if geopandas
                             then GeoSeries polys (boundary_keys (labels_ est))
                             else polygon_list polys)) /\
  forall k, In k (boundary_keys (labels_ est)) <->
            In k (labels_ est) /\ k <> "-1"%string.
Proof.
  intros H Hjobs.
  destruct (fit_stages _ _ _ _ _ _ _ _ _ _ H)
    as (ld & lw & solus & rel & votes & Hd & Hr & Hv & _ & -> & _ & HX & _).
  pose proof (draws_columns _ _ _ _ _ _ _ _ _ _ Hd) as (Hn & _ & _).
  destruct (remap_lbls_inr _ _ _ _ _ Hr) as (ref & _ & _ & Hcases).
  assert (Hnr : nrows rel = length X).
  { destruct Hcases as [(_ & -> & _)|(_ & _ & -> & _)]; exact Hn. }
  apply ensemble_inr in Hv. destruct Hv as (Hl & Hp & _).
  cbn [labels_].
  set (labels := threshold (str (-1)) (pct_thr self) (lbls votes) (pct votes)).
  assert (Hlen : length labels = length X).
  { unfold labels, threshold. rewrite length_map, length_combine. lia. }
  assert (Hne : labels <> []).
  { intros E. rewrite E in Hlen. simpl in Hlen. lia. }
  split; [exact Hne|]. split; [exact Hlen|].
  split; [|apply (@boundary_keys_in string str_labels labels)].
  unfold get_cluster_boundary. destruct labels as [|l0 labels'] eqn:El; [congruence|].
  rewrite <- El in *.
  assert (Hle : (length labels <= length X)%nat) by lia.
  rewrite (loc_ok X (0, 0) _ (ids_in_range labels X Hle)). cbn [ebind].
  rewrite (boundary_chunks labels X step Hle). cbn [ebind].
  destruct (groups_select labels X Hle) as (Hk & _). rewrite Hk.
  unfold _asa. rewrite emap_list_map. cbn [fst snd].
  destruct (Z.eqb_spec nj 1) as [|Hn1]; [reflexivity|].
  unfold _setup_pool, Pool.
  destruct (Z.eqb_spec nj (-1)) as [E|Hn2].
  - destruct (Z.ltb_spec (Z.pos cpu_count) 1); [lia | reflexivity].
  - destruct (Z.ltb_spec nj 1); [lia | reflexivity].
Qed.

End Composition.

Lemma fit_single_draw_parallel_raises_witness :
  let self := mkADBSCAN 1 1 "auto" (-1) 1 1 false (9 # 10) in
  reps self = 1%Z /\ multi_core (n_jobs self) = true /\
  _one_draw scripted_shuffle sklearn_DBSCAN (length two_far_points) two_far_points None
            (pct_exact self) (eps self) (min_samples self) (algorithm self)
            (n_jobs self) [[1; 0]%nat]
  = ([], [], inr ["1"; "0"]%string) /\
  (exists l, In l ["1"; "0"]%string /\ l <> "-1"%string) /\
  fit scripted_shuffle sklearn_DBSCAN self two_far_points None [[1; 0]%nat]
  = ([], [UserWarning multi_core_warning; Enter "_one_draw"; Enter "remap_lbls"],
     inl ValueError).
Proof.
  assert (Hcl : exists l, In l ["1"; "0"]%string /\ l <> "-1"%string)
    by (exists "1"%string; split; [left; reflexivity | discriminate]).
  cbv zeta. split; [reflexivity|]. split; [reflexivity|].
  split; [vm_compute; reflexivity|]. split; [exact Hcl|].
  apply (fit_single_draw_parallel_raises script scripted_shuffle sklearn_DBSCAN
           (mkADBSCAN 1 1 "auto" (-1) 1 1 false (9 # 10)) two_far_points None
           [[1; 0]%nat] [] ["1"; "0"]%string);
    [reflexivity | reflexivity | vm_compute; reflexivity | exact Hcl].
Defined.

Lemma fit_labels_fit_boundary_witness :
  let self := mkADBSCAN 1 4 "auto" 1 (1 # 2) 2 true (1 # 2) in
  exists (g' : script) (log : list event) (est : Fitted),
    fit scripted_shuffle sklearn_DBSCAN self four_points None
        [[0; 1; 2; 3]; [0; 2; 1; 3]]%nat = (g', log, inr est) /\
    labels_ est = ["0"; "0"; "0"; "0"]%string /\
    (1 = -1 \/ 1 <= 1)%Z /\
    get_cluster_boundary shape_of_points 4 true (labels_ est) four_points 1 1
    = inr (GeoSeries [four_points] ["0"%string]) /\
    labels_ est <> [] /\ length (labels_ est) = length four_points /\
    get_cluster_boundary shape_of_points 4 true (labels_ est) four_points 1 1
    = ebind (emap_list (fun k => shape_of_points (select (labels_ est) four_points k) 1)
                       (boundary_keys (labels_ est)))
            (fun polys => inr (if true
                               then GeoSeries polys (boundary_keys (labels_ est))
                               else polygon_list polys)) /\
    forall k, In k (boundary_keys (labels_ est)) <->
              In k (labels_ est) /\ k <> "-1"%string.
Proof.
  cbv zeta. eexists. eexists. eexists. split; [vm_compute; reflexivity|].
  split; [reflexivity|]. split; [right; lia|]. split; [vm_compute; reflexivity|].
  eapply (fit_labels_fit_boundary script scripted_shuffle sklearn_DBSCAN
            (list point) shape_of_points 4 true
            (mkADBSCAN 1 4 "auto" 1 (1 # 2) 2 true (1 # 2)) four_points None
            [[0; 1; 2; 3]; [0; 2; 1; 3]]%nat).
  - vm_compute. reflexivity.
  - right. lia.
Defined.

(** ** [fit]: the names of the columns *)

Lemma str_of_nat (n : nat) :
  str (Z.of_nat n) = NilEmpty.string_of_uint (N.to_uint (N.of_nat n)).
Proof.
  unfold str. destruct n as [|n]; [reflexivity|].
  cbn [Z.of_nat N.of_nat Z.to_int N.to_uint NilZero.string_of_int].
  pose proof (DecimalPos.Unsigned.to_uint_nonnil (Pos.of_succ_nat n)) as Hnn.
  destruct (Pos.to_uint (Pos.of_succ_nat n)); [congruence | reflexivity ..].
Qed.

Lemma length_string_of_uint (d : Decimal.uint) :
  String.length (NilEmpty.string_of_uint d) = Decimal.nb_digits d.
Proof.
  induction d; simpl; congruence.
Qed.

Lemma nb_digits_succ (d : Decimal.uint) :
  (Decimal.nb_digits d <= Decimal.nb_digits (Decimal.Little.succ d))%nat.
Proof.
  induction d; simpl; lia.
Qed.

Lemma nb_digits_to_uint (n : N) :
  Decimal.nb_digits (N.to_uint n) = Decimal.nb_digits (DecimalPos.Unsigned.to_lu n).
Proof.
  destruct n as [|p]; [reflexivity|].
  cbn [N.to_uint DecimalPos.Unsigned.to_lu]. unfold Pos.to_uint.
  apply DecimalFacts.nb_digits_rev.
Qed.

(** The decimal form of a number is not shorter than that of a smaller
    one. *)
Lemma length_str_mono (i j : nat) :
  (i <= j)%nat ->
  (String.length (str (Z.of_nat i)) <= String.length (str (Z.of_nat j)))%nat.
Proof.
  intros Hij. rewrite !str_of_nat, !length_string_of_uint, !nb_digits_to_uint.
  induction Hij as [|j Hij IH]; [lia|].
  eapply Nat.le_trans; [exact IH|].
  rewrite Nnat.Nat2N.inj_succ, DecimalPos.Unsigned.to_lu_succ. apply nb_digits_succ.
Qed.

Lemma uint_of_zeros (k : nat) (s : string) :
  NilEmpty.uint_of_string (string_of_list_ascii (repeat "0"%char k) ++ s)
  = option_map (Nat.iter k Decimal.D0) (NilEmpty.uint_of_string s).
Proof.
  induction k as [|k IH]; simpl.
  - destruct (NilEmpty.uint_of_string s); reflexivity.
  - rewrite IH. destruct (NilEmpty.uint_of_string s); reflexivity.
Qed.

Lemma of_uint_zeros (k : nat) (d : Decimal.uint) :
  N.of_uint (Nat.iter k Decimal.D0 d) = N.of_uint d.
Proof.
  induction k as [|k IH]; [reflexivity|]. simpl. exact IH.
Qed.

Lemma length_zeros (k : nat) :
  String.length (string_of_list_ascii (repeat "0"%char k)) = k.
Proof.
  induction k as [|k IH]; simpl; congruence.
Qed.

Lemma length_append (s t : string) :
  String.length (s ++ t) = (String.length s + String.length t)%nat.
Proof.
  induction s as [|c s IH]; simpl; congruence.
Qed.

(** The decimal form of a natural number starts with a digit: [zfill] pads
    it on the left. *)
Lemma zfill_str (w n : nat) :
  zfill w (str (Z.of_nat n))
  = (string_of_list_ascii (repeat "0"%char (w - String.length (str (Z.of_nat n))))
     ++ str (Z.of_nat n))%string.
Proof.
  unfold zfill. rewrite str_of_nat.
  destruct (N.to_uint (N.of_nat n)) as [|d|d|d|d|d|d|d|d|d|d] eqn:E;
    try reflexivity.
  exfalso. destruct (N.of_nat n) as [|p]; [discriminate E|].
  exact (DecimalPos.Unsigned.to_uint_nonnil p E).
Qed.

Lemma int_of_padded (k n : nat) :
  int_of_digits (string_of_list_ascii (repeat "0"%char k) ++ str (Z.of_nat n))
  = Some n.
Proof.
  unfold int_of_digits.
  assert (Hne : (string_of_list_ascii (repeat "0"%char k) ++ str (Z.of_nat n))%string
                <> EmptyString).
  { intros E. apply (f_equal String.length) in E.
    rewrite length_append, length_zeros, str_of_nat, length_string_of_uint in E.
    simpl in E.
    assert (Hd : N.to_uint (N.of_nat n) <> Decimal.Nil).
    { destruct (N.of_nat n) as [|p]; [discriminate|].
      apply DecimalPos.Unsigned.to_uint_nonnil. }
    apply Hd. apply DecimalFacts.nb_digits_0. lia. }
  unfold NilZero.uint_of_string.
  destruct (string_of_list_ascii (repeat "0"%char k) ++ str (Z.of_nat n))%string
    as [|c t] eqn:E; [congruence|].
  rewrite <- E, uint_of_zeros, str_of_nat, NilEmpty.usu. cbn [option_map].
  rewrite of_uint_zeros, DecimalN.Unsigned.of_to, Nnat.Nat2N.id. reflexivity.
Qed.

Lemma NoDup_map_inj {A B} (f : A -> B) (l : list A) :
  (forall a b, f a = f b -> a = b) -> NoDup l -> NoDup (map f l).
Proof.
  intros Hinj Hnd. induction Hnd as [|a l Hin Hnd IH]; simpl; constructor.
  - intros Hfa. apply in_map_iff in Hfa. destruct Hfa as (b & Hb & Hbl).
    apply Hinj in Hb. subst b. contradiction.
  - exact IH.
Qed.

(** The columns of [solus] are named after the draws, and the name gives
    the draw back: there is one name per draw, the digits after ["rep-"]
    read as the number of the draw, every name has the same length (the
    numbers are padded with zeros to the width of [reps]), and no two names
    are equal. *)
Theorem rep_names_round_trip (reps : Z) :
  length (rep_names reps) = Z.to_nat reps /\
  NoDup (rep_names reps) /\
  forall i, (i < Z.to_nat reps)%nat ->
    exists digits,
      nth_error (rep_names reps) i = Some ("rep-" ++ digits)%string /\
      int_of_digits digits = Some i /\
      String.length digits = String.length (str reps).
Proof.
  unfold rep_names. split; [rewrite length_map, length_seq; reflexivity|]. split.
  - apply NoDup_map_inj; [|apply seq_NoDup].
    intros a b E. injection E as E. rewrite !zfill_str in E.
    apply (f_equal int_of_digits) in E. rewrite !int_of_padded in E.
    congruence.
  - intros i Hi. exists (zfill (String.length (str reps)) (str (Z.of_nat i))).
    split.
    + rewrite nth_error_map, nth_error_seq.
      destruct (Nat.ltb_spec i (Z.to_nat reps)); [reflexivity | lia].
    + rewrite zfill_str. split; [apply int_of_padded|].
      rewrite length_append, length_zeros.
      assert (Hle : (String.length (str (Z.of_nat i)) <= String.length (str reps))%nat).
      { replace reps with (Z.of_nat (Z.to_nat reps)) at 1 by lia.
        apply length_str_mono. lia. }
      lia.
Qed.

(** ** The final labels and the Reference Run of the specification *)

Lemma to_int_nonnil (z : Z) :
  Z.to_int z <> Decimal.Pos Decimal.Nil /\ Z.to_int z <> Decimal.Neg Decimal.Nil.
Proof.
  destruct z as [|p|p]; simpl; split; try discriminate;
    intros E; injection E as E;
    exact (DecimalPos.Unsigned.to_uint_nonnil p E).
Qed.

Lemma str_inj (a b : Z) : str a = str b -> a = b.
Proof.
  unfold str. intros E.
  apply (f_equal NilZero.int_of_string) in E.
  rewrite !NilZero.isi in E by apply to_int_nonnil.
  injection E as E. apply (f_equal Z.of_int) in E.
  rewrite !DecimalZ.of_to in E. exact E.
Qed.

(** A run numbered [0 .. k - 1] has [k] clusters. *)
Lemma numbered_n_clusters (c : list string) (k : nat) :
  (forall s, s <> str (-1) ->
     (In s c <-> exists i, (i < k)%nat /\ s = str (Z.of_nat i))) ->
  n_clusters c = k.
Proof.
  intros H. unfold n_clusters.
  transitivity (length (map (fun i => str (Z.of_nat i)) (seq 0 k)));
    [|rewrite length_map, length_seq; reflexivity].
  apply Permutation_length. apply NoDup_Permutation.
  - apply NoDup_unique.
  - apply NoDup_map_inj; [|apply seq_NoDup].
    intros a b E. apply str_inj in E. lia.
  - intros s. rewrite in_unique, filter_In, negb_true_iff, lbl_eqb_neq, in_map_iff.
    change (@lbl_noise string _) with (str (-1)). split.
    + intros (Hin & Hn). apply (H s Hn) in Hin. destruct Hin as (i & Hi & ->).
      exists i. split; [reflexivity | apply in_seq; lia].
    + intros (i & <- & Hi). apply in_seq in Hi.
      assert (Hn : str (Z.of_nat i) <> str (-1)).
      { intros E. apply str_inj in E. lia. }
      split; [|exact Hn]. apply (H _ Hn). exists i. split; [lia | reflexivity].
Qed.

(** In a table of numbered runs every cluster label of every run is a label
    of the run with the most clusters. *)
Lemma numbered_within_reference (solus : DataFrame string) (ref : nat) :
  spec_reference_run solus = Some ref ->
  Forall numbered (cols solus) ->
  Forall (Forall (fun y => y = lbl_noise \/
                           (In y (column solus ref) /\ y <> lbl_noise)))
         (cols solus).
Proof.
  intros Href Hnum. unfold spec_reference_run in Href.
  apply first_index_spec in Href. destruct Href as (m & Hm & Em & _).
  apply Nat.eqb_eq in Em.
  rewrite nth_error_map in Hm.
  destruct (nth_error (cols solus) ref) as [cref|] eqn:Eref; [|discriminate].
  cbn [option_map] in Hm. injection Hm as Hm.
  assert (Ecol : column solus ref = cref) by (apply nth_error_nth; exact Eref).
  rewrite Ecol.
  rewrite Forall_forall in Hnum.
  destruct (Hnum cref (nth_error_In _ _ Eref)) as (kref & Hkref).
  pose proof (numbered_n_clusters cref kref Hkref) as Ekref.
  apply Forall_forall. intros c Hc. apply Forall_forall. intros y Hy.
  destruct (string_dec y lbl_noise) as [E|E]; [left; exact E | right].
  split; [|exact E].
  destruct (Hnum c Hc) as (k & Hk).
  pose proof (numbered_n_clusters c k Hk) as Ek.
  assert (Hle : (k <= kref)%nat).
  { rewrite <- Ek, <- Ekref, Hm, <- Em. apply list_max_nat_ge.
    apply in_map. exact Hc. }
  apply (Hk y E) in Hy. destruct Hy as (i & Hi & ->).
  apply (Hkref _ E). exists i. split; [lia | reflexivity].
Qed.

Section SpecReference.
Variable rng : Type.
Variable shuffle : rng -> nat -> list nat * rng.
Variable DBSCAN :
  Q -> Z -> string -> Z -> list point -> option (list Q) -> result (list Z).

(** C6.  After a successful [fit] the final labels have one entry per point,
    in the order of the points.  The Label Matrix of the call, the table the
    draws leave, has a Reference Run in the sense of the specification (the
    first column with the most distinct labels other than noise), and when
    every run numbers its clusters from zero without a gap, as the density
    primitive does, every final label is the noise sentinel or a label other
    than noise of that Reference Run. *)
Theorem fit_labels_in_spec_reference_run (self : ADBSCAN) (X : list point)
    (sw : option (list Q)) (g g' : rng) (log ld : list event) (est : Fitted)
    (solus : DataFrame string) :
  fit shuffle DBSCAN self X sw g = (g', log, inr est) ->
  draws shuffle DBSCAN self (length X) X sw
    (mkDF (length X) (repeat (repeat EmptyString (length X)) (Z.to_nat (reps self)))) g
  = (g', ld, inr solus) ->
  Forall numbered (cols solus) ->
  length (labels_ est) = length X /\
  exists ref : nat,
    spec_reference_run solus = Some ref /\
    Forall (fun y => y = lbl_noise \/ (In y (column solus ref) /\ y <> lbl_noise))
           (labels_ est).
Proof.
  intros H Hd Hnum.
  destruct (fit_stages _ _ _ _ _ _ _ _ _ _ H)
    as (ld' & lw & solus' & rel & votes & Hd' & Hr & Hv & _ & -> & Hshape & _ & _).
  rewrite Hd in Hd'. injection Hd' as <- <-.
  cbn [labels_].
  pose proof (draws_columns _ _ _ _ _ _ _ _ _ _ Hd) as (Hn & _ & _).
  apply ensemble_inr in Hv. destruct Hv as (Hl1 & Hl2 & Hwin).
  assert (Href : exists ref, spec_reference_run solus = Some ref).
  { unfold spec_reference_run.
    apply first_index_exists
      with (a := list_max_nat (map n_clusters (cols solus))).
    - apply list_max_nat_in. unfold shape1 in Hshape.
      destruct (cols solus); [simpl in Hshape; lia | discriminate].
    - apply Nat.eqb_refl. }
  destruct Href as (ref & Href).
  pose proof (numbered_within_reference solus ref Href Hnum) as Hall.
  destruct (remap_lbls_cells _ _ _ _ _
              (fun y => y = lbl_noise \/ (In y (column solus ref) /\ y <> lbl_noise))
              Hr (or_introl eq_refl) Hall) as (Hnr & Hcells).
  split.
  - unfold threshold. rewrite length_map, length_combine, Hl1, Hl2, Nat.min_id.
    congruence.
  - exists ref. split; [exact Href|].
    apply threshold_cells; [left; reflexivity|].
    apply Forall_forall. intros w Hw. destruct (Hwin w Hw) as (c1 & Hc1 & Hwc).
    rewrite Forall_forall in Hcells. specialize (Hcells _ Hc1).
    rewrite Forall_forall in Hcells. apply Hcells, Hwc.
Qed.

End SpecReference.

(** Three draws over [four_points]: the first finds no cluster, the other
    two put every point in cluster 0.  The Reference Run of the
    specification is the second column, the first with a cluster; the
    alignment, which takes the all-noise first column for its reference,
    leaves the table as it is, and with a threshold of one half the final
    label of every point is ["0"], a label of the second column. *)
Lemma fit_labels_in_spec_reference_run_witness :
  let self := mkADBSCAN 1 4 "auto" 1 (1 # 2) 3 true (1 # 2) in
  let solus := mkDF 4 [["-1"; "-1"; "-1"; "-1"]; ["0"; "0"; "0"; "0"];
                       ["0"; "0"; "0"; "0"]]%string in
  let est := mkFitted (mkVotes ["0"; "0"; "0"; "0"]%string [2 # 3; 2 # 3; 2 # 3; 2 # 3])
                      ["0"; "0"; "0"; "0"]%string (Some solus) (Some solus) in
  fit scripted_shuffle sklearn_DBSCAN self four_points None three_draws
  = ([],
     [Enter "_one_draw"; Enter "_one_draw"; Enter "_one_draw"; Enter "remap_lbls";
      UserWarning "No clusters identified."; Enter "ensemble"],
     inr est) /\
  Forall numbered (cols solus) /\
  reference_run solus = Some 0%nat /\
  spec_reference_run solus = Some 1%nat /\
  length (labels_ est) = length four_points /\
  exists ref : nat,
    spec_reference_run solus = Some ref /\
    Forall (fun y => y = lbl_noise \/ (In y (column solus ref) /\ y <> lbl_noise))
           (labels_ est).
Proof.
  cbv zeta.
  assert (Hnum : Forall numbered
                   (cols (mkDF 4 [["-1"; "-1"; "-1"; "-1"]; ["0"; "0"; "0"; "0"];
                                  ["0"; "0"; "0"; "0"]]%string))).
  { cbn [cols].
    assert (H0 : numbered ["-1"; "-1"; "-1"; "-1"]%string).
    { exists 0%nat. intros s Hs. split.
      - intros Hin. cbn [In] in Hin.
        repeat (destruct Hin as [<-|Hin]; [exfalso; apply Hs; reflexivity|]).
        contradiction.
      - intros (i & Hi & _). lia. }
    assert (H1 : numbered ["0"; "0"; "0"; "0"]%string).
    { exists 1%nat. intros s Hs. split.
      - intros Hin. cbn [In] in Hin. exists 0%nat. split; [lia|].
        repeat (destruct Hin as [<-|Hin]; [reflexivity|]). contradiction.
      - intros (i & Hi & ->). assert (i = 0%nat) as -> by lia. left. reflexivity. }
    repeat constructor; assumption. }
  split; [vm_compute; reflexivity|]. split; [exact Hnum|].
  split; [reflexivity|]. split; [reflexivity|].
  apply (fit_labels_in_spec_reference_run script scripted_shuffle sklearn_DBSCAN
           (mkADBSCAN 1 4 "auto" 1 (1 # 2) 3 true (1 # 2)) four_points None
           three_draws []
           [Enter "_one_draw"; Enter "_one_draw"; Enter "_one_draw"; Enter "remap_lbls";
            UserWarning "No clusters identified."; Enter "ensemble"]
           [Enter "_one_draw"; Enter "_one_draw"; Enter "_one_draw"]).
  - vm_compute. reflexivity.
  - vm_compute. reflexivity.
  - exact Hnum.
Defined.
